(** * histdem: the CSV-to-TEI converter and the CSV auditor

    A shallow embedding of [convert_csv_to_tei.py] and
    [validate_csv_data.py].  Python [str] values are sequences of Unicode
    code points; dictionaries keyed by strings are finite maps; the global
    list [conversion_warnings] is threaded as explicit state. *)

From Stdlib Require Import ZArith NArith Lia Bool Ascii String DecimalString.
From stdpp Require Import base option list gmap.

(** ** Python strings *)

(** A character is a code point; a [str] is a list of them. *)
Abbreviation char := N (only parsing).
Abbreviation pystr := (list N) (only parsing).

Module Utf8.
Local Open Scope N_scope.

(** Source literals are written in UTF-8, as in the Python files;
    [decode] turns the bytes of a literal into code points. *)
Definition cont (b : N) : N := N.land b 63.

Fixpoint decode (bs : list N) : list N :=
  match bs with
  | [] => []
  | b :: r =>
      if b <? 128 then b :: decode r
      else if b <? 224 then
        match r with
        | b1 :: r1 => (N.shiftl (N.land b 31) 6 + cont b1) :: decode r1
        | _ => [b]
        end
      else if b <? 240 then
        match r with
        | b1 :: b2 :: r2 =>
            (N.shiftl (N.land b 15) 12 + N.shiftl (cont b1) 6 + cont b2)
              :: decode r2
        | _ => [b]
        end
      else
        match r with
        | b1 :: b2 :: b3 :: r3 =>
            (N.shiftl (N.land b 7) 18 + N.shiftl (cont b1) 12
             + N.shiftl (cont b2) 6 + cont b3) :: decode r3
        | _ => [b]
        end
  end.

End Utf8.

(** [u "..."] is the Python string written as that literal. *)
Definition u (s : string) : pystr :=
  Utf8.decode (List.map N_of_ascii (list_ascii_of_string s)).

Arguments u : simpl never.

Definition str_eqb (a b : pystr) : bool := bool_decide (a = b).

(** [str.isspace] on one character: the interpreter's whitespace table
    ([_PyUnicode_IsWhitespace]). *)
Definition is_space (c : char) : bool :=
  (((9 <=? c) && (c <=? 13)) || ((28 <=? c) && (c <=? 32))
   || (c =? 133) || (c =? 160) || (c =? 5760)
   || ((8192 <=? c) && (c <=? 8202))
   || (c =? 8232) || (c =? 8233) || (c =? 8239) || (c =? 8287)
   || (c =? 12288))%N.

(** [str.lstrip()], [str.rstrip()], [str.strip()] without argument. *)
Fixpoint lstrip (s : pystr) : pystr :=
  match s with
  | c :: r => if is_space c then lstrip r else s
  | [] => []
  end.

Definition rstrip (s : pystr) : pystr := reverse (lstrip (reverse s)).

Definition strip (s : pystr) : pystr := rstrip (lstrip s).

(** [s.startswith(p)] and [s.endswith(p)]. *)
Fixpoint startswith (s p : pystr) {struct p} : bool :=
  match p, s with
  | [], _ => true
  | a :: p', b :: s' => (a =? b)%N && startswith s' p'
  | _ :: _, [] => false
  end.

Definition endswith (s p : pystr) : bool :=
  startswith (reverse s) (reverse p).

(** [s.find(sub)]: the index of the first occurrence, [None] for -1. *)
Fixpoint str_find (sub s : pystr) : option nat :=
  if startswith s sub then Some 0
  else match s with
       | [] => None
       | _ :: r => S <$> str_find sub r
       end.

(** [sub in s]. *)
Definition contains (sub s : pystr) : bool :=
  match str_find sub s with Some _ => true | None => false end.

(** [s.split(sep, maxsplit)] for a non-empty separator: at most
    [maxsplit] cuts, leftmost first. *)
Fixpoint split_max (maxsplit : nat) (sep s : pystr) : list pystr :=
  match maxsplit with
  | O => [s]
  | S k =>
      match str_find sep s with
      | None => [s]
      | Some i => take i s :: split_max k sep (drop (i + length sep) s)
      end
  end.

(** [s.split(sep)]: no bound on the number of cuts; a string of length
    [n] has at most [n] occurrences of a non-empty separator. *)
Definition split (sep s : pystr) : list pystr :=
  split_max (length s) sep s.

(** [s.replace(old, new)] for a non-empty [old]. *)
Fixpoint replace_max (count : nat) (old new s : pystr) : pystr :=
  match count with
  | O => s
  | S k =>
      match str_find old s with
      | None => s
      | Some i =>
          take i s ++ new ++ replace_max k old new (drop (i + length old) s)
      end
  end.

Definition replace (old new s : pystr) : pystr :=
  replace_max (length s) old new s.

(** [sep.join(parts)]. *)
Fixpoint join (sep : pystr) (parts : list pystr) : pystr :=
  match parts with
  | [] => []
  | [p] => p
  | p :: r => p ++ sep ++ join sep r
  end.

(** [s.split()] without argument: the maximal runs of non-whitespace. *)
Fixpoint words_go (s cur : pystr) : list pystr :=
  match s with
  | [] => match cur with [] => [] | _ => [reverse cur] end
  | c :: r =>
      if is_space c
      then match cur with
           | [] => words_go r []
           | _ => reverse cur :: words_go r []
           end
      else words_go r (c :: cur)
  end.

Definition words (s : pystr) : list pystr := words_go s [].

(** ** The warning collector

    [conversion_warnings] is a module-level list that [parse_file_entry]
    appends to.  A computation that may append is a function from the
    list before to a result and the list after. *)

Definition Warn (A : Type) : Type := list pystr → A * list pystr.

#[global] Instance warn_ret : MRet Warn := λ A a w, (a, w).

#[global] Instance warn_bind : MBind Warn :=
  λ A B k m w, let (a, w') := m w in k a w'.

(** [conversion_warnings.append(msg)]. *)
Definition warn (msg : pystr) : Warn unit := λ w, (tt, w ++ [msg]).

(** ** The field-entry grammar of the converter *)

Definition SEP : pystr := u " - ".

(** The warning for an entry without separator. *)
Definition msg_missing_title (dataset_id field_name entry : pystr) : pystr :=
  u "WARNUNG Dataset " ++ dataset_id ++ u ": " ++ field_name
  ++ u " - Fehlender Titel (Format sollte sein: 'dateiname - Titel'). Gefunden: '"
  ++ entry ++ u "'".

(** [parse_file_entry(entry, field_name, dataset_id)]; the result pair is
    [(filename, title)], each [None] or a string. *)
Definition parse_file_entry (entry field_name dataset_id : pystr)
  : Warn (option pystr * option pystr) :=
  if str_eqb entry [] || str_eqb (strip entry) [] then mret (None, None)
  else
    let entry := strip entry in
    if negb (contains SEP entry) then
      warn (msg_missing_title dataset_id field_name entry) ;;
      mret (Some entry, None)
    else
      let parts := split_max 1 SEP entry in
      let filename := strip (parts !!! 0) in
      let title := strip (parts !!! 1) in
      if str_eqb filename [] then
        warn (u "FEHLER Dataset " ++ dataset_id ++ u ": " ++ field_name
              ++ u " - Leerer Dateiname vor ' - '") ;;
        mret (None, None)
      else if str_eqb title [] then
        warn (u "WARNUNG Dataset " ++ dataset_id ++ u ": " ++ field_name
              ++ u " - Leerer Titel nach ' - '") ;;
        mret (Some filename, None)
      else mret (Some filename, Some title).

(** ** The interpreter's tables

    [int], [str.lower], [str.upper], [str.islower], [str.isdigit] and the
    regular-expression class [\d] consult Unicode tables of the Python
    runtime.  They are an interface here; [py_int_digits] records what
    [int] returns on a run of ASCII digits within the default length
    limit of the decimal conversion. *)

Definition is_ascii_digit (c : char) : bool := ((48 <=? c) && (c <=? 57))%N.

Definition digits_value (ds : pystr) : Z :=
  foldl (λ acc c, acc * 10 + (Z.of_N c - 48))%Z 0%Z ds.

Class Runtime := {
  py_int : pystr → option Z;
  str_lower : pystr → pystr;
  str_upper : pystr → pystr;
  str_islower : pystr → bool;
  chr_isdigit : char → bool;
  chr_isdecimal : char → bool;
  py_int_digits : ∀ ds : pystr,
    ds ≠ [] → length ds ≤ 4300 →
    forallb is_ascii_digit ds = true → py_int ds = Some (digits_value ds)
}.

(** Exceptions of the operations modelled as fallible. *)
Inductive exn := IndexError | ExternalError (msg : pystr).

Inductive result (A : Type) := Ok (a : A) | Raise (e : exn).
Arguments Ok {A} a.
Arguments Raise {A} e.

(** ** Element trees

    An [xml.etree.ElementTree.Element]: tag, attributes in insertion
    order, text, tail and children. *)
Inductive Element := Elem {
  e_tag : pystr;
  e_attrib : list (pystr * pystr);
  e_text : option pystr;
  e_tail : option pystr;
  e_children : list Element
}.

Definition TEI_NS : pystr := u "http://www.tei-c.org/ns/1.0".
Definition XML_NS : pystr := u "http://www.w3.org/XML/1998/namespace".

(** [f'{{{ns}}}{name}']. *)
Definition qname (ns name : pystr) : pystr := u "{" ++ ns ++ u "}" ++ name.

(** Truth value of a string, and of a value that is [None] or a string. *)
Definition nonempty (s : pystr) : bool := negb (str_eqb s []).

Definition truthy (o : option pystr) : bool :=
  match o with Some s => nonempty s | None => false end.

(** [a or b] on strings. *)
Definition str_or (o : option pystr) (d : pystr) : pystr :=
  if truthy o then default d o else d.

(** [create_tei_element(tag, text, attrib)]. *)
Definition create_tei_element (tag : pystr) (text : option pystr)
    (attrib : list (pystr * pystr)) : Element :=
  Elem (qname TEI_NS tag) attrib (if truthy text then text else None) None [].

(** [parent.append(child)]. *)
Definition append (parent child : Element) : Element :=
  Elem (e_tag parent) (e_attrib parent) (e_text parent) (e_tail parent)
       (e_children parent ++ [child]).

Definition extend (parent : Element) (cs : list Element) : Element :=
  foldl append parent cs.

(** Lookup in a dictionary literal. *)
Fixpoint dict_get (d : list (pystr * pystr)) (k : pystr) : option pystr :=
  match d with
  | [] => None
  | (k', v) :: r => if str_eqb k' k then Some v else dict_get r k
  end.

Definition DATASET_FOLDERS : list (pystr * pystr) :=
  [ (u "147", u "datafile_147_Serbia_1863");
    (u "21", u "datafile_21_Albania_1918");
    (u "262", u "datafile_262_Montenegro_1879");
    (u "266", u "datafile_266_Armenians_in_Istanbul_1907");
    (u "153", u "datafile_153_Rhodope_mountains_around_1900");
    (u "234", u "datafile_234_Wallachia_1838");
    (u "154", u "datafile_154_Dalmatia_1674");
    (u "164", u "datafile_164_Istanbul_1907");
    (u "165", u "datafile_165_Istanbul_1885");
    (u "152", u "datafile_152_Hungary_1869") ].

Definition get_dataset_folder (dataset_id : pystr) : option pystr :=
  dict_get DATASET_FOLDERS dataset_id.

Definition add_folder_prefix (filename dataset_id : pystr) : pystr :=
  match get_dataset_folder dataset_id with
  | Some folder =>
      if nonempty folder && nonempty filename
      then u "../" ++ folder ++ u "/" ++ filename
      else filename
  | None => filename
  end.

Definition sanitize_xml_id `{Runtime} (filename : pystr) : pystr :=
  if negb (nonempty filename) then u "id_unknown"
  else
    let id_str :=
      replace (u ".png") [] (replace (u ".jpeg") [] (replace (u ".JPG") []
        (replace (u ".jpg") [] (replace (u ".pdf") []
          (replace (u ".csv") [] filename))))) in
    let id_str :=
      replace (u "-") (u "_") (replace (u ".") (u "_")
        (replace (u " ") (u "_") id_str)) in
    let id_str :=
      match id_str with
      | c :: _ => if chr_isdigit c then u "_" ++ id_str else id_str
      | [] => id_str
      end in
    if nonempty id_str then id_str else u "id_unknown".

(** ** Citation authors *)

Definition DOT : char := 46%N.
Definition STAR : char := 42%N.

(** The longest prefix without the character [c], and what follows. *)
Fixpoint span_not (c : char) (s : pystr) : pystr * pystr :=
  match s with
  | [] => ([], [])
  | x :: r =>
      if (x =? c)%N then ([], s)
      else let (a, b) := span_not c r in (x :: a, b)
  end.

(** [re.match(r'^([^c]+?)c', s)] and [re.match(r'^([^c]+)c', s)]: both
    succeed exactly when one or more characters other than [c] are
    followed by [c]; the group is those characters. *)
Definition match_before (c : char) (s : pystr) : option pystr :=
  match span_not c s with
  | (x :: g, y :: _) => Some (x :: g)
  | _ => None
  end.

Definition parse_citation_authors (citation_text : pystr) : list pystr :=
  if negb (nonempty citation_text) then []
  else
    let m := match match_before DOT citation_text with
             | Some g => Some g
             | None => match_before STAR citation_text
             end in
    match m with
    | Some g =>
        let author_part := strip g in
        let author_part := replace (u " and ") (u ", ") author_part in
        filter (λ a, nonempty a = true) (strip <$> split (u ",") author_part)
    | None => []
    end.

(** ** Inline markup *)

(** [text[a:b]] for [a <= b <= len(text)]. *)
Definition slice (text : pystr) (a b : nat) : pystr :=
  take (b - a) (drop a text).

(** The number of leading characters other than [*]. *)
Fixpoint run_nostar (s : pystr) : nat :=
  match s with
  | [] => 0
  | c :: r => if (c =? STAR)%N then 0 else S (run_nostar r)
  end.

(** The pattern [\*([^*]+)\*] tried at the head of [s]: the length of
    the group when it matches there. *)
Definition italic_at (s : pystr) : option nat :=
  match s with
  | c :: r =>
      if (c =? STAR)%N then
        let n := run_nostar r in
        match n, r !! n with
        | S _, Some _ => Some n
        | _, _ => None
        end
      else None
  | [] => None
  end.

(** The leftmost match in [s], which is [text[pos:]]: its start and end
    as indices of [text]. *)
Fixpoint search_italic (s : pystr) (pos : nat) : option (nat * nat) :=
  match italic_at s with
  | Some n => Some (pos, pos + n + 2)
  | None =>
      match s with
      | [] => None
      | _ :: r => search_italic r (S pos)
      end
  end.

(** [re.finditer(r'\*([^*]+)\*', text)]: each search resumes where the
    previous match ended. *)
Fixpoint finditer_from (fuel : nat) (text : pystr) (pos : nat)
  : list (nat * nat) :=
  match fuel with
  | O => []
  | S k =>
      match search_italic (drop pos text) pos with
      | None => []
      | Some (ms, me) => (ms, me) :: finditer_from k text me
      end
  end.

Definition finditer_italic (text : pystr) : list (nat * nat) :=
  finditer_from (length text) text 0.

Inductive part_type := PText | PItalic.

#[global] Instance part_type_eq_dec : EqDecision part_type.
Proof. solve_decision. Defined.

(** One round of the loop body of [markdown_to_tei]. *)
Definition markdown_step (text : pystr)
    (st : list (part_type * pystr) * nat) (m : nat * nat)
  : list (part_type * pystr) * nat :=
  let '(parts, current_pos) := st in
  let '(ms, me) := m in
  let parts :=
    if current_pos <? ms
    then parts ++ [(PText, slice text current_pos ms)] else parts in
  (parts ++ [(PItalic, slice text (ms + 1) (me - 1))], me).

(** [markdown_to_tei(text)]: [None] for an empty text, else the parts. *)
Definition markdown_to_tei (text : pystr)
  : option (list (part_type * pystr)) :=
  if negb (nonempty text) then None
  else
    let '(parts, current_pos) :=
      foldl (markdown_step text) ([], 0) (finditer_italic text) in
    Some (if current_pos <? length text
          then parts ++ [(PText, drop current_pos text)] else parts).

Definition set_text (e : Element) (t : option pystr) : Element :=
  Elem (e_tag e) (e_attrib e) t (e_tail e) (e_children e).

Definition set_tail (e : Element) (t : option pystr) : Element :=
  Elem (e_tag e) (e_attrib e) (e_text e) t (e_children e).

(** [parent[-1].tail += content], or [= content] when it has none. *)
Definition add_to_last_tail (parent : Element) (content : pystr) : Element :=
  match reverse (e_children parent) with
  | [] => parent
  | l :: before =>
      let l' := if truthy (e_tail l)
                then set_tail l (Some (default [] (e_tail l) ++ content))
                else set_tail l (Some content) in
      Elem (e_tag parent) (e_attrib parent) (e_text parent) (e_tail parent)
           (reverse before ++ [l'])
  end.

Definition mixed_step (acc : Element * nat) (p : part_type * pystr)
  : Element * nat :=
  let '(parent, i) := acc in
  let '(part, content) := p in
  (match part with
   | PText =>
       if i =? 0 then set_text parent (Some content)
       else add_to_last_tail parent content
   | PItalic =>
       append parent
         (create_tei_element (u "hi") (Some content) [(u "rend", u "italic")])
   end, S i).

(** [add_mixed_content(parent, text)]. *)
Definition add_mixed_content (parent : Element) (text : pystr) : Element :=
  if negb (nonempty text) then parent
  else
    match markdown_to_tei text with
    | None | Some [] => set_text parent (Some text)
    | Some parts => fst (foldl mixed_step (parent, 0) parts)
    end.

(** [add_title(parent, title_text, level, lang, ref)] returns the parent
    with the new [title] appended. *)
Definition add_title (parent : Element) (title_text : option pystr)
    (level lang ref : option pystr) : Element :=
  let attrib :=
    (if truthy level then [(u "level", default [] level)] else [])
    ++ (if truthy lang then [(qname XML_NS (u "lang"), default [] lang)]
        else [])
    ++ (if truthy ref then [(u "ref", default [] ref)] else []) in
  append parent (create_tei_element (u "title") title_text attrib).

(** [add_person_name(parent, forename, surname)]. *)
Definition add_person_name (parent : Element)
    (forename surname : option pystr) : Element :=
  append parent
    (extend (create_tei_element (u "persName") None [])
       [ create_tei_element (u "forename") forename [];
         create_tei_element (u "surname") surname [] ]).

Definition get_wikidata_qid (location_name : pystr) : option pystr :=
  dict_get
    [ (u "Serbia", u "Q403"); (u "Albania", u "Q222");
      (u "Montenegro", u "Q236"); (u "Turkey", u "Q43");
      (u "Bosnia", u "Q225"); (u "Greece", u "Q41");
      (u "Bulgaria", u "Q219"); (u "Romania", u "Q218");
      (u "Croatia", u "Q224"); (u "Istanbul", u "Q406");
      (u "Kruševac", u "Q201442"); (u "Krušev ac", u "Q201442") ]
    location_name.

(** ** Records and template data *)

(** A dataset record: a [dict] from field name to value. *)
Abbreviation Dataset := (gmap (list N) (list N)).

(** [dataset.get(key, default)]. *)
Definition get_or (d : Dataset) (key dflt : pystr) : pystr :=
  default dflt (d !! key).

Record SeriesTitle := {
  st_text : option pystr; st_lang : pystr; st_ref : pystr }.

Record Director := {
  pdr_forename : option pystr; pdr_surname : option pystr;
  pdr_resp : option pystr }.

Record Team := {
  rth_name : option pystr; rth_ref : pystr; rth_resp : option pystr }.

Record ContextRef := {
  ref_text : option pystr; ref_target : pystr; ref_type : pystr }.

(** The dictionary [extract_template_data] builds.  Each key may be
    missing; a key bound to an element's [.text] may hold [None]. *)
Record TemplateData := {
  publisher_name : option (option pystr);
  publisher_corresp : option pystr;
  authority_name : option (option pystr);
  authority_corresp : option pystr;
  distributor_name : option (option pystr);
  distributor_ref : option pystr;
  license_text : option (option pystr);
  license_target : option pystr;
  pub_place : option (option pystr);
  funder_name : option (option pystr);
  funder_ref : option pystr;
  funder_num : option (option pystr);
  series_titles : option (list SeriesTitle);
  project_director : option Director;
  research_team : option Team;
  project_desc_paragraphs : option (list pystr);
  project_context_ref : option ContextRef
}.

(** ** Document synthesis *)

(** [str(i)] for a natural number. *)
Definition str_of_nat (n : nat) : pystr :=
  u (NilEmpty.string_of_uint (Nat.to_uint n)).

(** [for x in xs: s = body(s, x)] in the warning monad. *)
Fixpoint for_each {A S : Type} (xs : list A) (body : S → A → Warn S) (s : S)
  : Warn S :=
  match xs with
  | [] => mret s
  | x :: r => s' ← body s x; for_each r body s'
  end.

Definition new_editor : Element :=
  create_tei_element (u "editor") None [(u "ana", u "marcrelator:edt")].

(** The body of the loop over [author_names[:3]]. *)
Definition editor_of (author_name : pystr) : list Element :=
  let name_parts := words (strip author_name) in
  if 2 <=? length name_parts then
    let forename := join (u " ") (take (length name_parts - 1) name_parts) in
    let surname := default [] (last name_parts) in
    [add_person_name new_editor (Some forename) (Some surname)]
  else [].

(** The [editor] elements appended to [titleStmt]. *)
Definition editors (author_names : list pystr) : list Element :=
  match author_names with
  | _ :: _ => flat_map editor_of (take 3 author_names)
  | [] => [add_person_name new_editor (Some (u "FIRST")) (Some (u "LAST"))]
  end.

Definition title_stmt_of (dataset : Dataset) (t : TemplateData) : Element :=
  let dataset_title := get_or dataset (u "Datensatz Titel") (u "Untitled Dataset") in
  let dataset_id := get_or dataset (u "Datensatz ID") (u "000") in
  let title_stmt := create_tei_element (u "titleStmt") None [] in
  let title_stmt :=
    add_title title_stmt
      (Some (u "Nr. " ++ dataset_id ++ u ": " ++ dataset_title))
      None None None in
  let citation_text := get_or dataset (u "Zitierempfehlung") [] in
  let author_names := parse_citation_authors citation_text in
  let title_stmt := extend title_stmt (editors author_names) in
  let resp_stmt :=
    add_person_name
      (append
         (create_tei_element (u "respStmt") None [(u "ana", u "marcrelator:mrk")])
         (create_tei_element (u "resp") (Some (u "XML encoding")) []))
      (Some (u "Christian")) (Some (u "Steiner")) in
  let title_stmt := append title_stmt resp_stmt in
  let funder_name := default (Some (u "Austrian Science Fund (FWF)")) (funder_name t) in
  let funder_ref := default (u "https://www.fwf.ac.at/de/") (funder_ref t) in
  let funder_num := default (Some (u "P 38285-G")) (funder_num t) in
  let funder :=
    extend (create_tei_element (u "funder") None [(u "ana", u "marcrelator:fnd")])
      [ create_tei_element (u "orgName") funder_name [(u "ref", funder_ref)];
        create_tei_element (u "num") funder_num [] ] in
  append title_stmt funder.

(** An element holding one [orgName]. *)
Definition org_holder (tag : pystr) (attrib : list (pystr * pystr))
    (name : option pystr) (org_attrib : list (pystr * pystr)) : Element :=
  append (create_tei_element tag None attrib)
         (create_tei_element (u "orgName") name org_attrib).

Definition pub_stmt_of (dataset : Dataset) (t : TemplateData) : Element :=
  let dataset_id := get_or dataset (u "Datensatz ID") (u "000") in
  let his := [(u "ana", u "marcrelator:his")] in
  let publisher :=
    org_holder (u "publisher") []
      (default (Some (u "Institut für Geschichte, Universität Graz")) (publisher_name t))
      [(u "corresp", default (u "http://geschichte.uni-graz.at/") (publisher_corresp t))] in
  let authority1 :=
    org_holder (u "authority") his
      (default (Some (u "Digital Humanities Craft OG")) (authority_name t))
      [(u "corresp", default (u "https://dhcraft.org") (authority_corresp t))] in
  let authority2 :=
    org_holder (u "authority") his
      (Some (u "Institut für Digitale Geisteswissenschaften, Universität Graz"))
      [(u "ref", u "https://digital-humanities.uni-graz.at")] in
  let distributor :=
    org_holder (u "distributor") [(u "ana", u "marcrelator:rps")]
      (default (Some (u "GAMS - Geisteswissenschaftliches Asset Management System"))
         (distributor_name t))
      [(u "ref", default (u "https://gams.uni-graz.at") (distributor_ref t))] in
  let availability :=
    append (create_tei_element (u "availability") None [])
      (create_tei_element (u "licence")
         (default (Some (u "Creative Commons BY-NC 4.0")) (license_text t))
         [(u "target",
           default (u "https://creativecommons.org/licenses/by-nc/4.0")
             (license_target t))]) in
  let year := u "2025" in
  let pid := get_or dataset (u "PID") (u "o:histdem." ++ dataset_id) in
  extend (create_tei_element (u "publicationStmt") None [])
    [ publisher; authority1; authority2; distributor; availability;
      create_tei_element (u "date") (Some year)
        [(u "when", year); (u "ana", u "dcterms:issued")];
      create_tei_element (u "pubPlace") (default (Some (u "Graz")) (pub_place t))
        [(u "ana", u "marcrelator:pup")];
      create_tei_element (u "idno") (Some pid) [(u "type", u "PID")] ].

Definition series_stmt_of (t : TemplateData) : Element :=
  let series_stmt := create_tei_element (u "seriesStmt") None [] in
  let series_stmt :=
    foldl (λ s title_data,
             add_title s (st_text title_data) None
               (Some (st_lang title_data)) (Some (st_ref title_data)))
      series_stmt (default [] (series_titles t)) in
  let series_stmt :=
    match project_director t with
    | Some pdr =>
        append series_stmt
          (add_person_name
             (append
                (create_tei_element (u "respStmt") None [(u "ana", u "marcrelator:pdr")])
                (create_tei_element (u "resp") (pdr_resp pdr) []))
             (pdr_forename pdr) (pdr_surname pdr))
    | None => series_stmt
    end in
  match research_team t with
  | Some team =>
      append series_stmt
        (extend
           (create_tei_element (u "respStmt") None [(u "ana", u "marcrelator:rth")])
           [ create_tei_element (u "resp") (rth_resp team) [];
             create_tei_element (u "orgName") (rth_name team)
               [(u "ref", rth_ref team)] ])
  | None => series_stmt
  end.

(** [re.search(r'(\d{4})\.?\s*$', s)].  At a given start the pattern
    needs four decimal digits, then an optional dot, then only
    whitespace up to the end of the string; the search returns the
    group of the leftmost start that matches. *)
Definition year_at `{Runtime} (s : pystr) : option pystr :=
  match s with
  | a :: b :: c :: d :: r =>
      if chr_isdecimal a && chr_isdecimal b && chr_isdecimal c
         && chr_isdecimal d
      then
        let r' := match r with
                  | x :: r1 => if (x =? DOT)%N then r1 else r
                  | [] => r
                  end in
        if forallb is_space r' then Some [a; b; c; d] else None
      else None
  | _ => None
  end.

Fixpoint search_year `{Runtime} (s : pystr) : option pystr :=
  match year_at s with
  | Some y => Some y
  | None => match s with [] => None | _ :: r => search_year r end
  end.

Definition prp : list (pystr * pystr) := [(u "ana", u "marcrelator:prp")].

Definition source_bibl_of (dataset : Dataset) : Element :=
  let year_val := dataset !! u "Jahr" in
  let date_from := dataset !! u "Datum Von" in
  let date_to := dataset !! u "Datum Bis" in
  let created := (u "ana", u "dcterms:created") in
  let date_elem :=
    if truthy date_from && truthy date_to then
      let f := default [] date_from in
      let t := default [] date_to in
      create_tei_element (u "date") (Some (f ++ u "-" ++ t))
        [(u "from", f); (u "to", t); created]
    else if truthy year_val then
      create_tei_element (u "date") year_val
        [(u "when", default [] year_val); created]
    else
      create_tei_element (u "date") (Some (u "YEAR"))
        [(u "when", u "YEAR"); created] in
  let country := get_or dataset (u "Land") (u "COUNTRY") in
  let country_qid := strip (get_or dataset (u "Land Wikidata") []) in
  let country_qid :=
    if negb (nonempty country_qid)
    then str_or (get_wikidata_qid country) (u "None")
    else country_qid in
  let country_elem :=
    create_tei_element (u "country") (Some country)
      (prp ++ [(u "ref", u "wd:" ++ country_qid)]) in
  let source_bibl :=
    extend (create_tei_element (u "bibl") None []) [date_elem; country_elem] in
  let region := dataset !! u "Region" in
  if truthy region then
    let region_qid := Some (strip (get_or dataset (u "Region Wikidata") [])) in
    let region_qid :=
      if negb (truthy region_qid)
      then get_wikidata_qid (default [] region) else region_qid in
    let region_elem :=
      if truthy region_qid then
        create_tei_element (u "region") region
          (prp ++ [(u "ref", u "wd:" ++ default [] region_qid)])
      else
        create_tei_element (u "region") region
          (prp ++ [(u "ref", u "wd:QXXX")]) in
    append source_bibl region_elem
  else source_bibl.

(** The citation [bibl], present when [Zitierempfehlung] is non-empty. *)
Definition citation_bibl_of `{Runtime} (dataset : Dataset) : list Element :=
  let dataset_title := get_or dataset (u "Datensatz Titel") (u "Untitled Dataset") in
  let citation_text := get_or dataset (u "Zitierempfehlung") [] in
  let author_names := parse_citation_authors citation_text in
  let year_val := dataset !! u "Jahr" in
  if nonempty citation_text then
    let citation_bibl :=
      create_tei_element (u "bibl") None [(u "type", u "citation")] in
    let citation_bibl :=
      extend citation_bibl
        ((λ author_name, create_tei_element (u "author") (Some author_name) [])
           <$> author_names) in
    let citation_bibl :=
      add_title citation_bibl (Some dataset_title) (Some (u "a")) None None in
    let citation_bibl :=
      add_title citation_bibl (Some (u "Mosaic Historical Microdata File"))
        (Some (u "s")) None None in
    let publisher :=
      if contains (u "mosaic.ipums.org") citation_text then u "mosaic.ipums.org"
      else if contains (u "censusmosaic.org") citation_text
           then u "www.censusmosaic.org"
           else u "mosaic.ipums.org" in
    let citation_bibl :=
      append citation_bibl
        (create_tei_element (u "publisher") (Some publisher) []) in
    let date :=
      match search_year citation_text with
      | Some y => y
      | None => str_or year_val (u "2024")
      end in
    let citation_bibl :=
      append citation_bibl (create_tei_element (u "date") (Some date) []) in
    let rs_citation :=
      add_mixed_content
        (create_tei_element (u "rs") None
           [(u "type", u "citation_recommendation")])
        citation_text in
    [append citation_bibl rs_citation]
  else [].

(** The attributes of a [media] or [graphic] element. *)
Definition file_attrib (file_url mime_type media_id : pystr)
  : list (pystr * pystr) :=
  [ (u "url", file_url); (u "mimeType", mime_type);
    (qname XML_NS (u "id"), media_id) ].

(** The block for [CSV Codes] and the one for [CSV Labels], which differ
    in the field, the [rs] type and the title used when none was
    parsed. *)
Definition csv_rs `{Runtime} (dataset : Dataset) (dataset_id : pystr)
    (key rs_type fallback_title : pystr) : Warn (list Element) :=
  let value := dataset !! key in
  if truthy value then
    '(filename, title) ← parse_file_entry (default [] value) key dataset_id;
    if truthy filename then
      let filename := default [] filename in
      let rs := create_tei_element (u "rs") None [(u "type", rs_type)] in
      let rs := add_title rs (Some (str_or title fallback_title)) None None None in
      let file_url := add_folder_prefix filename dataset_id in
      let media_id := sanitize_xml_id filename in
      let media :=
        create_tei_element (u "media") None
          (file_attrib file_url (u "text/csv") media_id) in
      mret [append rs media]
    else mret []
  else mret [].

Definition data_bibl_of `{Runtime} (dataset : Dataset) : Warn Element :=
  let dataset_id := get_or dataset (u "Datensatz ID") (u "000") in
  let data_bibl := create_tei_element (u "bibl") None [(u "type", u "data")] in
  rs_codes ← csv_rs dataset dataset_id (u "CSV Codes") (u "codes")
                (u "Data with Codes");
  rs_labels ← csv_rs dataset dataset_id (u "CSV Labels") (u "labels")
                 (u "Data with Labels");
  mret (extend data_bibl (rs_codes ++ rs_labels)).

(** The [rs] element of a [Zusatzdatei] entry whose filename parsed. *)
Definition zusatz_rs `{Runtime} (dataset_id filename : pystr)
    (title : option pystr) : Element :=
  let rs_type :=
    if truthy title && contains (u "sample") (str_lower (default [] title))
    then u "sample" else u "literature" in
  let rs_elem := create_tei_element (u "rs") None [(u "type", rs_type)] in
  let rs_elem := add_title rs_elem (Some (str_or title filename)) None None None in
  let file_url := add_folder_prefix filename dataset_id in
  let mime_type :=
    if endswith filename (u ".pdf") then u "application/pdf"
    else u "application/octet-stream" in
  let media_id := sanitize_xml_id filename in
  append rs_elem
    (create_tei_element (u "media") None
       (file_attrib file_url mime_type media_id)).

(** The MIME type the [Bild] loop derives from a filename. *)
Definition bild_mime_type `{Runtime} (filename : pystr) : pystr :=
  let ext := str_lower (default [] (last (split (u ".") filename))) in
  let mime_map :=
    [ (u "jpg", u "image/jpeg"); (u "jpeg", u "image/jpeg");
      (u "png", u "image/png"); (u "pdf", u "application/pdf") ] in
  default (u "image/jpeg") (dict_get mime_map ext).

(** The [rs] element of a [Bild] entry whose filename parsed. *)
Definition bild_rs `{Runtime} (dataset_id filename : pystr)
    (title : option pystr) : Element :=
  let rs_type :=
    if truthy title
       && (contains (u "map") (str_lower (default [] title))
           || contains (u "karte") (str_lower (default [] title)))
    then u "map" else u "scan" in
  let rs_elem := create_tei_element (u "rs") None [(u "type", rs_type)] in
  let rs_elem := add_title rs_elem (Some (str_or title filename)) None None None in
  let file_url := add_folder_prefix filename dataset_id in
  let mime_type := bild_mime_type filename in
  let media_id := sanitize_xml_id filename in
  if startswith mime_type (u "image/") then
    append rs_elem
      (create_tei_element (u "graphic") None
         (file_attrib file_url mime_type media_id))
  else
    append rs_elem
      (create_tei_element (u "media") None
         (file_attrib file_url mime_type media_id)).

(** The body shared by the loops over [Zusatzdatei i] and [Bild i]; the
    state is [(has_additional, additional_bibl)]. *)
Definition file_loop_body (dataset : Dataset) (dataset_id prefix : pystr)
    (mk_rs : pystr → pystr → option pystr → Element)
    (st : bool * Element) (i : nat) : Warn (bool * Element) :=
  let key := prefix ++ u " " ++ str_of_nat i in
  let value := dataset !! key in
  if truthy value then
    '(filename, title) ← parse_file_entry (default [] value) key dataset_id;
    if truthy filename
    then mret (true, append (snd st) (mk_rs dataset_id (default [] filename) title))
    else mret st
  else mret st.

Definition literatur_body (dataset : Dataset) (st : bool * Element) (i : nat)
  : bool * Element :=
  let lit_val := dataset !! (u "Literatur " ++ str_of_nat i) in
  if truthy lit_val then
    let rs_lit := create_tei_element (u "rs") None [(u "type", u "literature")] in
    (true, append (snd st) (add_title rs_lit lit_val None None None))
  else st.

(** The additional [bibl], present when some entry was added to it. *)
Definition additional_bibl_of `{Runtime} (dataset : Dataset)
  : Warn (list Element) :=
  let dataset_id := get_or dataset (u "Datensatz ID") (u "000") in
  let additional_bibl :=
    create_tei_element (u "bibl") None [(u "type", u "additional")] in
  st ← for_each (seq 1 10)
         (file_loop_body dataset dataset_id (u "Zusatzdatei") zusatz_rs)
         (false, additional_bibl);
  st ← for_each (seq 1 5)
         (file_loop_body dataset dataset_id (u "Bild") bild_rs) st;
  let '(has_additional, additional_bibl) :=
    foldl (literatur_body dataset) st (seq 1 4) in
  mret (if has_additional then [additional_bibl] else []).

Definition source_desc_of `{Runtime} (dataset : Dataset) : Warn Element :=
  let source_desc :=
    extend (create_tei_element (u "sourceDesc") None [])
      (source_bibl_of dataset :: citation_bibl_of dataset) in
  data_bibl ← data_bibl_of dataset;
  additional ← additional_bibl_of dataset;
  mret (extend source_desc (data_bibl :: additional)).

Definition prefix_def (ident match_pattern replacement p : pystr) : Element :=
  append
    (create_tei_element (u "prefixDef") None
       [ (u "ident", ident); (u "matchPattern", match_pattern);
         (u "replacementPattern", replacement) ])
    (create_tei_element (u "p") (Some p) []).

Definition encoding_desc_of (t : TemplateData) : Element :=
  let project_desc := create_tei_element (u "projectDesc") None [] in
  let project_desc :=
    match project_context_ref t with
    | Some ref_data =>
        append project_desc
          (append (create_tei_element (u "ab") None [])
             (create_tei_element (u "ref") (ref_text ref_data)
                [ (u "target", ref_target ref_data);
                  (u "type", ref_type ref_data) ]))
    | None => project_desc
    end in
  let project_desc :=
    extend project_desc
      ((λ p_text, create_tei_element (u "p") (Some p_text) [])
         <$> default [] (project_desc_paragraphs t)) in
  let list_prefix :=
    extend (create_tei_element (u "listPrefixDef") None [])
      [ prefix_def (u "marcrelator") (u "([a-z]+)")
          (u "http://id.loc.gov/vocabulary/relators/$1")
          (u "Taxonomie Rollen MARC");
        prefix_def (u "dcterms") (u "([a-z]+)")
          (u "http://purl.org/dc/terms/$1") (u "DCterms");
        prefix_def (u "wd") (u "(Q\d+)")
          (u "https://www.wikidata.org/entity/$1") (u "Wikidata") ] in
  extend (create_tei_element (u "encodingDesc") None [])
    [project_desc; list_prefix].

Definition profile_desc_of `{Runtime} (dataset : Dataset) : Element :=
  let lang_names :=
    [ (u "sr", u "Serbian"); (u "sq", u "Albanian"); (u "en", u "English");
      (u "de", u "German"); (u "hy", u "Armenian"); (u "tr", u "Turkish") ] in
  let lang_usage :=
    extend (create_tei_element (u "langUsage") None [])
      ((λ lang_code,
          let lang_code := strip lang_code in
          let lang_name :=
            default (str_upper lang_code) (dict_get lang_names lang_code) in
          create_tei_element (u "language") (Some lang_name)
            [(u "ident", lang_code)])
         <$> split (u ",") (get_or dataset (u "Sprachcodes") (u "en"))) in
  let kw_list :=
    extend (create_tei_element (u "list") None [])
      (flat_map
         (λ keyword,
            let keyword := strip keyword in
            if nonempty keyword
            then [append (create_tei_element (u "item") None [])
                    (create_tei_element (u "term") (Some keyword) [])]
            else [])
         (split (u ",") (get_or dataset (u "Schlagwörter") []))) in
  let text_class :=
    append (create_tei_element (u "textClass") None [])
      (append (create_tei_element (u "keywords") None []) kw_list) in
  extend (create_tei_element (u "profileDesc") None [])
    [lang_usage; text_class].

Definition NL2 : pystr := [10; 10]%N.

Definition text_of (dataset : Dataset) : Element :=
  let country := get_or dataset (u "Land") (u "COUNTRY") in
  let year_val := dataset !! u "Jahr" in
  let head_text :=
    get_or dataset (u "Überschrift")
      (country ++ u " " ++ default (u "None") year_val) in
  let body :=
    append (create_tei_element (u "body") None [])
      (create_tei_element (u "head") (Some head_text) []) in
  let description := get_or dataset (u "Beschreibung") [] in
  let body :=
    if nonempty description then
      let paragraphs :=
        if contains NL2 description then split NL2 description
        else [description] in
      extend body
        (flat_map
           (λ para,
              if nonempty (strip para)
              then [create_tei_element (u "p") (Some (strip para)) []]
              else [])
           paragraphs)
    else
      append body (create_tei_element (u "p") (Some (u "Description pending.")) []) in
  let notes := get_or dataset (u "Anmerkungen") [] in
  let body :=
    append body
      (create_tei_element (u "note")
         (Some (if nonempty notes then notes else u "No additional notes.")) []) in
  append (create_tei_element (u "text") None []) body.

(** [create_tei_document(dataset, template_data)].  The Python function
    attaches each element to its parent first and fills it afterwards;
    the children of every element are listed here in the order in which
    they are appended. *)
Definition create_tei_document `{Runtime} (dataset : Dataset)
    (template_data : TemplateData) : Warn Element :=
  let root := create_tei_element (u "TEI") None [] in
  let header :=
    create_tei_element (u "teiHeader") None [(qname XML_NS (u "lang"), u "en")] in
  let file_desc := create_tei_element (u "fileDesc") None [] in
  source_desc ← source_desc_of dataset;
  let file_desc :=
    extend file_desc
      [ title_stmt_of dataset template_data;
        pub_stmt_of dataset template_data;
        series_stmt_of template_data;
        source_desc ] in
  let header :=
    extend header
      [ file_desc; encoding_desc_of template_data; profile_desc_of dataset ] in
  mret (extend root [header; text_of dataset]).

(** ** The table loader of the converter *)

(** The inner loop of [parse_csv_column]: the cells of one row stored
    under [field_name], one dataset per column from column 2 on. *)
Definition store_row (field_name : pystr) (row : list pystr)
    (num_datasets : nat) (datasets : list Dataset) : list Dataset :=
  foldl
    (λ datasets i,
       let col_idx := i + 2 in
       match row !! col_idx with
       | Some cell =>
           let value := strip cell in
           if nonempty value
           then alter (insert field_name value) i datasets
           else datasets
       | None => datasets
       end)
    datasets (seq 0 num_datasets).

(** The body of the loop over [rows[4:]]. *)
Definition load_row (num_datasets : nat) (datasets : list Dataset)
    (row : list pystr) : list Dataset :=
  match row with
  | name :: _ :: _ =>
      if negb (nonempty (strip name)) then datasets
      else store_row (strip name) row num_datasets datasets
  | _ => datasets
  end.

(** [parse_csv_column], from the rows that [csv.reader] returns.
    [rows[1]] raises [IndexError] on a table with fewer than two rows. *)
Definition parse_csv_column (rows : list (list pystr))
  : result (list Dataset) :=
  match rows !! 1 with
  | None => Raise IndexError
  | Some header =>
      let dataset_headers := drop 2 header in
      let num_datasets :=
        length (filter (λ h, nonempty (strip h) = true) dataset_headers) in
      let datasets := replicate num_datasets (∅ : Dataset) in
      Ok (foldl (load_row num_datasets) datasets (drop 4 rows))
  end.

(** ** The main loop of the converter *)

(** What a run has done so far: the warnings collected and the files
    written, as (name, content) in the order of writing. *)
Record Run := {
  run_warnings : list pystr;
  run_written : list (pystr * pystr)
}.

Definition DQ : pystr := [34%N].
Definition NL : pystr := [10%N].

Section ConverterMain.
Context `{Runtime}.

(** The external collaborators: the renderer behind [prettify_xml]
    and the file system behind [open(...).write(...)].  Either may
    raise. *)
Variable prettify_xml : Element → result pystr.
Variable write_file : pystr → pystr → pystr → result unit.

Definition xml_prolog : pystr :=
  u "<?xml version=" ++ DQ ++ u "1.0" ++ DQ ++ u " encoding=" ++ DQ
  ++ u "UTF-8" ++ DQ ++ u "?>" ++ NL
  ++ u "<?xml-model href=" ++ DQ ++ u "histdem.rng" ++ DQ ++ u " type=" ++ DQ
  ++ u "application/xml" ++ DQ ++ u " schematypens=" ++ DQ
  ++ u "http://relaxng.org/ns/structure/1.0" ++ DQ ++ u "?>" ++ NL.

(** One round of the loop of [main] over [enumerate(datasets)].  The
    loop has no [try]: an exception of a step leaves the round, the
    loop and [main]. *)
Definition process_dataset (template_data : TemplateData)
    (output_dir : pystr) (i : nat) (dataset : Dataset) (st : Run)
  : Run * option exn :=
  let dataset_id := get_or dataset (u "Datensatz ID") (str_of_nat (i + 1)) in
  let '(tei_root, warnings) :=
    create_tei_document dataset template_data (run_warnings st) in
  let st := {| run_warnings := warnings; run_written := run_written st |} in
  match prettify_xml tei_root with
  | Raise e => (st, Some e)
  | Ok pretty =>
      match split_max 1 (u "?>" ++ NL) pretty !! 1 with
      | None => (st, Some IndexError)
      | Some body =>
          let xml_content := xml_prolog ++ body in
          let output_file := dataset_id ++ u "_tei.xml" in
          match write_file output_dir output_file xml_content with
          | Raise e => (st, Some e)
          | Ok _ =>
              ({| run_warnings := warnings;
                  run_written :=
                    run_written st ++ [(output_file, xml_content)] |},
               None)
          end
      end
  end.

Fixpoint main_loop (template_data : TemplateData) (output_dir : pystr)
    (i : nat) (datasets : list Dataset) (st : Run) : Run * option exn :=
  match datasets with
  | [] => (st, None)
  | dataset :: rest =>
      match process_dataset template_data output_dir i dataset st with
      | (st', None) => main_loop template_data output_dir (S i) rest st'
      | (st', Some e) => (st', Some e)
      end
  end.

(** [main] from the rows of the table on: the warnings are reset, the
    table is loaded, the loop runs. *)
Definition convert_main (template_data : TemplateData)
    (output_dir : pystr) (rows : list (list pystr)) : Run * option exn :=
  let st := {| run_warnings := []; run_written := [] |} in
  match parse_csv_column rows with
  | Raise e => (st, Some e)
  | Ok datasets => main_loop template_data output_dir 0 datasets st
  end.

End ConverterMain.

(** ** The auditor *)

Module Audit.

(** [dataset.get(key, '')]. *)
Definition field (dataset : Dataset) (key : pystr) : pystr :=
  get_or dataset key [].

(** The local variable [filename] and the list [issues] at the end of
    [validate_file_entry]; no filename when the function returns at
    its first test. *)
Definition validate_file_entry_locals (entry : pystr)
  : option pystr * list pystr :=
  if negb (nonempty entry) || str_eqb (strip entry) [] then (None, [])
  else
    let entry := strip entry in
    let '(filename, issues) :=
      if contains SEP entry then
        let parts := split_max 1 SEP entry in
        let filename := strip (parts !!! 0) in
        let title := strip (parts !!! 1) in
        (filename,
         (if negb (nonempty filename)
          then [u "Leerer Dateiname vor ' - '"] else [])
         ++ (if negb (nonempty title)
             then [u "Leerer Titel nach ' - '"] else []))
      else
        (entry,
         [u "Fehlender Titel (Format sollte sein: 'dateiname - Titel')"]) in
    let issues :=
      issues
      ++ (if negb (contains (u ".") filename)
          then [u "Dateiname ohne Erweiterung: '" ++ filename ++ u "'"]
          else [])
      ++ (if endswith filename (u " ")
          then [u "Dateiname hat nachfolgendes Leerzeichen"] else [])
      ++ (if startswith filename (u " ")
          then [u "Dateiname hat führendes Leerzeichen"] else []) in
    (Some filename, issues).

(** [validate_file_entry(entry, field_name)]. *)
Definition validate_file_entry (entry field_name : pystr)
  : bool * list pystr :=
  let issues := snd (validate_file_entry_locals entry) in
  (length issues =? 0, issues).

(** [e.split(' - ')[0].strip() if ' - ' in e else e.strip()]. *)
Definition entry_file (e : pystr) : pystr :=
  if contains SEP e then strip (split SEP e !!! 0) else strip e.

Definition validate_csv_labels_match_codes (codes_entry labels_entry : pystr)
  : bool * list pystr :=
  if negb (nonempty codes_entry) || negb (nonempty labels_entry)
  then (true, [])
  else
    let codes_file := entry_file codes_entry in
    let labels_file := entry_file labels_entry in
    let codes_base := replace (u "_codes.csv") [] codes_file in
    let labels_base :=
      replace (u "_codes.csv") [] (replace (u "_labels.csv") [] labels_file) in
    let issues :=
      (if negb (endswith codes_file (u "_codes.csv"))
       then [u "Codes-Dateiname endet nicht mit '_codes.csv': '"
             ++ codes_file ++ u "'"] else [])
      ++ (if negb (endswith labels_file (u "_labels.csv"))
          then [u "Labels-Dateiname endet nicht mit '_labels.csv': '"
                ++ labels_file ++ u "'"] else [])
      ++ (if negb (str_eqb codes_base labels_base)
          then [u "Basis-Dateinamen stimmen nicht überein: codes='"
                ++ codes_base ++ u "' vs labels='" ++ labels_base ++ u "'"]
          else []) in
    (length issues =? 0, issues).

Definition validate_date_range `{Runtime} (year date_from date_to : pystr)
  : bool * list pystr :=
  let issues :=
    (if nonempty date_from && negb (nonempty date_to)
     then [u "Datumsbereich unvollständig: hat 'Datum Von' (" ++ date_from
           ++ u ") aber 'Datum Bis' fehlt"] else [])
    ++ (if nonempty date_to && negb (nonempty date_from)
        then [u "Datumsbereich unvollständig: hat 'Datum Bis' (" ++ date_to
              ++ u ") aber 'Datum Von' fehlt"] else []) in
  let issues :=
    if nonempty date_from && nonempty date_to && nonempty year then
      match py_int year, py_int date_from, py_int date_to with
      | Some year_int, Some from_int, Some to_int =>
          if negb ((from_int <=? year_int)%Z && (year_int <=? to_int)%Z)
          then issues ++ [u "Jahr " ++ year ++ u " liegt nicht im Datumsbereich "
                          ++ date_from ++ u "-" ++ date_to]
          else issues
      | _, _, _ => issues
      end
    else issues in
  (length issues =? 0, issues).

Definition required_fields : list pystr :=
  [ u "Datensatz ID"; u "Datensatz Titel"; u "Land"; u "PID";
    u "Anzahl Personen"; u "Anzahl Haushalte"; u "Zitierempfehlung";
    u "Schlagwörter"; u "Sprachcodes"; u "Überschrift"; u "Beschreibung" ].

Definition validate_required_fields (dataset : Dataset)
  : bool * list pystr :=
  let issues :=
    flat_map
      (λ f, if negb (nonempty (strip (field dataset f)))
            then [u "Pflichtfeld '" ++ f ++ u "' ist leer"] else [])
      required_fields in
  (length issues =? 0, issues).

(** What the auditor sees of the disk: whether a dataset folder
    exists under the base path, whether a file exists in it, and the
    text of the joined path. *)
Record FileSystem := {
  folder_exists : pystr → bool;
  file_exists : pystr → pystr → bool;
  path_text : pystr → pystr → pystr
}.

(** [check_file_exists(filename, dataset_id)] with the default base
    path. *)
Definition check_file_exists (fs : FileSystem) (filename dataset_id : pystr)
  : bool * pystr :=
  if negb (nonempty filename) then (true, [])
  else
    match dict_get DATASET_FOLDERS dataset_id with
    | Some folder =>
        if negb (nonempty folder)
        then (false, u "Kein Ordner-Mapping für Dataset " ++ dataset_id
                     ++ u " gefunden")
        else if negb (folder_exists fs folder)
        then (false, u "Ordner '" ++ folder ++ u "' existiert nicht")
        else if negb (file_exists fs folder filename)
        then (false, u "Datei nicht gefunden: " ++ folder ++ u "/" ++ filename)
        else (true, path_text fs folder filename)
    | None =>
        (false, u "Kein Ordner-Mapping für Dataset " ++ dataset_id
                ++ u " gefunden")
    end.

(** One of the four blocks of [validate_files_exist]: the check of
    the file named by field [key], reported under [key]. *)
Definition file_issue (fs : FileSystem) (dataset : Dataset)
    (dataset_id key : pystr) : list pystr :=
  let value := field dataset key in
  if nonempty value then
    let filename := entry_file value in
    if nonempty filename then
      let '(exists_, msg) := check_file_exists fs filename dataset_id in
      if negb exists_ then [key ++ u ": " ++ msg] else []
    else []
  else [].

Definition numbered (prefix : pystr) (first count : nat) : list pystr :=
  (λ i, prefix ++ u " " ++ str_of_nat i) <$> seq first count.

Definition validate_files_exist (fs : FileSystem) (dataset : Dataset)
    (dataset_id : pystr) : bool * list pystr :=
  let issues :=
    flat_map (file_issue fs dataset dataset_id)
      ([u "CSV Codes"; u "CSV Labels"] ++ numbered (u "Zusatzdatei") 1 10
       ++ numbered (u "Bild") 1 5) in
  (length issues =? 0, issues).

(** [re.match(r'^o:histdem\.\d+$', pid)]: the prefix, one or more
    decimal digits, then the end of the string or a single final
    newline. *)
Fixpoint skip_decimal `{Runtime} (s : pystr) : pystr :=
  match s with
  | c :: r => if chr_isdecimal c then skip_decimal r else s
  | [] => []
  end.

Definition pid_format_ok `{Runtime} (pid : pystr) : bool :=
  let p := u "o:histdem." in
  startswith pid p
  && match drop (length p) pid with
     | c :: r =>
         chr_isdecimal c
         && (str_eqb (skip_decimal r) [] || str_eqb (skip_decimal r) NL)
     | [] => false
     end.

(** The issues of a file-bearing field as [main] lists them: those of
    [validate_file_entry], each behind the field name. *)
Definition entry_issues (dataset : Dataset) (key : pystr) (guarded : bool)
  : list pystr :=
  let value := field dataset key in
  if guarded && negb (nonempty value) then []
  else
    let '(valid, issues) := validate_file_entry value key in
    if negb valid then (λ issue, key ++ u ": " ++ issue) <$> issues else [].

(** [dataset_issues] at the end of one round of the loop of [main]. *)
Definition dataset_issues `{Runtime} (fs : FileSystem) (dataset : Dataset)
  : list pystr :=
  let dataset_id := get_or dataset (u "Datensatz ID") (u "Unknown") in
  let keep (r : bool * list pystr) := if negb (fst r) then snd r else [] in
  let csv_codes := field dataset (u "CSV Codes") in
  let csv_labels := field dataset (u "CSV Labels") in
  let pid := field dataset (u "PID") in
  let lang_codes := field dataset (u "Sprachcodes") in
  keep (validate_required_fields dataset)
  ++ entry_issues dataset (u "CSV Codes") false
  ++ entry_issues dataset (u "CSV Labels") false
  ++ (if nonempty csv_codes && nonempty csv_labels
      then keep (validate_csv_labels_match_codes csv_codes csv_labels)
      else [])
  ++ keep (validate_date_range (field dataset (u "Jahr"))
             (field dataset (u "Datum Von")) (field dataset (u "Datum Bis")))
  ++ flat_map (λ key, entry_issues dataset key true)
       (numbered (u "Zusatzdatei") 1 10)
  ++ flat_map (λ key, entry_issues dataset key true)
       (numbered (u "Bild") 1 5)
  ++ (if nonempty pid && negb (pid_format_ok pid)
      then [u "PID-Format inkorrekt: '" ++ pid
            ++ u "' (erwartet: o:histdem.NNN)"] else [])
  ++ (if nonempty pid && nonempty dataset_id
      then
        let expected_pid := u "o:histdem." ++ dataset_id in
        if negb (str_eqb pid expected_pid)
        then [u "PID '" ++ pid ++ u "' stimmt nicht mit Datensatz ID '"
              ++ dataset_id ++ u "' überein (erwartet: " ++ expected_pid
              ++ u ")"]
        else []
      else [])
  ++ (if nonempty lang_codes
      then flat_map
             (λ code,
                if negb (length code =? 2) || negb (str_islower code)
                then [u "Sprachcode '" ++ code
                      ++ u "' scheint nicht im ISO 639-1 Format zu sein"]
                else [])
             (strip <$> split (u ",") lang_codes)
      else [])
  ++ keep (validate_files_exist fs dataset dataset_id).

(** The two counters of [main]. *)
Record Counters := { total_issues : nat; datasets_with_issues : nat }.

Definition count_step `{Runtime} (fs : FileSystem) (c : Counters)
    (dataset : Dataset) : Counters :=
  match dataset_issues fs dataset with
  | [] => c
  | issues =>
      {| total_issues := total_issues c + length issues;
         datasets_with_issues := datasets_with_issues c + 1 |}
  end.

Definition audit `{Runtime} (fs : FileSystem) (datasets : list Dataset)
  : Counters :=
  foldl (count_step fs) {| total_issues := 0; datasets_with_issues := 0 |}
    datasets.

(** The value [main] returns, which [sys.exit] makes the exit status
    of the process. *)
Definition main `{Runtime} (fs : FileSystem) (datasets : list Dataset) : Z :=
  if total_issues (audit fs datasets) =? 0 then 0%Z else 1%Z.

End Audit.

(** ** The tables on ASCII

    The interface implemented for strings whose letters and digits are
    ASCII, to run the definitions on concrete input. *)

Module Ascii7.

Definition is_upper (c : char) : bool := ((65 <=? c) && (c <=? 90))%N.
Definition is_lower (c : char) : bool := ((97 <=? c) && (c <=? 122))%N.

Definition lower (s : pystr) : pystr :=
  (λ c, if is_upper c then (c + 32)%N else c) <$> s.

Definition upper (s : pystr) : pystr :=
  (λ c, if is_lower c then (c - 32)%N else c) <$> s.

Definition islower (s : pystr) : bool :=
  existsb is_lower s && negb (existsb is_upper s).

(** The digits of an integer literal, with single underscores allowed
    between digits. *)
Fixpoint int_body (s : pystr) (acc : Z) (after_digit : bool) : option Z :=
  match s with
  | [] => if after_digit then Some acc else None
  | c :: r =>
      if is_ascii_digit c
      then int_body r (acc * 10 + (Z.of_N c - 48))%Z true
      else if (c =? 95)%N && after_digit then int_body r acc false
      else None
  end.

Definition int (s : pystr) : option Z :=
  match strip s with
  | 45%N :: r => Z.opp <$> int_body r 0%Z false
  | 43%N :: r => int_body r 0%Z false
  | r => int_body r 0%Z false
  end.

End Ascii7.

(** Boolean tests on code points turned into arithmetic facts. *)
Ltac bool_facts :=
  repeat first
    [ rewrite andb_true_iff in * | rewrite orb_true_iff in *
    | rewrite andb_false_iff in * | rewrite orb_false_iff in *
    | rewrite negb_true_iff in * | rewrite negb_false_iff in *
    | rewrite N.leb_le in * | rewrite N.leb_gt in *
    | rewrite N.eqb_eq in * | rewrite N.eqb_neq in * ].

#[global] Instance ascii_runtime : Runtime.
Proof.
  refine {| py_int := Ascii7.int;
            str_lower := Ascii7.lower;
            str_upper := Ascii7.upper;
            str_islower := Ascii7.islower;
            chr_isdigit := is_ascii_digit;
            chr_isdecimal := is_ascii_digit |}.
  intros ds Hne _ Hd.
  assert (Hsp : ∀ c, is_ascii_digit c = true → is_space c = false).
  { intros c Hc. apply not_true_is_false. intros Hs.
    unfold is_ascii_digit, is_space in *. bool_facts. lia. }
  assert (Hl : ∀ s : list N, forallb is_ascii_digit s = true → lstrip s = s).
  { intros [|c s] Hs; [reflexivity|]. simpl in *.
    apply andb_prop in Hs as [Hc _]. by rewrite (Hsp c Hc). }
  assert (Hstrip : strip ds = ds).
  { unfold strip, rstrip. rewrite (Hl ds Hd), Hl.
    - apply reverse_involutive.
    - rewrite forallb_forall in Hd. apply forallb_forall.
      intros x Hx. apply Hd. apply list_elem_of_In.
      apply list_elem_of_In in Hx. by apply elem_of_reverse. }
  assert (Hbody : ∀ (s : list N) acc b,
             forallb is_ascii_digit s = true → s ≠ [] ∨ b = true →
             Ascii7.int_body s acc b
             = Some (foldl (λ a c, a * 10 + (Z.of_N c - 48))%Z acc s)).
  { induction s as [|c s IH]; intros acc b Hs Hb; simpl in *.
    - destruct Hb as [? | ->]; [done|reflexivity].
    - apply andb_prop in Hs as [Hc Hs]. rewrite Hc.
      apply IH; [done|by right]. }
  unfold Ascii7.int. rewrite Hstrip.
  destruct ds as [|c ds]; [done|].
  assert (Hc : is_ascii_digit c = true)
    by (simpl in Hd; by apply andb_prop in Hd as [? _]).
  assert (c ≠ 45%N ∧ c ≠ 43%N) as [H45 H43].
  { unfold is_ascii_digit in Hc. bool_facts. lia. }
  unfold digits_value.
  rewrite <- (Hbody (c :: ds) 0%Z false Hd (or_introl Hne)).
  destruct c as [|p]; [done|].
  repeat (destruct p as [p|p|]; try done).
Defined.

(** ** Notions used to state the properties *)

(** The number of records for which the auditor finds an issue. *)
Definition records_with_issues `{Runtime} (fs : Audit.FileSystem)
    (datasets : list Dataset) : nat :=
  length (filter (λ d, Audit.dataset_issues fs d ≠ []) datasets).

(** A disk without any dataset folder. *)
Definition empty_disk : Audit.FileSystem :=
  {| Audit.folder_exists := λ _, false;
     Audit.file_exists := λ _ _, false;
     Audit.path_text := λ folder filename, folder ++ u "/" ++ filename |}.

(** The binding of field [k] to [v] in dataset [i] comes from a cell of
    one of [rows]: a row of at least two cells whose stripped first cell
    is [k] and whose cell in column [i + 2] exists and strips to [v]. *)
Definition cell_source (rows : list (list pystr)) (i : nat) (k v : pystr)
  : Prop :=
  ∃ row name cell,
    row ∈ rows ∧ 2 ≤ length row ∧ row !! 0 = Some name ∧ strip name = k
    ∧ row !! (i + 2) = Some cell ∧ strip cell = v.

(** Every binding of every dataset holds a non-empty stripped value
    under a non-empty name and has a source cell in [rows]. *)
Definition well_loaded (rows : list (list pystr)) (datasets : list Dataset)
  : Prop :=
  ∀ i (d : Dataset) k v,
    datasets !! i = Some d → d !! k = Some v →
    v ≠ [] ∧ strip v = v ∧ k ≠ [] ∧ cell_source rows i k v.







Definition editor_elem (name : pystr * pystr) : Element :=
  add_person_name new_editor (Some (fst name)) (Some (snd name)).

Definition is_editor (e : Element) : Prop :=
  e_tag e = qname TEI_NS (u "editor").

#[global] Instance is_editor_dec e : Decision (is_editor e).
Proof. unfold is_editor. apply _. Defined.

(** The positions of the two delimiters of each match. *)
Definition match_delimiters (matches : list (nat * nat)) : list nat :=
  flat_map (λ m, [fst m; snd m - 1]) matches.

Definition delimiters (text : pystr) : list nat :=
  match_delimiters (finditer_italic text).

(** [s] without the characters whose position is in [ps]; the head of
    [s] has position [i]. *)
Fixpoint omit (ps : list nat) (i : nat) (s : pystr) : pystr :=
  match s with
  | [] => []
  | c :: r =>
      if bool_decide (i ∈ ps) then omit ps (S i) r else c :: omit ps (S i) r
  end.

(** The contents of the parts, concatenated in order. *)
Definition contents (parts : list (part_type * pystr)) : pystr :=
  concat (snd <$> parts).

(** Where the last match ends; 0 without a match. *)
Definition last_match_end (text : pystr) : nat :=
  from_option snd 0 (last (finditer_italic text)).

(** A computation in the warning monad whose result does not depend on
    the warnings collected before it and which only appends to them. *)
Definition appends {A : Type} (m : Warn A) : Prop :=
  ∃ a out, ∀ w, m w = (a, w ++ out).

(** Two stand-ins for the external collaborators, to run the loop on
    concrete input: a renderer that returns the same small document for
    every tree, and a file system in which the output directory has no
    subdirectory, so that a file name with a slash cannot be opened. *)
Definition constant_renderer (root : Element) : result pystr :=
  Ok (u "<?xml version='1.0' encoding='utf-8'?>" ++ NL ++ u "<TEI/>" ++ NL).

Definition flat_directory (output_dir name content : pystr) : result unit :=
  if contains (u "/") name
  then Raise (ExternalError (u "FileNotFoundError: " ++ name))
  else Ok tt.

Definition no_template : TemplateData :=
  {| publisher_name := None; publisher_corresp := None;
     authority_name := None; authority_corresp := None;
     distributor_name := None; distributor_ref := None;
     license_text := None; license_target := None; pub_place := None;
     funder_name := None; funder_ref := None; funder_num := None;
     series_titles := None; project_director := None;
     research_team := None; project_desc_paragraphs := None;
     project_context_ref := None |}.

Definition fresh_run : Run := {| run_warnings := []; run_written := [] |}.

(** The value that [row] gives to field [k] of dataset [i]: the
    stripped cell of column [i + 2], when the row has two cells or more,
    its stripped first cell is the non-empty name [k], and the cell
    exists and is not blank. *)
Definition cell_value (i : nat) (k : pystr) (row : list pystr)
  : option pystr :=
  match row with
  | name :: _ :: _ =>
      if nonempty (strip name) && str_eqb (strip name) k
      then match row !! (i + 2) with
           | Some cell =>
               if nonempty (strip cell) then Some (strip cell) else None
           | None => None
           end
      else None
  | _ => None
  end.

(** The number of headers of [rows[1][2:]] that are not blank. *)
Definition named_columns (header : list pystr) : nat :=
  length (filter (λ h, nonempty (strip h) = true) (drop 2 header)).

(** The name of the file of the dataset at position [i]: its
    [Datensatz ID], the position counted from one when it has none. *)
Definition output_name (i : nat) (dataset : Dataset) : pystr :=
  get_or dataset (u "Datensatz ID") (str_of_nat (i + 1)) ++ u "_tei.xml".

(** The tree and the warnings of a dataset, built on its own. *)
Definition document_of `{Runtime} (template_data : TemplateData)
    (dataset : Dataset) : Element :=
  fst (create_tei_document dataset template_data []).

Definition warnings_of `{Runtime} (template_data : TemplateData)
    (dataset : Dataset) : list pystr :=
  snd (create_tei_document dataset template_data []).

(** What is left of the rendering of a tree behind its XML
    declaration, when the renderer returns and the declaration is
    there. *)
Definition rendered_body (prettify_xml : Element → result pystr)
    (root : Element) : option pystr :=
  match prettify_xml root with
  | Ok pretty => split_max 1 (u "?>" ++ NL) pretty !! 1
  | Raise _ => None
  end.
(** The file written in round [i]: its name and its content. *)
Definition file_of `{Runtime} (prettify_xml : Element → result pystr)
    (template_data : TemplateData) (i : nat) (dataset : Dataset)
  : pystr * pystr :=
  (output_name i dataset,
   xml_prolog
   ++ default [] (rendered_body prettify_xml
                    (document_of template_data dataset))).

(** The text of an element as a reader sees it, [''.join(e.itertext())]:
    its own text, then for each child the child's text and the tail
    behind the child. *)
Fixpoint itertext (e : Element) : pystr :=
  match e with
  | Elem _ _ text _ children =>
      default [] text
      ++ concat (map (λ c, itertext c ++ default [] (e_tail c)) children)
  end.

(** An emphasis node as [add_mixed_content] builds it. *)
Definition is_hi (e : Element) : Prop :=
  e_tag e = qname TEI_NS (u "hi")
  ∧ e_attrib e = [(u "rend", u "italic")]
  ∧ e_children e = [].

(** No plain part follows a plain part: every plain part is the first
    part ([prev] says whether one may come first) or follows an
    emphasis. *)
Fixpoint text_after_italic (prev : bool) (parts : list (part_type * pystr))
  : bool :=
  match parts with
  | [] => true
  | (PText, _) :: r => prev && text_after_italic false r
  | (PItalic, _) :: r => text_after_italic true r
  end.

(** Whether the last part is an emphasis; [prev] without a part. *)
Fixpoint ends_italic (prev : bool) (parts : list (part_type * pystr))
  : bool :=
  match parts with
  | [] => prev
  | (PText, _) :: r => ends_italic false r
  | (PItalic, _) :: r => ends_italic true r
  end.

Definition count_italic (parts : list (part_type * pystr)) : nat :=
  length (filter (λ p, fst p = PItalic) parts).

(** The fields [prefix 1] .. [prefix n] of a record. *)
Definition numbered_keys (prefix : pystr) (n : nat) : list pystr :=
  (λ i, prefix ++ u " " ++ str_of_nat i) <$> seq 1 n.

(** A field that is there and not blank; one that is there and not
    empty. *)
Definition filled (dataset : Dataset) (key : pystr) : bool :=
  nonempty (strip (default [] (dataset !! key))).

Definition present (dataset : Dataset) (key : pystr) : bool :=
  truthy (dataset !! key).

(** The number of entries the record has for the additional [bibl]. *)
Definition additional_entries (dataset : Dataset) : nat :=
  length (filter (λ k, filled dataset k = true)
            (numbered_keys (u "Zusatzdatei") 10 ++ numbered_keys (u "Bild") 5))
  + length (filter (λ k, present dataset k = true)
              (numbered_keys (u "Literatur") 4)).

(** An [rs] node whose first child is a [title] with a text. *)
Definition titled_rs (e : Element) : Prop :=
  e_tag e = qname TEI_NS (u "rs")
  ∧ ∃ t rest,
      e_children e = t :: rest
      ∧ e_tag t = qname TEI_NS (u "title") ∧ truthy (e_text t) = true.

(** The state of the loops over the file fields, [n] entries later. *)
Definition grown (st st' : bool * Element) (n : nat) : Prop :=
  e_tag (snd st') = e_tag (snd st)
  ∧ e_attrib (snd st') = e_attrib (snd st)
  ∧ fst st' = fst st || (0 <? n)
  ∧ ∃ new,
      e_children (snd st') = e_children (snd st) ++ new
      ∧ length new = n ∧ Forall titled_rs new.

(** A computation in the warning monad that appends exactly [out],
    whatever was collected before, and whose result does not depend on
    it. *)
Definition emits {A : Type} (m : Warn A) (out : list pystr) : Prop :=
  ∃ a, ∀ w, m w = (a, w ++ out).

(** The fields that name a file, in the order in which
    [create_tei_document] reads them. *)
Definition file_fields : list pystr :=
  [u "CSV Codes"; u "CSV Labels"] ++ numbered_keys (u "Zusatzdatei") 10
  ++ numbered_keys (u "Bild") 5.

(** The warning for a field: the one for a missing title when the
    field is filled and has no separator, none otherwise. *)
Definition entry_warning (dataset : Dataset) (dataset_id key : pystr)
  : list pystr :=
  let entry := strip (default [] (dataset !! key)) in
  if nonempty entry && negb (contains SEP entry)
  then [msg_missing_title dataset_id key entry] else [].
(** A record for which the auditor has nothing to list, and a disk
    that holds every file. *)
Definition clean_record : Dataset :=
  list_to_map
    [ (u "Datensatz ID", u "147"); (u "Datensatz Titel", u "Serbia 1863");
      (u "Land", u "Serbia"); (u "PID", u "o:histdem.147");
      (u "Anzahl Personen", u "100"); (u "Anzahl Haushalte", u "20");
      (u "Zitierempfehlung", u "Kaser, K. (1995)");
      (u "Schlagwörter", u "census"); (u "Sprachcodes", u "sr");
      (u "Überschrift", u "Serbia 1863");
      (u "Beschreibung", u "A census.");
      (u "Bild 1", u "karte.png - Karte") ].

Definition full_disk : Audit.FileSystem :=
  {| Audit.folder_exists := λ _, true;
     Audit.file_exists := λ _ _, true;
     Audit.path_text := λ folder filename, folder ++ u "/" ++ filename |}.

(** A paragraph of the body: a [p] node whose text is not empty and
    stripped. *)
Definition is_paragraph (e : Element) : Prop :=
  e_tag e = qname TEI_NS (u "p")
  ∧ ∃ t, e_text e = Some t ∧ t ≠ [] ∧ strip t = t.

(** The extensions that [sanitize_xml_id] removes. *)
Definition known_extensions : list pystr :=
  [u ".csv"; u ".pdf"; u ".jpg"; u ".JPG"; u ".jpeg"; u ".png"].

(** How often the character [c] occurs in [s]. *)
Definition occurrences (c : char) (s : pystr) : nat :=
  length (filter (λ x, x = c) s).

(** A [language] node: its [ident] is a stripped code. *)
Definition is_language (e : Element) : Prop :=
  e_tag e = qname TEI_NS (u "language")
  ∧ ∃ code, e_attrib e = [(u "ident", code)] ∧ strip code = code.

(** An [item] of the keyword list: one [term] with a text that is not
    empty and stripped. *)
Definition is_keyword_item (e : Element) : Prop :=
  e_tag e = qname TEI_NS (u "item")
  ∧ ∃ keyword,
      e_children e = [create_tei_element (u "term") (Some keyword) []]
      ∧ keyword ≠ [] ∧ strip keyword = keyword.

(** ** The table reader of the auditor

    [main] of the auditor reads the table with [csv.DictReader].  A
    row of the reader is a dictionary: the cells under the names of the
    first row of the file, [None] under the names for which the row has
    no cell, and the cells a row has beyond the names as a list under
    the key [None], which is then the last key. *)

Record RowDict := {
  named : list (pystr * option pystr);
  rest : option (list pystr)
}.

(** [d[key] = value] on the named part: the value of a key that is
    there is replaced at its place, a new key goes to the end. *)
Fixpoint dict_set (d : list (pystr * option pystr)) (key : pystr)
    (value : option pystr) : list (pystr * option pystr) :=
  match d with
  | [] => [(key, value)]
  | (k, v) :: r =>
      if str_eqb k key then (k, value) :: r else (k, v) :: dict_set r key value
  end.

(** [row.get(key, '')] for a name: the default when the key is
    missing; [None] when the row has no cell for it. *)
Fixpoint row_get (d : list (pystr * option pystr)) (key : pystr)
  : option pystr :=
  match d with
  | [] => Some []
  | (k, v) :: r => if str_eqb k key then v else row_get r key
  end.

(** The dictionary [DictReader.__next__] makes of a row. *)
Definition dict_row (fieldnames row : list pystr) : RowDict :=
  let d :=
    foldl (λ d kv, dict_set d (fst kv) (Some (snd kv))) []
      (zip fieldnames row) in
  let lf := length fieldnames in
  let lr := length row in
  if lf <? lr then {| named := d; rest := Some (drop lf row) |}
  else if lr <? lf then
    {| named := foldl (λ d key, dict_set d key None) d (drop lr fieldnames);
       rest := None |}
  else {| named := d; rest := None |}.

(** [list(csv.DictReader(f))] from the rows of [csv.reader]: the first
    row gives the names; the empty rows behind it are skipped. *)
Definition dict_reader (table : list (list pystr)) : list RowDict :=
  match table with
  | [] => []
  | fieldnames :: data =>
      dict_row fieldnames <$> filter (λ row, row ≠ []) data
  end.

(** The two exceptions of the reading: [rows[0]] on a table without
    data row, and a method called on [None]. *)
Inductive load_exn := RowsIndexError | NoneAttributeError.

Inductive outcome (A : Type) := Done (a : A) | Failed (e : load_exn).
Arguments Done {A} a.
Arguments Failed {A} e.

(** [[col for col in rows[0].keys() if col.startswith('Datensatz ')]]:
    the key [None] of a row with cells beyond the names has no
    [startswith]. *)
Definition dataset_columns (first : RowDict) : outcome (list pystr) :=
  match rest first with
  | Some _ => Failed NoneAttributeError
  | None =>
      Done (filter (λ col, startswith col (u "Datensatz ") = true)
              (fst <$> named first))
  end.

(** One round of the loop over the rows, for the column [col]. *)
Definition store_field (col : pystr) (dataset_data : Dataset)
    (row : RowDict) : outcome Dataset :=
  match row_get (named row) (u "FELDNAME") with
  | Some field_name =>
      if nonempty field_name then
        match row_get (named row) col with
        | Some cell => Done (<[field_name := strip cell]> dataset_data)
        | None => Failed NoneAttributeError
        end
      else Done dataset_data
  | None => Done dataset_data
  end.

Fixpoint read_column (col : pystr) (rows : list RowDict)
    (dataset_data : Dataset) : outcome Dataset :=
  match rows with
  | [] => Done dataset_data
  | row :: r =>
      match store_field col dataset_data row with
      | Done d => read_column col r d
      | Failed e => Failed e
      end
  end.

(** The loop over the columns: the datasets in the order of
    [dataset_columns], each with its column name. *)
Fixpoint read_columns (cols : list pystr) (rows : list RowDict)
  : outcome (list (pystr * Dataset)) :=
  match cols with
  | [] => Done []
  | col :: r =>
      match read_column col rows ∅ with
      | Done d =>
          match read_columns r rows with
          | Done ds => Done ((col, d) :: ds)
          | Failed e => Failed e
          end
      | Failed e => Failed e
      end
  end.

(** The datasets of the auditor, from the rows of [csv.reader]. *)
Definition read_datasets (table : list (list pystr))
  : outcome (list (pystr * Dataset)) :=
  match dict_reader table with
  | [] => Failed RowsIndexError
  | (first :: _) as rows =>
      match dataset_columns first with
      | Done cols => read_columns cols rows
      | Failed e => Failed e
      end
  end.

(** The value that [row] gives to field [k] in column [j] for the
    auditor: the stripped cell, blank or not, when the cell of the
    [FELDNAME] column, at [f], is [k] as it stands and not empty. *)
Definition audit_value (f j : nat) (k : pystr) (row : list pystr)
  : option pystr :=
  match row !! f, row !! j with
  | Some name, Some cell =>
      if nonempty name && str_eqb name k then Some (strip cell) else None
  | _, _ => None
  end.

(** The field names of the rows: their first cells that are not
    empty. *)
Definition field_names (data : list (list pystr)) : list pystr :=
  filter (λ n, n ≠ []) (omap (λ row, row !! 0) data).

(** A table whose rows behind the first are empty or as long as the
    first. *)
Definition rectangular (header : list pystr) (data : list (list pystr))
  : Prop :=
  Forall (λ row, row = [] ∨ length row = length header) data.

(** ** The template

    [extract_template_data] reads the metadata that every document
    shares from a TEI file.  The file and its parser are outside; what
    the function does with the parsed tree is modelled here.  A tree
    that is missing, because the file is not there or cannot be parsed,
    gives the empty dictionary. *)

(** [e.iter()]: the element and its descendants in document order. *)
Fixpoint iter (e : Element) : list Element :=
  match e with
  | Elem _ _ _ _ children => e :: flat_map iter children
  end.

(** [parent.find(f'{{{TEI_NS}}}{tag}')]: the first child with the tag. *)
Definition find_elem (parent : Element) (tag : pystr) : option Element :=
  head (filter (λ c, e_tag c = qname TEI_NS tag) (e_children parent)).

(** [parent.findall(f'.//{{{TEI_NS}}}{tag}')]: the descendants with the
    tag, in document order. *)
Definition findall_elem (parent : Element) (tag : pystr) : list Element :=
  filter (λ c, e_tag c = qname TEI_NS tag) (flat_map iter (e_children parent)).

(** [elem.get(key, '')]. *)
Definition attr (e : Element) (key : pystr) : pystr :=
  default [] (dict_get (e_attrib e) key).

(** The body of the loop over the [respStmt] elements of the series
    statement; the state holds [project_director] and
    [research_team]. *)
Definition resp_step (st : option Director * option Team)
    (resp_stmt : Element) : option Director * option Team :=
  let ana := attr resp_stmt (u "ana") in
  let resp := find_elem resp_stmt (u "resp") in
  if contains (u "pdr") ana then
    match find_elem resp_stmt (u "persName") with
    | Some pers_name =>
        match find_elem pers_name (u "forename"),
              find_elem pers_name (u "surname") with
        | Some forename, Some surname =>
            (Some {| pdr_forename := e_text forename;
                     pdr_surname := e_text surname;
                     pdr_resp := match resp with
                                 | Some r => e_text r
                                 | None => Some (u "Project director")
                                 end |},
             snd st)
        | _, _ => st
        end
    | None => st
    end
  else if contains (u "rth") ana then
    match find_elem resp_stmt (u "orgName") with
    | Some org_name =>
        (fst st,
         Some {| rth_name := e_text org_name;
                 rth_ref := attr org_name (u "ref");
                 rth_resp := match resp with
                             | Some r => e_text r
                             | None => Some (u "Software developement")
                             end |})
    | None => st
    end
  else st.

Definition extract_template_data (tree : option Element) : TemplateData :=
  match tree with
  | None => no_template
  | Some root =>
      let pub_stmt := head (findall_elem root (u "publicationStmt")) in
      let org_of (holder : pystr) : option Element :=
        pub_stmt ≫= λ p, find_elem p holder
                 ≫= λ h, find_elem h (u "orgName") in
      let licence :=
        pub_stmt ≫= λ p, find_elem p (u "availability")
                 ≫= λ a, find_elem a (u "licence") in
      let funder := head (findall_elem root (u "funder")) in
      let funder_org := funder ≫= λ f, find_elem f (u "orgName") in
      let series_stmt := head (findall_elem root (u "seriesStmt")) in
      let resp :=
        foldl resp_step (None, None)
          (from_option (λ s, findall_elem s (u "respStmt")) [] series_stmt) in
      let project_desc := head (findall_elem root (u "projectDesc")) in
      {| publisher_name := e_text <$> org_of (u "publisher");
         publisher_corresp :=
           (λ o, attr o (u "corresp")) <$> org_of (u "publisher");
         authority_name := e_text <$> org_of (u "authority");
         authority_corresp :=
           (λ o, attr o (u "corresp")) <$> org_of (u "authority");
         distributor_name := e_text <$> org_of (u "distributor");
         distributor_ref :=
           (λ o, attr o (u "ref")) <$> org_of (u "distributor");
         license_text := e_text <$> licence;
         license_target := (λ l, attr l (u "target")) <$> licence;
         pub_place :=
           e_text <$> (pub_stmt ≫= λ p, find_elem p (u "pubPlace"));
         funder_name := e_text <$> funder_org;
         funder_ref := (λ o, attr o (u "ref")) <$> funder_org;
         funder_num :=
           e_text <$> (funder ≫= λ f, find_elem f (u "num"));
         series_titles :=
           (λ s, (λ title,
                    {| st_text := e_text title;
                       st_lang := attr title (qname XML_NS (u "lang"));
                       st_ref := attr title (u "ref") |})
                 <$> findall_elem s (u "title")) <$> series_stmt;
         project_director := fst resp;
         research_team := snd resp;
         project_desc_paragraphs :=
           (λ d, omap (λ p, if truthy (e_text p) then e_text p else None)
                   (findall_elem d (u "p"))) <$> project_desc;
         project_context_ref :=
           project_desc ≫= λ d, find_elem d (u "ab")
                        ≫= λ ab, find_elem ab (u "ref")
                        ≫= λ ref,
             Some {| ref_text := e_text ref;
                     ref_target := attr ref (u "target");
                     ref_type := attr ref (u "type") |} |}
  end.

(** The tags of an element and its descendants, in document order. *)
Definition tags (e : Element) : list pystr := e_tag <$> iter e.

(** Every tag of the tree is one of [allowed]. *)
Definition tags_in (allowed : list pystr) (e : Element) : Prop :=
  Forall (λ x, x ∈ allowed) (tags e).

(** The names of the elements of a generated header up to the source
    description, and of a whole document. *)
Definition FILE_TAGS : list pystr :=
  qname TEI_NS <$>
    [ u "fileDesc"; u "titleStmt"; u "title"; u "editor"; u "persName";
      u "forename"; u "surname"; u "respStmt"; u "resp"; u "funder";
      u "orgName"; u "num"; u "publicationStmt"; u "publisher";
      u "authority"; u "distributor"; u "availability"; u "licence";
      u "date"; u "pubPlace"; u "idno"; u "seriesStmt"; u "sourceDesc";
      u "bibl"; u "country"; u "region"; u "author"; u "rs"; u "hi";
      u "media"; u "graphic" ].

Definition TEI_TAGS : list pystr :=
  FILE_TAGS
  ++ (qname TEI_NS <$>
        [ u "TEI"; u "teiHeader"; u "encodingDesc"; u "projectDesc"; u "ab";
          u "ref"; u "p"; u "listPrefixDef"; u "prefixDef"; u "profileDesc";
          u "langUsage"; u "language"; u "textClass"; u "keywords";
          u "list"; u "item"; u "term"; u "text"; u "body"; u "head";
          u "note" ]).

(** The first element with tag [tag] among the elements [es] and
    their descendants, in document order. *)
Definition first_tag (tag : pystr) (es : list Element) : option Element :=
  head (filter (λ c, e_tag c = tag) (flat_map iter es)).

(** A text as [create_tei_element] stores it: an empty text is no
    text. *)
Definition stored (text : option pystr) : option pystr :=
  if truthy text then text else None.

(** The template that a generated document holds: every default
    filled in, every text as it is stored, the empty paragraphs of
    the project description dropped. *)
Definition generated_template (t : TemplateData) : TemplateData :=
  {| publisher_name :=
       Some (stored (default (Some (u "Institut für Geschichte, Universität Graz"))
                       (publisher_name t)));
     publisher_corresp :=
       Some (default (u "http://geschichte.uni-graz.at/") (publisher_corresp t));
     authority_name :=
       Some (stored (default (Some (u "Digital Humanities Craft OG"))
                       (authority_name t)));
     authority_corresp :=
       Some (default (u "https://dhcraft.org") (authority_corresp t));
     distributor_name :=
       Some (stored
               (default
                  (Some (u "GAMS - Geisteswissenschaftliches Asset Management System"))
                  (distributor_name t)));
     distributor_ref :=
       Some (default (u "https://gams.uni-graz.at") (distributor_ref t));
     license_text :=
       Some (stored (default (Some (u "Creative Commons BY-NC 4.0"))
                       (license_text t)));
     license_target :=
       Some (default (u "https://creativecommons.org/licenses/by-nc/4.0")
               (license_target t));
     pub_place := Some (stored (default (Some (u "Graz")) (pub_place t)));
     funder_name :=
       Some (stored (default (Some (u "Austrian Science Fund (FWF)"))
                       (funder_name t)));
     funder_ref :=
       Some (default (u "https://www.fwf.ac.at/de/") (funder_ref t));
     funder_num :=
       Some (stored (default (Some (u "P 38285-G")) (funder_num t)));
     series_titles :=
       Some ((λ title,
                {| st_text := stored (st_text title);
                   st_lang := st_lang title; st_ref := st_ref title |})
             <$> default [] (series_titles t));
     project_director :=
       (λ pdr, {| pdr_forename := stored (pdr_forename pdr);
                  pdr_surname := stored (pdr_surname pdr);
                  pdr_resp := stored (pdr_resp pdr) |})
       <$> project_director t;
     research_team :=
       (λ team, {| rth_name := stored (rth_name team);
                   rth_ref := rth_ref team;
                   rth_resp := stored (rth_resp team) |})
       <$> research_team t;
     project_desc_paragraphs :=
       Some (filter (λ p, p ≠ []) (default [] (project_desc_paragraphs t)));
     project_context_ref :=
       (λ ref, {| ref_text := stored (ref_text ref);
                  ref_target := ref_target ref;
                  ref_type := ref_type ref |})
       <$> project_context_ref t |}.

(** The [fileDesc] of a document, around its source description. *)
Definition file_desc_of (dataset : Dataset) (t : TemplateData)
    (source_desc : Element) : Element :=
  extend (create_tei_element (u "fileDesc") None [])
    [ title_stmt_of dataset t; pub_stmt_of dataset t; series_stmt_of t;
      source_desc ].

(** The elements that [series_stmt_of] makes of a title, of the
    project director and of the research team, and those that
    [encoding_desc_of] makes of the reference and of a paragraph. *)
Definition series_title_elem (title : SeriesTitle) : Element :=
  create_tei_element (u "title") (st_text title)
    ((if nonempty (st_lang title)
      then [(qname XML_NS (u "lang"), st_lang title)] else [])
     ++ (if nonempty (st_ref title) then [(u "ref", st_ref title)] else [])).

Definition director_elem (pdr : Director) : Element :=
  add_person_name
    (append
       (create_tei_element (u "respStmt") None [(u "ana", u "marcrelator:pdr")])
       (create_tei_element (u "resp") (pdr_resp pdr) []))
    (pdr_forename pdr) (pdr_surname pdr).

Definition team_elem (team : Team) : Element :=
  extend
    (create_tei_element (u "respStmt") None [(u "ana", u "marcrelator:rth")])
    [ create_tei_element (u "resp") (rth_resp team) [];
      create_tei_element (u "orgName") (rth_name team)
        [(u "ref", rth_ref team)] ].

Definition context_elem (ref_data : ContextRef) : Element :=
  append (create_tei_element (u "ab") None [])
    (create_tei_element (u "ref") (ref_text ref_data)
       [ (u "target", ref_target ref_data); (u "type", ref_type ref_data) ]).

Definition paragraph_elem (p_text : pystr) : Element :=
  create_tei_element (u "p") (Some p_text) [].

(** A computation in the warning monad whose result has the property
    [P], whatever was collected before. *)
Definition yields {A : Type} (P : A → Prop) (m : Warn A) : Prop :=
  ∀ w, P (fst (m w)).

(** A template with a project director and one paragraph. *)
Definition director_template : TemplateData :=
  {| publisher_name := None; publisher_corresp := None;
     authority_name := None; authority_corresp := None;
     distributor_name := None; distributor_ref := None;
     license_text := None; license_target := None; pub_place := None;
     funder_name := None; funder_ref := None; funder_num := None;
     series_titles := None;
     project_director :=
       Some {| pdr_forename := Some (u "Siegfried");
               pdr_surname := Some (u "Gruber");
               pdr_resp := None |};
     research_team := None;
     project_desc_paragraphs := Some [u "HistDem."];
     project_context_ref := None |}.

(** ** The inline markup as the specification reads it

    These definitions do not use the matcher of the converter. *)

(** [s] holds an emphasized run: a star, one or more characters other
    than a star, a star. *)
Definition has_run (s : pystr) : Prop :=
  ∃ a x b, s = a ++ STAR :: x ++ STAR :: b ∧ x ≠ [] ∧ STAR ∉ x.

(** The plain segment in front of a run; none when nothing is in front
    of it. *)
Definition plain (pre : pystr) : list (part_type * pystr) :=
  match pre with [] => [] | _ => [(PText, pre)] end.

(** The segments of a text.  The empty text has none.  A text without
    emphasized run is one plain segment.  Otherwise the leftmost run
    [*x*] is cut out: no run ends at or before its opening star, so
    that [pre ++ [STAR]] holds none; [x] is an emphasis segment, the
    text in front of it a plain one, and the text behind the closing
    star is read in the same way. *)
Inductive to_segments : pystr → list (part_type * pystr) → Prop :=
  | segments_empty : to_segments [] []
  | segments_plain text :
      text ≠ [] → ¬ has_run text → to_segments text [(PText, text)]
  | segments_run pre x rest parts :
      ¬ has_run (pre ++ [STAR]) → x ≠ [] → STAR ∉ x →
      to_segments rest parts →
      to_segments (pre ++ STAR :: x ++ STAR :: rest)
        (plain pre ++ (PItalic, x) :: parts).

(** The contents of the emphasis segments, in order. *)
Definition emphasized (parts : list (part_type * pystr)) : list pystr :=
  omap (λ p, match fst p with PItalic => Some (snd p) | PText => None end)
    parts.

(** ** The editors as the specification reads them

    These definitions use neither the tokenizer nor the string
    functions of the converter; they share with it the whitespace table
    [is_space] only. *)

Definition COMMA : char := 44%N.
Definition SPACE : char := 32%N.

(** The word that separates two names, with its blanks. *)
Definition AND : pystr := u " and ".

(** A text of whitespace only, and a text without whitespace. *)
Definition blank (s : pystr) : bool := forallb is_space s.

Definition solid (s : pystr) : bool := forallb (λ c, negb (is_space c)) s.

(** [sub] occurs in [s]. *)
Definition occurs (sub s : pystr) : Prop := ∃ a b, s = a ++ sub ++ b.

(** [t] is [s] without the whitespace around it. *)
Definition core (s t : pystr) : Prop :=
  ∃ a b, s = a ++ t ++ b ∧ blank a = true ∧ blank b = true
    ∧ (∀ c, head t = Some c → is_space c = false)
    ∧ (∀ c, last t = Some c → is_space c = false).




(** The pieces of a clause between its separators, a comma or the word
    [and] between blanks, leftmost first: a piece holds no comma, and
    no [and] starts in it. *)
Inductive separated : pystr → list pystr → Prop :=
  | separated_last s :
      COMMA ∉ s → ¬ occurs AND s → separated s [s]
  | separated_comma p rest ps :
      COMMA ∉ p → ¬ occurs AND p → separated rest ps →
      separated (p ++ COMMA :: rest) (p :: ps)
  | separated_and p rest ps :
      COMMA ∉ p → ¬ occurs AND (p ++ u " and") → separated rest ps →
      separated (p ++ AND ++ rest) (p :: ps).

(** The names of a list of pieces: each piece without the whitespace
    around it, the pieces of whitespace only left out. *)
Inductive names_of : list pystr → list pystr → Prop :=
  | names_none : names_of [] []
  | names_skip p ps names :
      blank p = true → names_of ps names → names_of (p :: ps) names
  | names_keep p ps name names :
      name ≠ [] → core p name → names_of ps names →
      names_of (p :: ps) (name :: names).

(** The author list of a clause: the names of the pieces of the clause
    without the whitespace around it. *)
Definition author_list (clause : pystr) (authors : list pystr) : Prop :=
  ∃ c ps, core clause c ∧ separated c ps ∧ names_of ps authors.

(** The tokens of a text: its maximal runs of characters other than
    whitespace, in order. *)
Inductive tokens : pystr → list pystr → Prop :=
  | tokens_none s : blank s = true → tokens s []
  | tokens_word sp w rest ws :
      blank sp = true → w ≠ [] → solid w = true →
      (∀ c, head rest = Some c → is_space c = true) →
      tokens rest ws →
      tokens (sp ++ w ++ rest) (w :: ws).

(** Tokens written with one blank between them. *)
Definition spaced (ws : list pystr) : pystr :=
  drop 1 (flat_map (λ w, SPACE :: w) ws).

(** Forename and surname of a name of two tokens or more: the last
    token is the surname, the tokens in front of it the forename; a
    name of fewer tokens has neither. *)
Inductive name_split : pystr → option (pystr * pystr) → Prop :=
  | name_split_two author fore surname :
      tokens author (fore ++ [surname]) → fore ≠ [] →
      name_split author (Some (spaced fore, surname))
  | name_split_short author ws :
      tokens author ws → length ws < 2 → name_split author None.


(** * Properties *)

(** ** Facts about the string operations *)

Section StringFacts.
Implicit Types s p r sub : list N.

Lemma str_eqb_eq s r : str_eqb s r = true ↔ s = r.
Proof. unfold str_eqb. apply bool_decide_eq_true. Qed.

Lemma str_eqb_neq s r : str_eqb s r = false ↔ s ≠ r.
Proof. unfold str_eqb. apply bool_decide_eq_false. Qed.

Lemma nonempty_true s : nonempty s = true ↔ s ≠ [].
Proof. unfold nonempty. rewrite negb_true_iff. apply str_eqb_neq. Qed.

Lemma nonempty_false s : nonempty s = false ↔ s = [].
Proof. unfold nonempty. rewrite negb_false_iff. apply str_eqb_eq. Qed.

Lemma forallb_reverse {A} (f : A → bool) (l : list A) :
  forallb f (reverse l) = forallb f l.
Proof.
  apply eq_true_iff_eq. rewrite !forallb_forall.
  split; intros Hf x Hx; apply Hf; apply list_elem_of_In;
    apply list_elem_of_In in Hx; by apply elem_of_reverse.
Qed.

(** [lstrip] removes a prefix of whitespace and stops at a character
    that is not whitespace. *)
Lemma lstrip_split s :
  ∃ p, s = p ++ lstrip s ∧ forallb is_space p = true.
Proof.
  induction s as [|c s [p [Hs Hp]]]; simpl.
  - by exists [].
  - destruct (is_space c) eqn:Hc.
    + exists (c :: p). simpl. rewrite Hc, Hp. split; [by f_equal|done].
    + by exists [].
Qed.

Lemma lstrip_head s c r : lstrip s = c :: r → is_space c = false.
Proof.
  induction s as [|x s IH]; simpl; [done|].
  destruct (is_space x) eqn:Hx; [done|]. intros [= -> _]. done.
Qed.

Lemma lstrip_nil s : lstrip s = [] ↔ forallb is_space s = true.
Proof.
  induction s as [|x s IH]; simpl; [done|].
  destruct (is_space x); simpl; [done|]. split; done.
Qed.

Lemma lstrip_id s c r : s = c :: r → is_space c = false → lstrip s = s.
Proof. intros -> Hc. simpl. by rewrite Hc. Qed.


Lemma strip_nil s : strip s = [] ↔ forallb is_space s = true.
Proof.
  unfold strip, rstrip. split.
  - intros H. apply (f_equal reverse) in H.
    rewrite reverse_involutive in H. simpl in H.
    apply lstrip_nil in H. rewrite forallb_reverse in H.
    destruct (lstrip_split s) as [p [Hs Hp]]. rewrite Hs.
    rewrite forallb_app. by rewrite Hp, H.
  - intros H. apply lstrip_nil in H. by rewrite H.
Qed.

Lemma strip_head s c r : strip s = c :: r → is_space c = false.
Proof.
  unfold strip, rstrip. intros H.
  destruct (lstrip s) as [|x t] eqn:E; [done|].
  pose proof (lstrip_head _ _ _ E) as Hx.
  destruct (lstrip_split (reverse (x :: t))) as [q [Hr Hq]].
  apply (f_equal reverse) in Hr. rewrite reverse_involutive in Hr.
  rewrite reverse_app, H in Hr. simpl in Hr. by injection Hr as -> _.
Qed.

Lemma strip_last s c : last (strip s) = Some c → is_space c = false.
Proof.
  unfold strip, rstrip. rewrite last_reverse. intros H.
  destruct (lstrip (reverse (lstrip s))) as [|x t] eqn:E; [done|].
  simpl in H. injection H as ->. by eapply lstrip_head.
Qed.

(** A string that neither starts nor ends with whitespace is its own
    stripped form. *)
Lemma strip_id s :
  (∀ c r, s = c :: r → is_space c = false) →
  (∀ c, last s = Some c → is_space c = false) → strip s = s.
Proof.
  intros Hh Hl. unfold strip, rstrip.
  assert (lstrip s = s) as ->.
  { destruct s as [|c r]; [done|]. eapply lstrip_id; eauto. }
  assert (lstrip (reverse s) = reverse s) as ->.
  { destruct (reverse s) as [|c r] eqn:E; [done|].
    eapply lstrip_id; [done|]. apply Hl.
    rewrite <- (reverse_involutive s), E, last_reverse. done. }
  apply reverse_involutive.
Qed.

Lemma strip_idem s : strip (strip s) = strip s.
Proof.
  apply strip_id.
  - intros c r. apply strip_head.
  - apply strip_last.
Qed.

Lemma startswith_spec s p : startswith s p = true ↔ ∃ r, s = p ++ r.
Proof.
  revert s. induction p as [|a p IH]; intros s; simpl.
  - split; [by exists s|done].
  - destruct s as [|b s]; simpl.
    { split; [done|]. intros [r Hr]. simpl in Hr. discriminate. }
    rewrite andb_true_iff, N.eqb_eq, IH. split.
    + intros [-> [r ->]]. by exists r.
    + intros [r [= -> ->]]. split; [done|by exists r].
Qed.

(** [str_find] returns the first position at which [sub] occurs. *)
Lemma str_find_Some sub s i :
  str_find sub s = Some i →
  s = take i s ++ sub ++ drop (i + length sub) s
  ∧ ∀ j, j < i → startswith (drop j s) sub = false.
Proof.
  revert i. induction s as [|c s IH]; intros i; simpl.
  - destruct (startswith [] sub) eqn:E; [|done].
    intros [= <-]. apply startswith_spec in E as [r E].
    destruct sub; [|done]. split; [done|lia].
  - destruct (startswith (c :: s) sub) eqn:E.
    + intros [= <-]. apply startswith_spec in E as [r E].
      split; [|lia]. simpl. rewrite E at 1.
      f_equal. rewrite E. by rewrite drop_app_length.
    + destruct (str_find sub s) as [k|] eqn:F; [|done].
      simpl. intros [= <-]. destruct (IH k eq_refl) as [Hs Hj].
      split; [simpl; by f_equal|].
      intros [|j] Hlt; simpl; [done|]. apply Hj. lia.
Qed.

Lemma str_find_None sub s :
  str_find sub s = None → ∀ a b, s ≠ a ++ sub ++ b.
Proof.
  induction s as [|c s IH]; simpl.
  - destruct (startswith [] sub) eqn:E; [done|]. intros _ a b Hs.
    destruct a; [|done]. simpl in Hs.
    assert (startswith [] sub = true) by (apply startswith_spec; eauto).
    congruence.
  - destruct (startswith (c :: s) sub) eqn:E; [done|].
    destruct (str_find sub s) eqn:F; [done|]. intros _ a b Hs.
    destruct a as [|x a]; simpl in Hs.
    + assert (startswith (c :: s) sub = true)
        by (apply startswith_spec; eauto).
      congruence.
    + injection Hs as -> Hs. by eapply IH.
Qed.

Lemma contains_true sub s :
  contains sub s = true ↔ ∃ a b, s = a ++ sub ++ b.
Proof.
  unfold contains. destruct (str_find sub s) as [i|] eqn:F.
  - split; [|done]. intros _. apply str_find_Some in F as [Hs _]. eauto.
  - split; [done|]. intros [a [b Hs]]. by eapply str_find_None in F.
Qed.
End StringFacts.

(** ** The field-entry grammar *)

Section FieldEntry.
Implicit Types entry e a b f id : list N.
Implicit Types w : list (list N).

Lemma SEP_length : length SEP = 3.
Proof. reflexivity. Qed.

(** In a stripped string that contains the separator, neither side of
    the first separator is blank: a blank left side would make the
    string start with whitespace, a blank right side would make it end
    with whitespace. *)
Lemma stripped_sides entry i :
  str_find SEP (strip entry) = Some i →
  strip (take i (strip entry)) ≠ []
  ∧ strip (drop (i + 3) (strip entry)) ≠ [].
Proof.
  intros F. apply str_find_Some in F as [He _]. rewrite SEP_length in He.
  set (e := strip entry) in *. set (a := take i e) in *.
  set (b := drop (i + 3) e) in *. split; intros Hb; apply strip_nil in Hb.
  - destruct a as [|c a'].
    + simpl in He. assert (is_space 32 = false) as Hs; [|done].
      by eapply (strip_head entry), He.
    + simpl in Hb. apply andb_prop in Hb as [Hc _].
      assert (is_space c = false) as Hs; [|congruence].
      by eapply (strip_head entry), He.
  - assert (∃ c, last e = Some c ∧ is_space c = true) as [c [Hl Hc]].
    { rewrite He. destruct (last b) as [c|] eqn:Lb.
      - exists c. rewrite !last_app, Lb. split; [done|].
        rewrite forallb_forall in Hb. apply Hb, list_elem_of_In.
        apply last_Some in Lb as [l' ->]. set_solver.
      - apply last_None in Lb. rewrite Lb, app_nil_r, last_app.
        by exists 32%N. }
    apply strip_last in Hl. congruence.
Qed.

Lemma split_first sep e i :
  str_find sep e = Some i →
  split_max 1 sep e = [take i e; drop (i + length sep) e].
Proof. intros F. simpl. by rewrite F. Qed.

(** The three outcomes of [parse_file_entry]: the entry is blank; its
    stripped form has no separator; or it has one and both sides of
    the first one are kept.  The branches for an empty filename and
    for an empty title are never taken. *)
Lemma parse_file_entry_cases entry f id w :
  (strip entry = [] ∧ parse_file_entry entry f id w = ((None, None), w))
  ∨ (strip entry ≠ [] ∧ contains SEP (strip entry) = false
     ∧ parse_file_entry entry f id w
       = ((Some (strip entry), None), w ++ [msg_missing_title id f (strip entry)]))
  ∨ (∃ i, str_find SEP (strip entry) = Some i
     ∧ strip (take i (strip entry)) ≠ []
     ∧ strip (drop (i + 3) (strip entry)) ≠ []
     ∧ parse_file_entry entry f id w
       = ((Some (strip (take i (strip entry))),
           Some (strip (drop (i + 3) (strip entry)))), w)).
Proof.
  unfold parse_file_entry.
  destruct (str_eqb entry []) eqn:E0.
  { apply str_eqb_eq in E0 as ->. by left. }
  destruct (str_eqb (strip entry) []) eqn:E1; cbn [orb].
  { apply str_eqb_eq in E1. by left. }
  apply str_eqb_neq in E1. right.
  unfold contains. destruct (str_find SEP (strip entry)) as [i|] eqn:F.
  - right. exists i. destruct (stripped_sides _ _ F) as [Ha Hb].
    cbn [negb].
    rewrite (split_first _ _ _ F), SEP_length.
    change ([?x; ?y] !!! 0) with x. change ([?x; ?y] !!! 1) with y.
    apply str_eqb_neq in Ha as Ha', Hb as Hb'. rewrite Ha', Hb'. done.
  - left. done.
Qed.
End FieldEntry.

(** C1.  [parse_file_entry] on an entry with nothing before the
    separator, and on one with nothing after it: the entry is stripped
    before the separator is looked for, so neither the error for an
    empty filename nor the warning for an empty title is recorded; both
    entries are reported as lacking a title and keep the dash in the
    filename. *)
Theorem parse_file_entry_blank_side (field_name dataset_id : list N)
    (w : list (list N)) :
  parse_file_entry (u " - Title") field_name dataset_id w
  = ((Some (u "- Title"), None),
     w ++ [msg_missing_title dataset_id field_name (u "- Title")])
  ∧ parse_file_entry (u "scan.jpg - ") field_name dataset_id w
    = ((Some (u "scan.jpg -"), None),
       w ++ [msg_missing_title dataset_id field_name (u "scan.jpg -")]).
Proof. split; reflexivity. Qed.

Section AuditorEntry.
Implicit Types entry f id : list N.
Implicit Types w : list (list N).

Lemma stripped_no_leading_space entry :
  startswith (strip entry) (u " ") = false.
Proof.
  apply not_true_is_false. intros H.
  apply startswith_spec in H as [r H]. by apply strip_head in H.
Qed.

Lemma stripped_no_trailing_space entry :
  endswith (strip entry) (u " ") = false.
Proof.
  apply not_true_is_false. unfold endswith. intros H.
  apply startswith_spec in H as [r H].
  assert (last (strip entry) = Some 32%N) as Hl.
  { rewrite <- (reverse_involutive (strip entry)), H, last_reverse. done. }
  by apply strip_last in Hl.
Qed.

Lemma list_grows {A} (l : list A) x : l ++ [x] ≠ l.
Proof.
  intros H. apply (f_equal length) in H. rewrite length_app in H.
  simpl in H. lia.
Qed.

(** What [validate_file_entry] computes, by the same three cases. *)
Lemma validate_file_entry_cases entry :
  (strip entry = [] ∧ Audit.validate_file_entry_locals entry = (None, []))
  ∨ (strip entry ≠ [] ∧ contains SEP (strip entry) = false
     ∧ ∃ rest,
         Audit.validate_file_entry_locals entry
         = (Some (strip entry),
            u "Fehlender Titel (Format sollte sein: 'dateiname - Titel')"
              :: rest))
  ∨ (∃ i, str_find SEP (strip entry) = Some i
     ∧ Audit.validate_file_entry_locals entry
       = (Some (strip (take i (strip entry))),
          if contains (u ".") (strip (take i (strip entry))) then []
          else [u "Dateiname ohne Erweiterung: '"
                ++ strip (take i (strip entry)) ++ u "'"])).
Proof.
  unfold Audit.validate_file_entry_locals.
  destruct (nonempty entry) eqn:E0; cbn [negb orb].
  2:{ apply nonempty_false in E0 as ->. by left. }
  destruct (str_eqb (strip entry) []) eqn:E1.
  { apply str_eqb_eq in E1. by left. }
  apply str_eqb_neq in E1. right.
  destruct (str_find SEP (strip entry)) as [i|] eqn:F.
  - right. exists i. split; [done|].
    destruct (stripped_sides _ _ F) as [Ha Hb].
    assert (contains SEP (strip entry) = true) as ->
      by (unfold contains; by rewrite F).
    rewrite (split_first _ _ _ F), SEP_length.
    change ([?x; ?y] !!! 0) with x. change ([?x; ?y] !!! 1) with y.
    apply nonempty_true in Ha as Ha', Hb as Hb'. rewrite Ha', Hb'.
    cbn [negb app].
    rewrite stripped_no_leading_space, stripped_no_trailing_space.
    destruct (contains (u ".") (strip (take i (strip entry)))); done.
  - left. split; [done|].
    assert (contains SEP (strip entry) = false) as C
      by (unfold contains; by rewrite F).
    split; [done|]. rewrite C. eexists. reflexivity.
Qed.

(** C3, amended.  The auditor and the converter extract the same
    filename from every entry.  Whenever the converter records a
    warning the auditor reports an issue; the auditor reports an
    issue exactly when the converter records a warning or the
    filename has no dot, a test that only the auditor makes. *)
Theorem auditor_entry_vs_parser entry f id w :
  fst (Audit.validate_file_entry_locals entry)
  = fst (fst (parse_file_entry entry f id w))
  ∧ (fst (Audit.validate_file_entry entry f) = false
     ↔ snd (parse_file_entry entry f id w) ≠ w
       ∨ ∃ filename,
           fst (fst (parse_file_entry entry f id w)) = Some filename
           ∧ contains (u ".") filename = false).
Proof.
  unfold Audit.validate_file_entry.
  destruct (parse_file_entry_cases entry f id w)
    as [[E ->]|[[E [C ->]]|[i [F [Ha [Hb ->]]]]]];
    destruct (validate_file_entry_cases entry)
      as [[E' ->]|[[E' [C' [rest ->]]]|[i' [F' ->]]]];
    cbn [fst snd];
    try congruence;
    try (rewrite E in F'; discriminate F');
    try (rewrite E' in F; discriminate F);
    try (unfold contains in C'; rewrite F in C'; discriminate C');
    try (unfold contains in C; rewrite F' in C; discriminate C).
  - split; [done|]. split; [done|]. intros [?|[fn [? _]]]; done.
  - split; [done|]. split; [|done]. intros _. left. apply list_grows.
  - assert (i' = i) as -> by congruence. split; [done|].
    destruct (contains (u ".") (strip (take i (strip entry)))) eqn:D.
    + split; [done|]. intros [?|[fn [[= <-] ?]]]; [done|congruence].
    + split; [|done]. intros _. right. eauto.
Qed.
End AuditorEntry.

(** C3, as stated, fails: the converter accepts [README - Title]
    without a warning, the auditor reports the missing extension. *)
Lemma auditor_entry_extension_only :
  parse_file_entry (u "README - Title") (u "Bild 1") (u "147") []
  = ((Some (u "README"), Some (u "Title")), [])
  ∧ Audit.validate_file_entry (u "README - Title") (u "Bild 1")
    = (false, [u "Dateiname ohne Erweiterung: 'README'"]).
Proof. split; reflexivity. Qed.

(** ** The auditor's rules *)

Section DateRange.
Context `{Runtime}.
Implicit Types year date_from date_to : list N.

Ltac int_of_digits :=
  rewrite py_int_digits;
  [ reflexivity | discriminate | vm_compute; lia | reflexivity ].

Lemma py_int_1900 : py_int (u "1900") = Some 1900%Z.
Proof. int_of_digits. Qed.

Lemma py_int_1890 : py_int (u "1890") = Some 1890%Z.
Proof. int_of_digits. Qed.

Lemma py_int_1895 : py_int (u "1895") = Some 1895%Z.
Proof. int_of_digits. Qed.

(** C9.  [validate_date_range] reports one issue when exactly one of
    the two bounds is present.  When both bounds and the year are
    present and all three are read by [int], it reports an issue exactly
    when the year is outside the closed range; when one of them is not
    numeric it reports nothing.  Year 1900 with the range 1890-1895 is
    one issue, an empty year with that range is none. *)
Theorem date_range_rule year date_from date_to :
  let issues := snd (Audit.validate_date_range year date_from date_to) in
  (fst (Audit.validate_date_range year date_from date_to) = true
   ↔ issues = [])
  ∧ ((date_from ≠ [] ∧ date_to = []) ∨ (date_from = [] ∧ date_to ≠ [])
     → length issues = 1)
  ∧ (date_from ≠ [] → date_to ≠ [] → year ≠ [] →
     match py_int year, py_int date_from, py_int date_to with
     | Some y, Some f, Some t =>
         (issues ≠ [] ↔ ¬ (f ≤ y ≤ t)%Z) ∧ length issues ≤ 1
     | _, _, _ => issues = []
     end)
  ∧ (date_from ≠ [] → date_to ≠ [] → year = [] → issues = [])
  ∧ (date_from = [] → date_to = [] → issues = [])
  ∧ Audit.validate_date_range (u "1900") (u "1890") (u "1895")
    = (false, [u "Jahr 1900 liegt nicht im Datumsbereich 1890-1895"])
  ∧ Audit.validate_date_range [] (u "1890") (u "1895") = (true, []).
Proof.
  cbn zeta. unfold Audit.validate_date_range. cbn [fst snd].
  split; [split|]; [| |split; [|split; [|split; [|split; [|split]]]]].
  - intros E. apply Nat.eqb_eq in E. by destruct (_ : list (list N)).
  - intros ->. done.
  - intros [[Hf ->]|[-> Ht]].
    + apply nonempty_true in Hf. rewrite Hf. reflexivity.
    + apply nonempty_true in Ht. rewrite Ht. reflexivity.
  - intros Hf Ht Hy. apply nonempty_true in Hf, Ht, Hy.
    rewrite Hf, Ht, Hy. cbn [negb andb app].
    destruct (py_int year) as [y|]; [|done].
    destruct (py_int date_from) as [f|]; [|done].
    destruct (py_int date_to) as [t|]; [|done].
    destruct (f <=? y)%Z eqn:E1; destruct (y <=? t)%Z eqn:E2;
      cbn [negb andb app length];
      try apply Z.leb_le in E1; try apply Z.leb_le in E2;
      try apply Z.leb_gt in E1; try apply Z.leb_gt in E2;
      (split; [split; [intros; lia || done | intros; lia || done]|lia]).
  - intros Hf Ht ->. apply nonempty_true in Hf, Ht. rewrite Hf, Ht. done.
  - intros -> ->. done.
  - rewrite py_int_1900, py_int_1890, py_int_1895. reflexivity.
  - reflexivity.
Qed.
End DateRange.

(** C9 at year 1893, range 1890-1895, with the ASCII tables. *)
Lemma date_range_rule_witness :
  (snd (Audit.validate_date_range (u "1893") (u "1890") (u "1895")) ≠ []
   ↔ ¬ (1890 ≤ 1893 ≤ 1895)%Z)
  ∧ length (snd (Audit.validate_date_range (u "1893") (u "1890") (u "1895")))
    ≤ 1.
Proof.
  exact (proj1 (proj2 (proj2
           (date_range_rule (u "1893") (u "1890") (u "1895"))))
         ltac:(discriminate) ltac:(discriminate) ltac:(discriminate)).
Defined.

Section ExitStatus.
Context `{Runtime}.
Variable fs : Audit.FileSystem.
Implicit Types datasets : list Dataset.

(** The counters after the loop: the running totals plus the issues of
    the records that have some. *)
Lemma audit_counters datasets (c : Audit.Counters) :
  foldl (Audit.count_step fs) c datasets
  = {| Audit.total_issues :=
         Audit.total_issues c
         + sum_list (length <$> (Audit.dataset_issues fs <$> datasets));
       Audit.datasets_with_issues :=
         Audit.datasets_with_issues c + records_with_issues fs datasets |}.
Proof.
  revert c. induction datasets as [|d ds IH]; intros [t n].
  - unfold records_with_issues. simpl. f_equal; lia.
  - cbn [foldl]. rewrite IH. unfold Audit.count_step, records_with_issues.
    rewrite filter_cons. cbn [fmap list_fmap sum_list].
    destruct (Audit.dataset_issues fs d) as [|x l] eqn:E.
    + rewrite decide_False by (intros N; by apply N).
      simpl. f_equal; lia.
    + rewrite decide_True by done. simpl. f_equal; lia.
Qed.

Lemma no_issue_records datasets :
  records_with_issues fs datasets = 0
  ↔ ∀ d, d ∈ datasets → Audit.dataset_issues fs d = [].
Proof.
  unfold records_with_issues. rewrite length_zero_iff_nil. split.
  - intros E d Hd. destruct (decide (Audit.dataset_issues fs d = [])) as [|N];
      [done|].
    assert (d ∈ filter (λ d, Audit.dataset_issues fs d ≠ []) datasets) as Hin
      by (by apply list_elem_of_filter).
    rewrite E in Hin. by apply elem_of_nil in Hin.
  - intros Hall. induction datasets as [|d ds IH]; [done|].
    rewrite filter_cons, decide_False.
    + apply IH. intros d' Hd'. apply Hall. by right.
    + intros N. apply N, Hall. by left.
Qed.

Lemma total_zero_iff datasets :
  sum_list (length <$> (Audit.dataset_issues fs <$> datasets)) = 0
  ↔ records_with_issues fs datasets = 0.
Proof.
  rewrite no_issue_records. induction datasets as [|d ds IH].
  - split; [intros _ d Hd; by apply elem_of_nil in Hd|done].
  - cbn [fmap list_fmap sum_list]. split.
    + intros E d' Hd'. change (id (length ?l)) with (length l) in E.
      apply elem_of_cons in Hd' as [->|Hd'].
      * apply length_zero_iff_nil. lia.
      * apply IH; [lia|done].
    + intros Hall. rewrite (Hall d) by (by left).
      change (id (length ?l)) with (length l). simpl.
      apply IH. intros d' Hd'. apply Hall. by right.
Qed.

(** C2, amended.  The value [main] hands to [sys.exit] is 0 when no
    record has an issue and 1 otherwise: it is the smaller of 1 and the
    number of records with at least one issue, and it is 0 exactly when
    every record is clean. *)
Theorem auditor_exit_status datasets :
  Audit.main fs datasets
  = Z.min 1 (Z.of_nat (records_with_issues fs datasets))
  ∧ (Audit.main fs datasets = 0%Z
     ↔ ∀ d, d ∈ datasets → Audit.dataset_issues fs d = [])
  ∧ Audit.datasets_with_issues (Audit.audit fs datasets)
    = records_with_issues fs datasets.
Proof.
  unfold Audit.main, Audit.audit. rewrite audit_counters.
  cbn [Audit.total_issues Audit.datasets_with_issues Nat.add].
  pose proof (total_zero_iff datasets) as Hz.
  pose proof (no_issue_records datasets) as Hn.
  destruct (Nat.eqb_spec
              (sum_list (length <$> (Audit.dataset_issues fs <$> datasets))) 0)
    as [E|E].
  - apply Hz in E as E'. split; [lia|]. split; [|done]. split; [|done].
    intros _. by apply Hn.
  - split; [|split; [|done]].
    + assert (records_with_issues fs datasets ≠ 0) by (by rewrite <- Hz). lia.
    + split; [done|]. intros Hall. apply Hn, Hz in Hall. done.
Qed.
End ExitStatus.

(** C2, as stated, fails: two records that hold nothing but their
    identifier have ten issues each, and the exit status is 1, not 2. *)
Lemma auditor_exit_status_not_count :
  let datasets : list Dataset :=
    [ {[ u "Datensatz ID" := u "147" ]}; {[ u "Datensatz ID" := u "21" ]} ] in
  Audit.main empty_disk datasets = 1%Z
  ∧ records_with_issues empty_disk datasets = 2
  ∧ length <$> (Audit.dataset_issues empty_disk <$> datasets) = [10; 10].
Proof. repeat split; vm_compute; reflexivity. Qed.

(** ** The table loader *)

Section Loader.
Implicit Types rows : list (list (list N)).
Implicit Types row : list (list N).
Implicit Types datasets : list Dataset.

Lemma well_loaded_empty rows n : well_loaded rows (replicate n ∅).
Proof.
  intros i d k v Hd Hk. apply lookup_replicate in Hd as [-> _].
  by rewrite lookup_empty in Hk.
Qed.

(** Storing the cells of a row of the table keeps every dataset well
    loaded: a cell is stored only when it exists and is not blank. *)
Lemma store_row_well_loaded rows row name n datasets :
  row ∈ rows → 2 ≤ length row → row !! 0 = Some name → strip name ≠ [] →
  well_loaded rows datasets →
  well_loaded rows (store_row (strip name) row n datasets).
Proof.
  intros Hin Hlen Hname Hne. unfold store_row.
  generalize (seq 0 n) as cols. intros cols. revert datasets.
  induction cols as [|c cols IH]; intros datasets Hw; [done|].
  cbn [foldl]. apply IH.
  destruct (row !! (c + 2)) as [cell|] eqn:Hcell; [|done].
  destruct (nonempty (strip cell)) eqn:Hv; [|done].
  apply nonempty_true in Hv.
  intros i d k v Hd Hk.
  destruct (decide (c = i)) as [->|Hci].
  - rewrite list_lookup_alter_eq in Hd.
    destruct (datasets !! i) as [d0|] eqn:Hd0; simpl in Hd; [|done].
    injection Hd as <-. apply lookup_insert_Some in Hk as [[<- <-]|[_ Hk]].
    + split; [done|]. split; [apply strip_idem|]. split; [done|].
      exists row, name, cell. done.
    + by eapply Hw.
  - rewrite list_lookup_alter_ne in Hd by done. by eapply Hw.
Qed.

Lemma load_row_well_loaded rows row n datasets :
  row ∈ rows → well_loaded rows datasets →
  well_loaded rows (load_row n datasets row).
Proof.
  intros Hin Hw. unfold load_row.
  destruct row as [|name [|c row']]; [done|done|].
  destruct (nonempty (strip name)) eqn:Hn; cbn [negb]; [|done].
  apply nonempty_true in Hn.
  apply store_row_well_loaded; [done|simpl; lia|done|done|done].
Qed.

Lemma load_rows_well_loaded rows rows' n datasets :
  rows' ⊆ rows → well_loaded rows datasets →
  well_loaded rows (foldl (load_row n) datasets rows').
Proof.
  revert datasets. induction rows' as [|row rows' IH]; intros datasets Hsub Hw;
    [done|].
  cbn [foldl]. apply IH; [set_solver|].
  apply load_row_well_loaded; [set_solver|done].
Qed.

(** C10.  On a table of at least two rows, whatever the lengths of the
    rows, [parse_csv_column] returns the datasets and raises nothing.
    Every value of every dataset is non-empty and stripped; a field is
    bound only by a row that has a cell in the dataset's column whose
    stripped content is that value, so a missing, empty or blank cell
    binds nothing. *)
Theorem parse_csv_column_records rows :
  2 ≤ length rows →
  ∃ datasets,
    parse_csv_column rows = Ok datasets
    ∧ ∀ i (d : Dataset) k v,
        datasets !! i = Some d → d !! k = Some v →
        v ≠ [] ∧ strip v = v ∧ cell_source (drop 4 rows) i k v.
Proof.
  intros Hlen. unfold parse_csv_column.
  destruct (rows !! 1) as [header|] eqn:Hh.
  2:{ apply lookup_ge_None in Hh. lia. }
  eexists. split; [reflexivity|].
  intros i d k v Hd Hk.
  eapply load_rows_well_loaded in Hk as (? & ? & _ & ?); eauto.
  apply well_loaded_empty.
Qed.
End Loader.

(** C10 on a table whose rows are short: the second dataset gets no
    [Jahr] because the row ends before its column, and no [Land]
    because its cell is blank. *)
Lemma parse_csv_column_records_witness :
  ∃ datasets,
    parse_csv_column
      [ [u "x"]; [u "FELDNAME"; u "TITEL"; u "Datensatz 1"; u "Datensatz 2"];
        []; []; [u "Land "; u ""; u " Serbia "; u "  "];
        [u "Jahr"; u ""; u "1863"] ]
    = Ok datasets
    ∧ ∀ i (d : Dataset) k v,
        datasets !! i = Some d → d !! k = Some v →
        v ≠ [] ∧ strip v = v
        ∧ cell_source
            (drop 4
               [ [u "x"];
                 [u "FELDNAME"; u "TITEL"; u "Datensatz 1"; u "Datensatz 2"];
                 []; []; [u "Land "; u ""; u " Serbia "; u "  "];
                 [u "Jahr"; u ""; u "1863"] ]) i k v.
Proof. apply parse_csv_column_records. simpl. lia. Defined.

Example parse_csv_column_short_rows :
  parse_csv_column
    [ [u "x"]; [u "FELDNAME"; u "TITEL"; u "Datensatz 1"; u "Datensatz 2"];
      []; []; [u "Land "; u ""; u " Serbia "; u "  "];
      [u "Jahr"; u ""; u "1863"] ]
  = Ok [ {[ u "Land" := u "Serbia"; u "Jahr" := u "1863" ]}; ∅ ].
Proof. vm_compute. reflexivity. Qed.

(** ** Splitting at a character *)

Section SplitFacts.
Implicit Types s a b : list N.

Lemma span_not_app c s :
  s = fst (span_not c s) ++ snd (span_not c s).
Proof.
  induction s as [|x s IH]; [done|]. simpl.
  destruct (x =? c)%N; [done|]. destruct (span_not c s). simpl in *.
  by f_equal.
Qed.

Lemma span_not_fst c s : c ∉ fst (span_not c s).
Proof.
  induction s as [|x s IH]; simpl; [apply not_elem_of_nil|].
  destruct (N.eqb_spec x c); [apply not_elem_of_nil|].
  destruct (span_not c s). simpl in *. by apply not_elem_of_cons.
Qed.

Lemma span_not_snd c s x r : snd (span_not c s) = x :: r → x = c.
Proof.
  induction s as [|y s IH]; simpl; [done|].
  destruct (N.eqb_spec y c) as [->|]; [by intros [= <- _]|].
  destruct (span_not c s). simpl in *. done.
Qed.

Lemma span_not_none c s : c ∉ s → span_not c s = (s, []).
Proof.
  induction s as [|x s IH]; [done|]. intros Hc. simpl.
  destruct (N.eqb_spec x c) as [->|]; [set_solver|].
  rewrite IH by set_solver. done.
Qed.

Lemma span_not_stop c a b : c ∉ a → span_not c (a ++ c :: b) = (a, c :: b).
Proof.
  induction a as [|x a IH]; intros Hc; simpl.
  - by rewrite N.eqb_refl.
  - destruct (N.eqb_spec x c) as [->|]; [set_solver|].
    rewrite IH by set_solver. done.
Qed.



Lemma str_find_char_None c s : str_find [c] s = None → c ∉ s.
Proof.
  intros F Hin. apply list_elem_of_split in Hin as (a & b & ->).
  by eapply (str_find_None [c] _ F a b).
Qed.

End SplitFacts.

(** ** Files of the document *)

Section BildRouting.
Context `{Runtime}.
Implicit Types filename value dataset_id : list N.





End BildRouting.


(** A filename without dot is its own extension: [pdf] is routed to
    [media], [PNG] to a [graphic] typed [image/png]; a name ending in a
    dot has the empty extension and is a [graphic] typed
    [image/jpeg]. *)
Example bild_name_without_dot :
  last (e_children (bild_rs (u "147") (u "pdf") None))
  = Some
      (create_tei_element (u "media") None
         (file_attrib (u "../datafile_147_Serbia_1863/pdf")
            (u "application/pdf") (u "pdf")))
  ∧ last (e_children (bild_rs (u "147") (u "PNG") None))
    = Some
        (create_tei_element (u "graphic") None
           (file_attrib (u "../datafile_147_Serbia_1863/PNG")
              (u "image/png") (u "PNG")))
  ∧ last (e_children (bild_rs (u "147") (u "scan.") None))
    = Some
        (create_tei_element (u "graphic") None
           (file_attrib (u "../datafile_147_Serbia_1863/scan.")
              (u "image/jpeg") (u "scan_"))).
Proof. repeat split; vm_compute; reflexivity. Qed.


(** ** Names and separators *)

Section Separators.
Implicit Types s sub p rest clause author : list N.
Implicit Types ps qs : list (list N).

(** *** Tokens *)









(** *** The text without the whitespace around it *)




(** *** Searching, cutting and replacing *)



















(** *** The pieces of a clause *)






End Separators.

Section Readings.
Implicit Types s sub p rest clause author : list N.
Implicit Types ps qs : list (list N).

(** *** One reading only *)
















End Readings.

(** ** Editors *)

Section Editors.
Implicit Types s citation author : list N.








Lemma children_append p c : e_children (append p c) = e_children p ++ [c].
Proof. done. Qed.

Lemma children_extend p cs : e_children (extend p cs) = e_children p ++ cs.
Proof.
  unfold extend. revert p. induction cs as [|c cs IH]; intros p; simpl.
  - by rewrite app_nil_r.
  - rewrite IH, children_append, <- app_assoc. done.
Qed.

Lemma filter_all {A} (P : A → Prop) `{∀ x, Decision (P x)} (l : list A) :
  Forall P l → filter P l = l.
Proof.
  induction 1 as [|x l Hx _ IH]; [done|].
  by rewrite filter_cons, decide_True, IH.
Qed.





End Editors.

Example editors_three_of_four :
  let d : Dataset :=
    {[ u "Zitierempfehlung" :=
         u "Siegfried Gruber, Cher, Karl von Kaser and Anna B. *Census*. 2014" ]} in
  filter is_editor (e_children (title_stmt_of d
    (Build_TemplateData None None None None None None None None None None
       None None None None None None None)))
  = [ editor_elem (u "Siegfried", u "Gruber");
      editor_elem (u "Karl von", u "Kaser") ].
Proof. vm_compute. reflexivity. Qed.

(** The reading of the specification on a name of three tokens and on
    a name of one, from the rules of [tokens] and [name_split] alone. *)
Example name_split_three_tokens :
  name_split (u "Karl von Kaser") (Some (u "Karl von", u "Kaser"))
  ∧ name_split (u "Cher") None.
Proof.
  split.
  - apply (name_split_two (u "Karl von Kaser") [u "Karl"; u "von"]
             (u "Kaser")); [|done].
    apply (tokens_word [] (u "Karl") (u " von Kaser"));
      [done|by vm_compute|by vm_compute|by intros c [= <-]|].
    apply (tokens_word (u " ") (u "von") (u " Kaser"));
      [by vm_compute|by vm_compute|by vm_compute|by intros c [= <-]|].
    apply (tokens_word (u " ") (u "Kaser") []);
      [by vm_compute|by vm_compute|by vm_compute|done|].
    by apply tokens_none.
  - apply (name_split_short (u "Cher") [u "Cher"]); [|simpl; lia].
    apply (tokens_word [] (u "Cher") [] []);
      [done|by vm_compute|by vm_compute|done|].
    by apply tokens_none.
Qed.

(** The author list of a clause with a comma and an [and], from the
    rules of [author_list] alone. *)
Example author_list_three_names :
  author_list (u "Siegfried Gruber, Cher and Karl Kaser ")
    [u "Siegfried Gruber"; u "Cher"; u "Karl Kaser"].
Proof.
  assert (∀ (s : list N) (c : N), bool_decide (c ∈ s) = false → c ∉ s)
    as Hout.
  { intros s c Hb Hin. by rewrite (bool_decide_eq_true_2 _ Hin) in Hb. }
  assert (∀ s, contains AND s = false → ¬ occurs AND s) as Hno.
  { intros s Hc Ho. apply contains_true in Ho. congruence. }
  exists (u "Siegfried Gruber, Cher and Karl Kaser"),
    [u "Siegfried Gruber"; u " Cher"; u "Karl Kaser"].
  split; [|split].
  - exists [], (u " "). repeat split; try done.
    + intros c. vm_compute. by intros [= <-].
    + intros c. vm_compute. by intros [= <-].
  - apply (separated_comma (u "Siegfried Gruber") (u " Cher and Karl Kaser"));
      [apply Hout; by vm_compute|apply Hno; by vm_compute|].
    apply (separated_and (u " Cher") (u "Karl Kaser"));
      [apply Hout; by vm_compute|apply Hno; by vm_compute|].
    apply separated_last; [apply Hout; by vm_compute|apply Hno; by vm_compute].
  - apply names_keep; [by vm_compute| |].
    { exists [], []. repeat split; try done.
      + intros c. vm_compute. by intros [= <-].
      + intros c. vm_compute. by intros [= <-]. }
    apply names_keep; [by vm_compute| |].
    { exists (u " "), []. repeat split; try done.
      + intros c. vm_compute. by intros [= <-].
      + intros c. vm_compute. by intros [= <-]. }
    apply names_keep; [by vm_compute| |].
    { exists [], []. repeat split; try done.
      + intros c. vm_compute. by intros [= <-].
      + intros c. vm_compute. by intros [= <-]. }
    constructor.
Qed.

(** ** Inline markup *)

Section Markup.
Implicit Types s text pre body rest x : list N.
Implicit Types ps : list nat.
Implicit Types parts : list (part_type * list N).

Lemma run_nostar_span s : run_nostar s = length (fst (span_not STAR s)).
Proof.
  induction s as [|c s IH]; [done|]. simpl.
  destruct (c =? STAR)%N; [done|]. destruct (span_not STAR s). simpl in *.
  by rewrite IH.
Qed.

(** A match at the head of [s]: a star, a non-empty body without star,
    a star. *)
Lemma italic_at_Some s n :
  italic_at s = Some n →
  ∃ body rest,
    s = STAR :: body ++ STAR :: rest ∧ length body = n ∧ body ≠ []
    ∧ STAR ∉ body.
Proof.
  destruct s as [|c r]; [done|]. simpl.
  destruct (N.eqb_spec c STAR) as [->|]; [|done].
  rewrite run_nostar_span.
  pose proof (span_not_app STAR r) as Hr.
  pose proof (span_not_fst STAR r) as Hb.
  pose proof (span_not_snd STAR r) as Hx.
  destruct (span_not STAR r) as [body tl]. simpl in *.
  destruct body as [|b body']; [done|]. cbn [length].
  rewrite Hr, lookup_app_r by done. rewrite Nat.sub_diag.
  destruct tl as [|x rest]; [done|]. intros [= <-].
  rewrite (Hx x rest eq_refl). by exists (b :: body'), rest.
Qed.

Lemma italic_at_match body rest :
  body ≠ [] → STAR ∉ body →
  italic_at (STAR :: body ++ STAR :: rest) = Some (length body).
Proof.
  intros Hne Hb. simpl. rewrite run_nostar_span.
  rewrite span_not_stop by done. simpl.
  destruct body as [|b body']; [done|]. cbn [length].
  change (S (length body')) with (length (b :: body')).
  rewrite lookup_app_r by done. by rewrite Nat.sub_diag.
Qed.

(** The leftmost match of [s]. *)
Lemma search_italic_Some s pos ms me :
  search_italic s pos = Some (ms, me) →
  ∃ pre body rest,
    s = pre ++ STAR :: body ++ STAR :: rest
    ∧ ms = pos + length pre ∧ me = ms + length body + 2
    ∧ body ≠ [] ∧ STAR ∉ body.
Proof.
  revert pos. induction s as [|c r IH]; intros pos; [done|].
  cbn [search_italic]. destruct (italic_at (c :: r)) as [n|] eqn:E.
  - intros [= <- <-]. apply italic_at_Some in E as (body & rest & -> & <- & ? & ?).
    exists [], body, rest. simpl. repeat split; [lia|done|done].
  - intros Hs. apply IH in Hs as (pre & body & rest & -> & -> & -> & ? & ?).
    exists (c :: pre), body, rest. simpl. repeat split; [lia|done|done].
Qed.

Lemma search_italic_nostar s pos : STAR ∉ s → search_italic s pos = None.
Proof.
  revert pos. induction s as [|c r IH]; intros pos Hs; [done|].
  cbn [search_italic italic_at].
  destruct (N.eqb_spec c STAR) as [->|]; [set_solver|].
  apply IH. set_solver.
Qed.

(** A single star that is not followed by a closing star starts no
    match, and nothing before or after it does. *)
Lemma search_italic_single_star pre rest pos :
  STAR ∉ pre → STAR ∉ rest → search_italic (pre ++ STAR :: rest) pos = None.
Proof.
  revert pos. induction pre as [|c r IH]; intros pos Hp Hr.
  - cbn [app search_italic italic_at]. rewrite N.eqb_refl, run_nostar_span.
    rewrite span_not_none by done. cbn [fst].
    destruct (length rest) as [|k] eqn:Hl; [by apply search_italic_nostar|].
    rewrite (lookup_ge_None_2 rest (S k)) by lia.
    by apply search_italic_nostar.
  - cbn [app search_italic italic_at].
    destruct (N.eqb_spec c STAR) as [->|]; [set_solver|].
    apply IH; set_solver.
Qed.

Lemma omit_app ps i s1 s2 :
  omit ps i (s1 ++ s2) = omit ps i s1 ++ omit ps (i + length s1) s2.
Proof.
  revert i. induction s1 as [|c s1 IH]; intros i; simpl.
  - by rewrite Nat.add_0_r.
  - rewrite IH. replace (S i + length s1) with (i + S (length s1)) by lia.
    by destruct (bool_decide (i ∈ ps)).
Qed.

Lemma omit_ext ps qs i s :
  (∀ j, i ≤ j < i + length s → j ∈ ps ↔ j ∈ qs) →
  omit ps i s = omit qs i s.
Proof.
  revert i. induction s as [|c s IH]; intros i Hj; [done|]. simpl.
  rewrite (IH (S i)) by (intros j ?; apply Hj; simpl; lia).
  assert (i ∈ ps ↔ i ∈ qs) as Hi by (apply Hj; simpl; lia).
  destruct (decide (i ∈ ps)) as [Hin|Hin].
  - rewrite !bool_decide_eq_true_2; [done|by apply Hi|done].
  - rewrite !bool_decide_eq_false_2; [done|by rewrite <- Hi|done].
Qed.

Lemma omit_nil i s : omit [] i s = s.
Proof.
  revert i. induction s as [|c s IH]; intros i; [done|]. simpl.
  by rewrite IH.
Qed.

Lemma omit_none ps i s :
  (∀ j, j ∈ ps → j < i ∨ i + length s ≤ j) → omit ps i s = s.
Proof.
  intros Hj. rewrite <- (omit_nil i s) at 2. apply omit_ext.
  intros j Hr. split; [|by intros ?%elem_of_nil].
  intros Hin. apply Hj in Hin. lia.
Qed.

Lemma omit_here ps i c s : i ∈ ps → omit ps i (c :: s) = omit ps (S i) s.
Proof. intros Hi. simpl. by rewrite bool_decide_eq_true_2. Qed.

(** One match: what the loop body appends, and what [omit] keeps of the
    text from the current position to the end of the match. *)
Lemma markdown_step_match text parts pos pre body rest :
  drop pos text = pre ++ STAR :: body ++ STAR :: rest →
  let ms := pos + length pre in
  let me := ms + length body + 2 in
  ∃ front,
    markdown_step text (parts, pos) (ms, me)
    = (parts ++ front ++ [(PItalic, body)], me)
    ∧ contents front = pre
    ∧ (∀ c, (PItalic, c) ∉ front)
    ∧ drop me text = rest.
Proof.
  intros Hd ms me.
  assert (slice text pos ms = pre) as Hpre.
  { unfold slice, ms. rewrite Hd. replace (pos + length pre - pos)
      with (length pre) by lia. by rewrite take_app_length. }
  assert (drop (ms + 1) text = body ++ STAR :: rest) as Hd1.
  { unfold ms. rewrite <- Nat.add_assoc, <- drop_drop, Hd.
    by rewrite drop_app_add. }
  assert (slice text (ms + 1) (me - 1) = body) as Hbody.
  { unfold slice. rewrite Hd1. replace (me - 1 - (ms + 1))
      with (length body) by (unfold me; lia). by rewrite take_app_length. }
  assert (drop me text = rest) as Hrest.
  { unfold me. replace (ms + length body + 2) with ((ms + 1) + (length body + 1))
      by lia.
    rewrite <- drop_drop, Hd1. by rewrite drop_app_add. }
  unfold markdown_step. rewrite Hpre, Hbody.
  destruct (Nat.ltb_spec pos ms) as [Hlt|Hge].
  - exists [(PText, pre)]. rewrite <- app_assoc.
    split; [done|]. split; [|split; [|done]].
    + unfold contents. simpl. by rewrite app_nil_r.
    + intros c Hc. by apply list_elem_of_singleton in Hc.
  - exists []. split; [done|]. split; [|split; [|done]].
    + assert (length pre = 0) as Hz by (unfold ms in Hge; lia).
      by destruct pre.
    + intros c. apply not_elem_of_nil.
Qed.

Lemma contents_app parts1 parts2 :
  contents (parts1 ++ parts2) = contents parts1 ++ contents parts2.
Proof. unfold contents. by rewrite fmap_app, concat_app. Qed.

Local Ltac loop_without_match :=
  cbn [foldl fst snd match_delimiters flat_map last from_option];
  rewrite omit_nil; repeat split; try done; try lia;
  try (match goal with H : _ ∈ [] |- _ => by apply elem_of_nil in H end);
  try (intros; by left); try (simpl; lia).

(** The loop of [markdown_to_tei] from position [pos] on: what has been
    collected, followed by the text left after the last match, is the
    text from [pos] on without the delimiters of the matches. *)
Lemma markdown_loop text fuel pos parts :
  pos ≤ length text →
  let matches := finditer_from fuel text pos in
  let st := foldl (markdown_step text) (parts, pos) matches in
  contents (fst st) ++ drop (snd st) text
  = contents parts ++ omit (match_delimiters matches) pos (drop pos text)
  ∧ (∀ p, p ∈ match_delimiters matches → pos ≤ p ∧ text !! p = Some STAR)
  ∧ snd st ≤ length text
  ∧ snd st = from_option snd pos (last matches)
  ∧ (matches = [] → fst st = parts)
  ∧ (∀ c, (PItalic, c) ∈ fst st →
          (PItalic, c) ∈ parts ∨ (c ≠ [] ∧ STAR ∉ c))
  ∧ length parts + length matches ≤ length (fst st).
Proof.
  revert pos parts. induction fuel as [|fuel IH]; intros pos parts Hpos;
    cbn [finditer_from].
  { loop_without_match. }
  destruct (search_italic (drop pos text) pos) as [[ms me]|] eqn:E.
  2:{ loop_without_match. }
  apply search_italic_Some in E
    as (pre & body & rest & Hd & -> & -> & Hne & Hstar).
  destruct (markdown_step_match text parts pos pre body rest Hd)
    as (front & Hstep & Hfront & Hnoit & Hrest).
  set (ms := pos + length pre) in *. set (me := ms + length body + 2) in *.
  assert (length (drop pos text) = length pre + length body + 2 + length rest)
    as Hlen.
  { rewrite Hd, !length_app. simpl. rewrite length_app. simpl. lia. }
  rewrite length_drop in Hlen.
  assert (me ≤ length text) as Hme by (unfold me, ms; lia).
  cbn [foldl]. rewrite Hstep.
  specialize (IH me (parts ++ front ++ [(PItalic, body)]) Hme).
  cbn zeta in IH.
  destruct IH as (IHc & IHp & IHle & IHlast & IHnil & IHit & IHlen).
  set (M := finditer_from fuel text me) in *.
  set (st := foldl (markdown_step text) _ M) in *.
  assert (text !! ms = Some STAR ∧ text !! (me - 1) = Some STAR) as [Hs1 Hs2].
  { assert (∀ k, text !! (pos + k) = drop pos text !! k) as Hk
      by (intros k; by rewrite lookup_drop).
    split.
    - unfold ms. rewrite Hk, Hd, lookup_app_r by done.
      by rewrite Nat.sub_diag.
    - replace (me - 1) with (pos + (length pre + S (length body)))
        by (unfold me, ms; lia).
      rewrite Hk, Hd, lookup_app_r by lia.
      replace (length pre + S (length body) - length pre)
        with (S (length body)) by lia.
      simpl. rewrite lookup_app_r by done. by rewrite Nat.sub_diag. }
  split; [|split; [|split; [|split; [|split; [|split]]]]].
  - rewrite IHc, !contents_app, Hfront, Hrest.
    change (contents [(PItalic, body)]) with (body ++ []).
    rewrite app_nil_r, <- !app_assoc. f_equal.
    cbn [match_delimiters flat_map fst snd app].
    fold (match_delimiters M). set (D := match_delimiters M) in *.
    rewrite Hd, omit_app.
    rewrite (omit_none _ pos pre).
    2:{ intros j Hj. apply elem_of_cons in Hj as [->|Hj]; [unfold ms; lia|].
        apply elem_of_cons in Hj as [->|Hj]; [unfold me, ms; lia|].
        apply IHp in Hj as [Hj _]. unfold me, ms in Hj. lia. }
    f_equal. fold ms. rewrite omit_here by (by left).
    rewrite omit_app. rewrite (omit_none _ (S ms) body).
    2:{ intros j Hj. apply elem_of_cons in Hj as [->|Hj]; [lia|].
        apply elem_of_cons in Hj as [->|Hj]; [unfold me; lia|].
        apply IHp in Hj as [Hj _]. unfold me in Hj. lia. }
    f_equal. replace (S ms + length body) with (me - 1) by (unfold me; lia).
    rewrite omit_here by (right; by left).
    replace (S (me - 1)) with me by (unfold me; lia).
    apply omit_ext. intros j Hj. split.
    + intros Hin. by do 2 right.
    + intros Hin. apply elem_of_cons in Hin as [->|Hin]; [unfold me in Hj; lia|].
      apply elem_of_cons in Hin as [->|Hin]; [lia|done].
  - intros p Hp. cbn [match_delimiters flat_map fst snd app] in Hp.
    apply elem_of_cons in Hp as [->|Hp]; [split; [unfold ms; lia|done]|].
    apply elem_of_cons in Hp as [->|Hp];
      [split; [unfold me, ms; lia|done]|].
    apply IHp in Hp as [Hp ?]. split; [unfold me, ms in Hp; lia|done].
  - done.
  - rewrite IHlast. rewrite last_cons. by destruct (last M).
  - done.
  - intros c Hc. apply IHit in Hc as [Hc|Hc]; [|by right].
    rewrite !elem_of_app in Hc. destruct Hc as [Hc|[Hc|Hc]].
    + by left.
    + by apply Hnoit in Hc.
    + apply list_elem_of_singleton in Hc as [= ->]. by right.
  - rewrite !length_app in IHlen. simpl in *. lia.
Qed.

(** The text in front of the first star is determined. *)
Lemma first_star_unique x x' r r' :
  STAR ∉ x → STAR ∉ x' → x ++ STAR :: r = x' ++ STAR :: r' →
  x = x' ∧ r = r'.
Proof.
  intros Hx Hx' He.
  pose proof (span_not_stop STAR x r Hx) as H1.
  pose proof (span_not_stop STAR x' r' Hx') as H2.
  rewrite He, H2 in H1. by injection H1 as -> ->.
Qed.

Lemma first_star t :
  ∃ t1 b, t ++ [STAR] = t1 ++ STAR :: b ∧ STAR ∉ t1.
Proof.
  destruct (list_elem_of_split_l (t ++ [STAR]) STAR) as (t1 & b & ? & ?).
  { apply elem_of_app. right. by left. }
  by exists t1, b.
Qed.

Lemma has_run_cons c s : has_run s → has_run (c :: s).
Proof. intros (a & x & b & -> & ? & ?). by exists (c :: a), x, b. Qed.

Lemma has_run_app s t : has_run s → has_run (s ++ t).
Proof.
  intros (a & x & b & -> & ? & ?). exists a, x, (b ++ t).
  by rewrite <- !app_assoc, <- !app_comm_cons, <- app_assoc.
Qed.

Lemma no_run_tail c s : ¬ has_run (c :: s) → ¬ has_run s.
Proof. intros Hn Hs. by apply Hn, has_run_cons. Qed.

(** A text without star holds no run, also with one star behind it. *)
Lemma no_star_no_run s : STAR ∉ s → ¬ has_run s.
Proof.
  intros Hs (a & x & b & -> & _ & _). apply Hs.
  apply elem_of_app. right. by left.
Qed.

Lemma one_star_no_run pre rest :
  STAR ∉ pre → STAR ∉ rest → ¬ has_run (pre ++ STAR :: rest).
Proof.
  intros Hp Hr (a & x & b & He & _ & Hx).
  destruct (decide (STAR ∈ a)) as [Ha|Ha].
  - apply list_elem_of_split_l in Ha as (a1 & a2 & -> & Ha1).
    rewrite <- app_assoc, <- app_comm_cons in He.
    apply first_star_unique in He as [-> He]; [|done|done].
    apply Hr. rewrite He. apply elem_of_app. right. by left.
  - apply first_star_unique in He as [-> He]; [|done|done].
    apply Hr. rewrite He. apply elem_of_app. right. by left.
Qed.

(** A run at the head of a text is found there. *)
Lemma italic_at_run x rest :
  x ≠ [] → STAR ∉ x → italic_at (STAR :: x ++ STAR :: rest) = Some (length x).
Proof.
  intros Hne Hx. simpl. rewrite run_nostar_span.
  rewrite span_not_stop by done. simpl.
  destruct x as [|c x']; [done|]. cbn [length].
  change (S (length x')) with (length (c :: x')).
  rewrite lookup_app_r by done. by rewrite Nat.sub_diag.
Qed.

(** The search finds a run whenever the text holds one. *)
Lemma search_italic_has_run s pos :
  has_run s → search_italic s pos ≠ None.
Proof.
  intros (a & x & b & -> & Hne & Hx). revert pos.
  induction a as [|c a IH]; intros pos.
  - cbn [app]. destruct x as [|c x']; [done|].
    cbn [search_italic]. rewrite (italic_at_run (c :: x') b) by done. done.
  - cbn [app search_italic]. destruct (italic_at _); [done|]. apply IH.
Qed.

Lemma search_italic_no_run s pos :
  ¬ has_run s → search_italic s pos = None.
Proof.
  intros Hn. destruct (search_italic s pos) as [[ms me]|] eqn:E; [|done].
  destruct Hn. apply search_italic_Some in E as (pre & body & rest & -> & _ & _ & ? & ?).
  by exists pre, body, rest.
Qed.

(** The match of the search is the leftmost run: no run ends at or
    before its opening star. *)
Lemma search_italic_leftmost s pos ms me :
  search_italic s pos = Some (ms, me) →
  ∃ pre x rest,
    s = pre ++ STAR :: x ++ STAR :: rest
    ∧ ms = pos + length pre ∧ me = ms + length x + 2
    ∧ x ≠ [] ∧ (STAR ∉ x) ∧ ¬ has_run (pre ++ [STAR]).
Proof.
  revert pos. induction s as [|c r IH]; intros pos; [done|].
  cbn [search_italic]. destruct (italic_at (c :: r)) as [n|] eqn:E.
  - intros [= <- <-].
    apply italic_at_Some in E as (body & rest & -> & <- & ? & ?).
    exists [], body, rest. simpl. repeat split; [lia|done|done|].
    apply (one_star_no_run [] []); apply not_elem_of_nil.
  - intros Hs.
    apply IH in Hs as (pre & x & rest & -> & -> & -> & Hne & Hx & Hleft).
    exists (c :: pre), x, rest. simpl. repeat split; [lia|done|done|].
    intros (a & y & b & He & Hyne & Hy).
    destruct a as [|c' a]; simpl in He.
    + injection He as -> He.
      assert (∃ b', pre ++ STAR :: x ++ STAR :: rest = y ++ STAR :: b')
        as [b' Hb'].
      { exists (b ++ (x ++ STAR :: rest)).
        change (pre ++ STAR :: x ++ STAR :: rest)
          with (pre ++ [STAR] ++ x ++ STAR :: rest).
        rewrite app_assoc, He, <- app_assoc. done. }
      rewrite Hb', italic_at_run in E by done. done.
    + injection He as _ He. apply Hleft. by exists a, y, b.
Qed.

(** The leftmost run of a text is determined. *)
Lemma leftmost_run_unique pre x rest pre' x' rest' :
  pre ++ STAR :: x ++ STAR :: rest = pre' ++ STAR :: x' ++ STAR :: rest' →
  x ≠ [] → STAR ∉ x → STAR ∉ x' →
  ¬ has_run (pre' ++ [STAR]) →
  length pre ≤ length pre' →
  pre = pre' ∧ x = x' ∧ rest = rest'.
Proof.
  intros He Hne Hx Hx' Hleft Hlen.
  assert (∃ k, pre' = pre ++ k) as [k ->].
  { exists (drop (length pre) pre').
    apply (f_equal (take (length pre))) in He.
    rewrite take_app_length, take_app_le in He by done.
    rewrite He at 1. by rewrite take_drop. }
  rewrite <- app_assoc in He. apply app_inv_head in He.
  destruct k as [|c t].
  - simpl in He. injection He as He.
    apply first_star_unique in He as [-> ->]; [|done|done].
    by rewrite app_nil_r.
  - simpl in He. injection He as <- He. destruct Hleft.
    destruct (first_star t) as (t1 & b & Ht & Ht1).
    assert (t1 = x) as ->.
    { assert (t1 ++ STAR :: b ++ x' ++ STAR :: rest' = x ++ STAR :: rest)
        as He'.
      { rewrite He.
        transitivity ((t ++ [STAR]) ++ x' ++ STAR :: rest');
          [|by rewrite <- app_assoc].
        rewrite Ht. by rewrite <- app_assoc. }
      by apply first_star_unique in He' as [-> _]. }
    exists pre, x, b. rewrite <- app_assoc. cbn [app]. rewrite Ht.
    split; [done|]. done.
Qed.

(** A text has one reading in segments. *)
Lemma to_segments_unique text parts parts' :
  to_segments text parts → to_segments text parts' → parts = parts'.
Proof.
  intros H1. revert parts'.
  induction H1 as [|text Hne Hno|pre x rest parts Hleft Hne Hx Hrest IH];
    intros parts' H2.
  - inversion H2 as [|text' Hne' Hno' Ht|pre' x' rest' q Hl' Hn' Hx' Hr' Ht];
      [done|done|by destruct pre'].
  - inversion H2 as [|text' Hne' Hno' Ht|pre' x' rest' q Hl' Hn' Hx' Hr' Ht];
      [congruence|done|].
    destruct Hno. rewrite <- Ht. by exists pre', x', rest'.
  - inversion H2 as [He|text' Hne' Hno' Ht|pre' x' rest' q Hl' Hn' Hx' Hr' Ht].
    + by destruct pre.
    + destruct Hno'. by exists pre, x, rest.
    + assert (pre = pre' ∧ x = x' ∧ rest = rest') as (-> & -> & ->).
      { destruct (decide (length pre ≤ length pre')) as [Hle|Hgt].
        - by apply (leftmost_run_unique pre x rest pre' x' rest').
        - symmetry in Ht.
          destruct (leftmost_run_unique pre' x' rest' pre x rest)
            as (-> & -> & ->); [done..|lia|done]. }
      f_equal. f_equal. by apply IH.
Qed.

(** The contents of the segments are the text without the two stars of
    each run. *)
Lemma contents_plain pre : contents (plain pre) = pre.
Proof. destruct pre; [done|]. unfold contents. simpl. by rewrite app_nil_r. Qed.

(** One round of the loop on the leftmost run. *)
Lemma markdown_step_run text parts pos pre x rest :
  drop pos text = pre ++ STAR :: x ++ STAR :: rest →
  let ms := pos + length pre in
  let me := ms + length x + 2 in
  markdown_step text (parts, pos) (ms, me)
  = (parts ++ plain pre ++ [(PItalic, x)], me)
  ∧ drop me text = rest.
Proof.
  intros Hd ms me.
  assert (slice text pos ms = pre) as Hpre.
  { unfold slice, ms. rewrite Hd. replace (pos + length pre - pos)
      with (length pre) by lia. by rewrite take_app_length. }
  assert (drop (ms + 1) text = x ++ STAR :: rest) as Hd1.
  { unfold ms. rewrite <- Nat.add_assoc, <- drop_drop, Hd.
    by rewrite drop_app_add. }
  assert (slice text (ms + 1) (me - 1) = x) as Hbody.
  { unfold slice. rewrite Hd1. replace (me - 1 - (ms + 1))
      with (length x) by (unfold me; lia). by rewrite take_app_length. }
  assert (drop me text = rest) as Hrest.
  { unfold me. replace (ms + length x + 2) with ((ms + 1) + (length x + 1))
      by lia.
    rewrite <- drop_drop, Hd1. by rewrite drop_app_add. }
  split; [|done].
  unfold markdown_step. rewrite Hpre, Hbody.
  destruct (Nat.ltb_spec pos ms) as [Hlt|Hge].
  - destruct pre as [|c pre']; [unfold ms in Hlt; simpl in Hlt; lia|].
    cbn [plain]. by rewrite <- app_assoc.
  - assert (length pre = 0) as Hz by (unfold ms in Hge; lia).
    destruct pre; [done|simpl in Hz; lia].
Qed.

(** The loop of [markdown_to_tei] from [pos] on, followed by its last
    step, collects the segments of the text from [pos] on. *)
Lemma markdown_loop_segments fuel text pos parts0 :
  pos ≤ length text → length text - pos ≤ fuel →
  let st :=
    foldl (markdown_step text) (parts0, pos) (finditer_from fuel text pos) in
  ∃ parts,
    to_segments (drop pos text) parts
    ∧ (if snd st <? length text
       then fst st ++ [(PText, drop (snd st) text)] else fst st)
      = parts0 ++ parts.
Proof.
  revert pos parts0. induction fuel as [|fuel IH]; intros pos parts0 Hpos Hfuel;
    cbn [finditer_from foldl fst snd].
  { assert (pos = length text) as -> by lia.
    rewrite Nat.ltb_irrefl, drop_all. exists [].
    split; [constructor|by rewrite app_nil_r]. }
  destruct (search_italic (drop pos text) pos) as [[ms me]|] eqn:E.
  2:{ cbn [foldl fst snd]. destruct (Nat.ltb_spec pos (length text)) as [Hlt|Hge].
      - exists [(PText, drop pos text)]. split; [|done].
        apply segments_plain.
        + intros Hd. apply (f_equal length) in Hd.
          rewrite length_drop in Hd. simpl in Hd. lia.
        + intros Hr. by apply (search_italic_has_run _ pos) in Hr.
      - rewrite drop_ge by done. exists [].
        split; [constructor|by rewrite app_nil_r]. }
  apply search_italic_leftmost in E
    as (pre & x & rest & Hd & -> & -> & Hne & Hx & Hleft).
  destruct (markdown_step_run text parts0 pos pre x rest Hd) as [Hstep Hrest].
  cbn zeta in Hstep, Hrest.
  set (me := pos + length pre + length x + 2) in *.
  assert (length (drop pos text) = length pre + length x + 2 + length rest)
    as Hlen.
  { rewrite Hd, !length_app. simpl. rewrite length_app. simpl. lia. }
  rewrite length_drop in Hlen.
  cbn [foldl]. rewrite Hstep.
  destruct (IH me (parts0 ++ plain pre ++ [(PItalic, x)]))
    as (parts & Hseg & Hfin); [unfold me; lia|unfold me; lia|].
  cbn zeta in Hfin. rewrite Hrest in Hseg.
  exists (plain pre ++ (PItalic, x) :: parts). split.
  - rewrite Hd. by apply segments_run.
  - rewrite Hfin, <- !app_assoc. done.
Qed.

(** [markdown_to_tei] returns the segments of a text that is not
    empty. *)
Lemma markdown_to_tei_segments text :
  text ≠ [] →
  ∃ parts, markdown_to_tei text = Some parts ∧ to_segments text parts.
Proof.
  intros Hne. unfold markdown_to_tei.
  apply nonempty_true in Hne as ->. cbn [negb].
  destruct (markdown_loop_segments (length text) text 0 [])
    as (parts & Hseg & Hfin); [lia|lia|].
  cbn zeta in Hfin. fold (finditer_italic text) in Hfin.
  destruct (foldl (markdown_step text) ([], 0) (finditer_italic text))
    as [P cp]. cbn [fst snd] in Hfin. rewrite drop_0 in Hseg.
  exists parts. by rewrite Hfin.
Qed.

(** C7, amended.  [markdown_to_tei] returns [None], not a sequence, for
    the empty text.  For every other text it returns a non-empty list
    of parts, and these are the segments of the text as [to_segments]
    reads it, without reference to the matcher: every emphasized run
    [*x*], leftmost first and each behind the end of the one before,
    gives an emphasis part [x]; the text between the runs, in front of
    the first and behind the last gives the plain parts.  The contents
    of the parts, concatenated in order, are the text without the
    characters at the delimiter positions of the matches, each of which
    holds a star; every emphasis part is non-empty and free of stars;
    what follows the last match is one plain part, and a text without
    any match is one plain part.  In particular a text with a single
    star is one plain part.  A text has one reading in segments
    only. *)
Theorem markdown_segments :
  markdown_to_tei [] = None
  ∧ (∀ text, text ≠ [] →
     ∃ parts,
       markdown_to_tei text = Some parts ∧ parts ≠ []
       ∧ contents parts = omit (delimiters text) 0 text
       ∧ (∀ p, p ∈ delimiters text → text !! p = Some STAR)
       ∧ (∀ c, (PItalic, c) ∈ parts → c ≠ [] ∧ STAR ∉ c)
       ∧ (last_match_end text < length text →
          last parts = Some (PText, drop (last_match_end text) text))
       ∧ (finditer_italic text = [] → parts = [(PText, text)])
       ∧ to_segments text parts)
  ∧ (∀ pre rest, STAR ∉ pre → STAR ∉ rest →
     markdown_to_tei (pre ++ STAR :: rest)
     = Some [(PText, pre ++ STAR :: rest)])
  ∧ (∀ text parts parts',
       to_segments text parts → to_segments text parts' → parts = parts').
Proof.
  assert (∀ text, text ≠ [] →
     ∃ parts,
       markdown_to_tei text = Some parts ∧ parts ≠ []
       ∧ contents parts = omit (delimiters text) 0 text
       ∧ (∀ p, p ∈ delimiters text → text !! p = Some STAR)
       ∧ (∀ c, (PItalic, c) ∈ parts → c ≠ [] ∧ STAR ∉ c)
       ∧ (last_match_end text < length text →
          last parts = Some (PText, drop (last_match_end text) text))
       ∧ (finditer_italic text = [] → parts = [(PText, text)])
       ∧ to_segments text parts) as Hmain.
  { intros text Hne.
    destruct (markdown_to_tei_segments text Hne) as (parts0 & Hparts0 & Hseg).
    revert Hparts0.
    unfold markdown_to_tei, delimiters, last_match_end.
    apply nonempty_true in Hne as Hne'. rewrite Hne'. cbn [negb].
    destruct (markdown_loop text (length text) 0 [] (Nat.le_0_l _))
      as (Hc & Hp & Hle & Hlast & Hnil & Hit & Hlen).
    fold (finditer_italic text) in *.
    destruct (foldl (markdown_step text) ([], 0) (finditer_italic text))
      as [P cp]. cbn [fst snd] in *.
    rewrite drop_0 in Hc. change (contents []) with (@nil N) in Hc.
    cbn [app] in Hc.
    assert (0 < length text) as Hpos by (destruct text; [done|simpl; lia]).
    destruct (Nat.ltb_spec cp (length text)) as [Hlt|Hge];
      intros [= <-]; eexists; (split; [reflexivity|]).
    - split; [by destruct P|]. split.
      { rewrite contents_app. unfold contents at 2. simpl.
        by rewrite app_nil_r. }
      split; [intros p Hin; by apply Hp|]. split.
      { intros c Hin. apply elem_of_app in Hin as [Hin|Hin].
        - apply Hit in Hin as [Hin|Hin]; [by apply elem_of_nil in Hin|done].
        - by apply list_elem_of_singleton in Hin. }
      split; [intros _; by rewrite last_snoc, Hlast|].
      split; [|done].
      intros Hm. rewrite (Hnil Hm), Hlast, Hm. done.
    - assert (cp = length text) as -> by lia.
      rewrite drop_all, app_nil_r in Hc.
      assert (finditer_italic text ≠ []) as Hm.
      { intros Hm. rewrite Hm in Hlast. simpl in Hlast. lia. }
      split.
      { intros ->. destruct (finditer_italic text); [done|simpl in Hlen; lia]. }
      split; [done|]. split; [intros p Hin; by apply Hp|]. split.
      { intros c Hin. apply Hit in Hin as [Hin|Hin];
          [by apply elem_of_nil in Hin|done]. }
      split; [rewrite <- Hlast; lia|]. split; [done|done]. }
  split; [done|]. split; [done|]. split; [|apply to_segments_unique].
  intros pre rest Hpre Hrest.
  destruct (Hmain (pre ++ STAR :: rest))
    as (parts & -> & _ & _ & _ & _ & _ & Hm & _);
    [by destruct pre|].
  rewrite Hm; [done|]. unfold finditer_italic.
  rewrite length_app. cbn [length]. rewrite Nat.add_succ_r.
  cbn [finditer_from]. rewrite drop_0.
  by rewrite search_italic_single_star.
Qed.
End Markup.

(** C7 on the text of the specification. *)
Lemma markdown_segments_witness :
  ∃ parts,
    markdown_to_tei (u "a *b* c") = Some parts ∧ parts ≠ []
    ∧ contents parts = omit (delimiters (u "a *b* c")) 0 (u "a *b* c")
    ∧ (∀ p, p ∈ delimiters (u "a *b* c") → u "a *b* c" !! p = Some STAR)
    ∧ (∀ c, (PItalic, c) ∈ parts → c ≠ [] ∧ STAR ∉ c)
    ∧ (last_match_end (u "a *b* c") < length (u "a *b* c") →
       last parts
       = Some (PText, drop (last_match_end (u "a *b* c")) (u "a *b* c")))
    ∧ (finditer_italic (u "a *b* c") = [] → parts = [(PText, u "a *b* c")])
    ∧ to_segments (u "a *b* c") parts.
Proof.
  apply (proj1 (proj2 markdown_segments) (u "a *b* c")). discriminate.
Defined.

Example markdown_three_parts :
  markdown_to_tei (u "a *b* c")
  = Some [(PText, u "a "); (PItalic, u "b"); (PText, u " c")]
  ∧ markdown_to_tei (u "plain") = Some [(PText, u "plain")]
  ∧ omit (delimiters (u "a *b* c")) 0 (u "a *b* c") = u "a b c".
Proof. repeat split; vm_compute; reflexivity. Qed.

(** The reading of the specification on its own example, from the
    rules of [to_segments] alone. *)
Example to_segments_three_parts :
  to_segments (u "a *b* c")
    [(PText, u "a "); (PItalic, u "b"); (PText, u " c")].
Proof.
  assert (∀ (s : list N) (c : N), bool_decide (c ∈ s) = false → c ∉ s)
    as Hout.
  { intros s c Hb Hin. by rewrite (bool_decide_eq_true_2 _ Hin) in Hb. }
  change (u "a *b* c") with (u "a " ++ STAR :: u "b" ++ STAR :: u " c").
  apply (segments_run (u "a ") (u "b") (u " c") [(PText, u " c")]).
  - apply (one_star_no_run (u "a ") []); apply Hout; vm_compute; reflexivity.
  - discriminate.
  - apply Hout. vm_compute. reflexivity.
  - apply segments_plain; [discriminate|].
    apply no_star_no_run, Hout. vm_compute. reflexivity.
Qed.

(** C7, as stated, fails on the empty text: the result is [None], which
    is not the empty sequence. *)
Lemma markdown_empty_is_none :
  markdown_to_tei [] = None ∧ markdown_to_tei [] ≠ Some [].
Proof. split; [reflexivity|discriminate]. Qed.

(** ** Determinism of the synthesis *)

Section Determinism.
Context `{Runtime}.

Lemma appends_ret {A} (a : A) : appends (mret a).
Proof. exists a, []. intros w. by rewrite app_nil_r. Qed.

Lemma appends_bind {A B} (m : Warn A) (k : A → Warn B) :
  appends m → (∀ a, appends (k a)) → appends (m ≫= k).
Proof.
  intros (a & o1 & Hm) Hk. destruct (Hk a) as (b & o2 & Hb).
  exists b, (o1 ++ o2). intros w. unfold mbind, warn_bind.
  by rewrite Hm, Hb, app_assoc.
Qed.

Lemma appends_warn msg : appends (warn msg).
Proof. by exists tt, [msg]. Qed.

Lemma appends_parse_file_entry entry field_name dataset_id :
  appends (parse_file_entry entry field_name dataset_id).
Proof.
  unfold parse_file_entry.
  repeat match goal with
         | |- appends (if ?b then _ else _) => destruct b
         | |- appends (_ ≫= _) => apply appends_bind; [|intros ?]
         | |- appends (mret _) => apply appends_ret
         | |- appends (warn _) => apply appends_warn
         end.
Qed.

Lemma appends_for_each {A S} (xs : list A) (body : S → A → Warn S) (s : S) :
  (∀ s x, appends (body s x)) → appends (for_each xs body s).
Proof.
  intros Hb. revert s. induction xs as [|x xs IH]; intros s; simpl.
  - apply appends_ret.
  - apply appends_bind; [apply Hb|apply IH].
Qed.

Ltac appends_step :=
  match goal with
  | |- appends (if ?b then _ else _) => destruct b
  | |- appends (let '(_, _) := ?p in _) => destruct p
  | |- appends (_ ≫= _) => apply appends_bind; [|intros ?]
  | |- appends (mret _) => apply appends_ret
  | |- appends (warn _) => apply appends_warn
  | |- appends (parse_file_entry _ _ _) => apply appends_parse_file_entry
  | |- appends (for_each _ _ _) => apply appends_for_each; intros ? ?
  end.

Lemma appends_csv_rs dataset dataset_id key rs_type fallback :
  appends (csv_rs dataset dataset_id key rs_type fallback).
Proof. unfold csv_rs. repeat appends_step. Qed.

Lemma appends_file_loop_body dataset dataset_id prefix mk_rs st i :
  appends (file_loop_body dataset dataset_id prefix mk_rs st i).
Proof. unfold file_loop_body. repeat appends_step. Qed.

Lemma appends_source_desc dataset : appends (source_desc_of dataset).
Proof.
  unfold source_desc_of, data_bibl_of, additional_bibl_of.
  repeat first [ apply appends_csv_rs | apply appends_file_loop_body
               | appends_step ].
Qed.

(** C4.  The tree that [create_tei_document] builds is a function of
    the record and the template data alone.  The only state the
    function touches is the list of warnings, to which it appends a
    list that is itself fixed by the record; the tree does not depend
    on the warnings collected before.  So two runs on the same record
    and template, the second starting from the warnings the first has
    left, build the same tree.  No node holds a time of the run: the
    publication year is the constant 2025. *)
Theorem create_tei_document_deterministic (dataset : Dataset)
    (template_data : TemplateData) :
  (∃ tree out, ∀ w,
      create_tei_document dataset template_data w = (tree, w ++ out))
  ∧ (∀ w1 w2,
       fst (create_tei_document dataset template_data w1)
       = fst (create_tei_document dataset template_data w2))
  ∧ (∀ w,
       let first := create_tei_document dataset template_data w in
       let second := create_tei_document dataset template_data (snd first) in
       fst second = fst first)
  ∧ e_children (pub_stmt_of dataset template_data) !! 5
    = Some (create_tei_element (u "date") (Some (u "2025"))
              [(u "when", u "2025"); (u "ana", u "dcterms:issued")]).
Proof.
  assert (appends (create_tei_document dataset template_data)) as (t & o & Ht).
  { unfold create_tei_document.
    apply appends_bind; [apply appends_source_desc|intros ?].
    apply appends_ret. }
  split; [by exists t, o|]. split; [|split].
  - intros w1 w2. by rewrite !Ht.
  - intros w. cbn zeta. by rewrite !Ht.
  - reflexivity.
Qed.
End Determinism.

(** ** The loop of the converter *)

Section Loop.
Context `{Runtime}.
Variable prettify_xml : Element → result pystr.
Variable write_file : list N → list N → list N → result unit.
Variable template_data : TemplateData.
Variable output_dir : list N.

Local Abbreviation process :=
  (process_dataset prettify_xml write_file template_data output_dir).
Local Abbreviation loop :=
  (main_loop prettify_xml write_file template_data output_dir).

(** A round either writes one more file or ends with an exception and
    writes nothing. *)
Lemma process_dataset_written i dataset st :
  match process i dataset st with
  | (st', None) => length (run_written st') = S (length (run_written st))
  | (st', Some _) => run_written st' = run_written st
  end.
Proof.
  unfold process_dataset.
  destruct (create_tei_document dataset template_data (run_warnings st))
    as [root ws].
  destruct (prettify_xml root) as [pretty|e]; [|done].
  destruct (split_max 1 (u "?>" ++ NL) pretty !! 1) as [body|]; [|done].
  destruct (write_file _ _ _); [|done].
  cbn [run_written]. rewrite length_app. simpl. lia.
Qed.

Lemma main_loop_app i ds1 ds2 st :
  loop i (ds1 ++ ds2) st
  = match loop i ds1 st with
    | (st1, None) => loop (i + length ds1) ds2 st1
    | (st1, Some e) => (st1, Some e)
    end.
Proof.
  revert i st. induction ds1 as [|d ds1 IH]; intros i st.
  - simpl. by rewrite Nat.add_0_r.
  - cbn [app main_loop]. destruct (process i d st) as [st' [e|]]; [done|].
    rewrite IH. replace (S i + length ds1) with (i + length (d :: ds1))
      by (simpl; lia). done.
Qed.

Lemma main_loop_written i ds st st' :
  loop i ds st = (st', None) →
  length (run_written st') = length (run_written st) + length ds.
Proof.
  revert i st. induction ds as [|d ds IH]; intros i st.
  - intros [= <-]. simpl. lia.
  - cbn [main_loop]. pose proof (process_dataset_written i d st) as Hp.
    destruct (process i d st) as [st1 [e|]]; [done|].
    intros Hl. apply IH in Hl. simpl. lia.
Qed.

(** C5, amended.  The loop of [main] has no handler around the steps
    of a round.  Building the tree never raises; when the rendering of a
    dataset's document, the cut behind its XML declaration or the
    writing of its file raises, the exception leaves the loop at once:
    the datasets after it are not processed, and the files written are
    those of the datasets before it. *)
Theorem main_loop_stops_at_exception i ds1 d ds2 st st1 st2 e :
  main_loop prettify_xml write_file template_data output_dir i ds1 st
  = (st1, None) →
  process_dataset prettify_xml write_file template_data output_dir
    (i + length ds1) d st1
  = (st2, Some e) →
  main_loop prettify_xml write_file template_data output_dir i
    (ds1 ++ d :: ds2) st
  = (st2, Some e)
  ∧ run_written st2 = run_written st1
  ∧ length (run_written st2) = length (run_written st) + length ds1
  ∧ let root :=
      fst (create_tei_document d template_data (run_warnings st1)) in
    prettify_xml root = Raise e
    ∨ ∃ pretty,
        prettify_xml root = Ok pretty
        ∧ (split_max 1 (u "?>" ++ NL) pretty !! 1 = None ∧ e = IndexError
           ∨ ∃ body name,
               split_max 1 (u "?>" ++ NL) pretty !! 1 = Some body
               ∧ write_file output_dir name (xml_prolog ++ body) = Raise e).
Proof.
  intros Hl Hp. rewrite main_loop_app, Hl. cbn [main_loop]. rewrite Hp.
  pose proof (process_dataset_written (i + length ds1) d st1) as Hw.
  rewrite Hp in Hw. split; [done|]. split; [done|].
  split; [rewrite Hw; by eapply main_loop_written|].
  cbn zeta. unfold process_dataset in Hp.
  destruct (create_tei_document d template_data (run_warnings st1))
    as [root ws]. cbn [fst].
  destruct (prettify_xml root) as [pretty|e']; [|left; congruence].
  right. exists pretty. split; [done|].
  destruct (split_max 1 (u "?>" ++ NL) pretty !! 1) as [body|];
    [|left; split; congruence].
  right.
  destruct (write_file output_dir _ (xml_prolog ++ body)) as [?|e'] eqn:Ew;
    [done|].
  eexists body, _. split; [done|]. rewrite Ew. congruence.
Qed.
End Loop.

(** C5 on three datasets, the second of which has an identifier with a
    slash: its file cannot be opened, one file has been written, the
    third dataset is never reached. *)
Lemma main_loop_stops_at_exception_witness :
  let ds1 : list Dataset := [ {[ u "Datensatz ID" := u "21" ]} ] in
  let d : Dataset := {[ u "Datensatz ID" := u "1/2" ]} in
  let ds2 : list Dataset := [ {[ u "Datensatz ID" := u "147" ]} ] in
  let st1 :=
    {| run_warnings := [];
       run_written := [(u "21_tei.xml", xml_prolog ++ u "<TEI/>" ++ NL)] |} in
  main_loop constant_renderer flat_directory no_template (u "output") 0
    (ds1 ++ d :: ds2) fresh_run
  = (st1, Some (ExternalError (u "FileNotFoundError: 1/2_tei.xml")))
  ∧ run_written st1 = run_written st1
  ∧ length (run_written st1) = length (run_written fresh_run) + length ds1.
Proof.
  intros ds1 d ds2 st1.
  assert (main_loop constant_renderer flat_directory no_template
            (u "output") 0 ds1 fresh_run = (st1, None)) as H1
    by (vm_compute; reflexivity).
  assert (process_dataset constant_renderer flat_directory no_template
            (u "output") (0 + length ds1) d st1
          = (st1, Some (ExternalError (u "FileNotFoundError: 1/2_tei.xml"))))
    as H2 by (vm_compute; reflexivity).
  pose proof (main_loop_stops_at_exception constant_renderer flat_directory
                no_template (u "output") 0 ds1 d ds2 fresh_run st1 st1 _
                H1 H2) as (Hrun & Hsame & Hlen & _).
  exact (conj Hrun (conj Hsame Hlen)).
Defined.

(** C5, as stated, fails: the first dataset's file cannot be opened and
    the run ends there with the exception; the second dataset, which
    would be processed without any exception, gets no file. *)
Lemma main_loop_does_not_continue :
  let bad : Dataset := {[ u "Datensatz ID" := u "1/2" ]} in
  let good : Dataset := {[ u "Datensatz ID" := u "147" ]} in
  let run :=
    main_loop constant_renderer flat_directory no_template (u "output") 0
      [bad; good] fresh_run in
  snd run = Some (ExternalError (u "FileNotFoundError: 1/2_tei.xml"))
  ∧ run_written (fst run) = []
  ∧ snd (process_dataset constant_renderer flat_directory no_template
           (u "output") 1 good fresh_run) = None.
Proof. repeat split; vm_compute; reflexivity. Qed.

(** A table of fewer than two rows ends the run before the loop. *)
Example convert_main_short_table :
  convert_main constant_renderer flat_directory no_template (u "output")
    [[u "FELDNAME"; u "TITEL"; u "Datensatz 1"]]
  = (fresh_run, Some IndexError).
Proof. reflexivity. Qed.

(** ** Scenarios

    The definitions run on the examples that the project documents. *)

Example entry_with_title :
  parse_file_entry (u "147_codes.csv - Codes") (u "CSV Codes") (u "147") []
  = ((Some (u "147_codes.csv"), Some (u "Codes")), []).
Proof. vm_compute. reflexivity. Qed.

Example entry_split_at_first_separator :
  parse_file_entry (u "map1.jpg - Serbia - the north") (u "Bild 1") (u "147") []
  = ((Some (u "map1.jpg"), Some (u "Serbia - the north")), []).
Proof. vm_compute. reflexivity. Qed.

Example codes_and_labels_agree :
  Audit.validate_csv_labels_match_codes (u "147_codes.csv - Codes")
    (u "147_labels.csv - Labels")
  = (true, []).
Proof. vm_compute. reflexivity. Qed.

Example codes_and_labels_differ :
  Audit.validate_csv_labels_match_codes (u "147_codes.csv - Codes")
    (u "148_labels.csv - Labels")
  = (false,
     [u "Basis-Dateinamen stimmen nicht überein: codes='147' vs labels='148'"]).
Proof. vm_compute. reflexivity. Qed.

Example folder_prefix_mapped :
  add_folder_prefix (u "map1.jpg") (u "147")
  = u "../datafile_147_Serbia_1863/map1.jpg".
Proof. vm_compute. reflexivity. Qed.

Example folder_prefix_unmapped :
  add_folder_prefix (u "map1.jpg") (u "999") = u "map1.jpg".
Proof. vm_compute. reflexivity. Qed.

Example pid_scenarios :
  Audit.pid_format_ok (u "o:histdem.147") = true
  ∧ Audit.pid_format_ok (u "o:histdem.") = false
  ∧ Audit.pid_format_ok (u "histdem.147") = false.
Proof. repeat split. Qed.

Example sanitized_identifiers :
  sanitize_xml_id (u "147_codes.csv") = u "_147_codes"
  ∧ sanitize_xml_id (u "Karte Nord.jpg") = u "Karte_Nord"
  ∧ sanitize_xml_id (u ".pdf") = u "id_unknown".
Proof. repeat split; vm_compute; reflexivity. Qed.

Example citation_year :
  search_year (u "Gruber, S. *Census of 1863*. Version 1.0. 2014.")
  = Some (u "2014")
  ∧ search_year (u "Gruber, S. *Census of 1863*") = None.
Proof. repeat split; vm_compute; reflexivity. Qed.

(** * Further properties *)

(** ** Entries that follow the convention *)

Section Convention.
Implicit Types s sub f t entry : list N.
Implicit Types w : list (list N).

(** The first position at which [sub] occurs, from the positions at
    which it does not. *)
Lemma str_find_first sub s n :
  (∀ j, j < n → startswith (drop j s) sub = false) →
  startswith (drop n s) sub = true →
  str_find sub s = Some n.
Proof.
  revert s. induction n as [|n IH]; intros s Hno Hat.
  - rewrite drop_0 in Hat. destruct s; simpl; by rewrite Hat.
  - destruct s as [|c s].
    { specialize (Hno 0 (Nat.lt_0_succ _)). simpl in *. congruence. }
    pose proof (Hno 0 (Nat.lt_0_succ _)) as H0. rewrite drop_0 in H0.
    cbn [str_find]. rewrite H0.
    rewrite (IH s); [done| |done].
    intros j Hj. apply (Hno (S j)). lia.
Qed.

(** In [f ++ " - " ++ t] the first separator is the one written, when
    [f] is stripped and holds no blank followed by a dash. *)
Lemma convention_first_separator f t :
  f ≠ [] → strip f = f → contains (u " -") f = false →
  str_find SEP (f ++ SEP ++ t) = Some (length f).
Proof.
  intros Hne Hs Hc. apply str_find_first.
  - intros j Hj. apply not_true_is_false. intros Hsw.
    apply startswith_spec in Hsw as [r Hr].
    rewrite drop_app_le in Hr by lia.
    destruct (drop j f) as [|c1 [|c2 rest]] eqn:Hd.
    + apply (f_equal length) in Hd. rewrite length_drop in Hd. simpl in Hd. lia.
    + injection Hr as -> _.
      assert (last f = Some 32%N) as Hl.
      { rewrite <- (take_drop j f), Hd, last_app. done. }
      rewrite <- Hs in Hl. by apply strip_last in Hl.
    + injection Hr as -> -> _.
      assert (contains (u " -") f = true); [|congruence].
      apply contains_true. exists (take j f), rest.
      by rewrite <- (take_drop j f) at 1; rewrite Hd.
  - rewrite drop_app_length. apply startswith_spec. by exists t.
Qed.

Lemma convention_stripped f t :
  f ≠ [] → strip f = f → strip t = t → t ≠ [] →
  strip (f ++ SEP ++ t) = f ++ SEP ++ t.
Proof.
  intros Hf Hsf Hst Ht. apply strip_id.
  - intros c r Hc. destruct f as [|c' f']; [done|]. injection Hc as <- _.
    by apply (strip_head (c' :: f') c' f').
  - intros c Hl. rewrite !last_app in Hl.
    destruct (last t) as [c'|] eqn:Lt.
    + injection Hl as <-. rewrite <- Hst in Lt. by apply strip_last in Lt.
    + apply last_None in Lt. done.
Qed.

(** X1.  An entry written by the convention is read back: for a
    stripped, non-empty filename without a blank followed by a dash and
    a stripped, non-empty title, [parse_file_entry] returns exactly the
    two and records no warning. *)
Theorem parse_file_entry_convention f t field_name dataset_id w :
  f ≠ [] → strip f = f → contains (u " -") f = false →
  t ≠ [] → strip t = t →
  parse_file_entry (f ++ SEP ++ t) field_name dataset_id w
  = ((Some f, Some t), w).
Proof.
  intros Hf Hsf Hc Ht Hst.
  pose proof (convention_first_separator f t Hf Hsf Hc) as F.
  pose proof (convention_stripped f t Hf Hsf Hst Ht) as He.
  destruct (parse_file_entry_cases (f ++ SEP ++ t) field_name dataset_id w)
    as [[E _]|[[_ [C _]]|[i [F' [_ [_ ->]]]]]].
  - rewrite He in E. by destruct f.
  - rewrite He in C. unfold contains in C. by rewrite F in C.
  - rewrite He in *. assert (i = length f) as -> by congruence.
    rewrite take_app_length.
    replace (length f + 3) with (length f + length SEP) by done.
    rewrite drop_app_add, drop_app_length. by rewrite Hsf, Hst.
Qed.

(** X2.  The auditor accepts every entry written by the convention
    whose filename has a dot, and for a filename without dot it reports
    the missing extension and nothing else. *)
Theorem validate_file_entry_convention f t field_name :
  f ≠ [] → strip f = f → contains (u " -") f = false →
  t ≠ [] → strip t = t →
  Audit.validate_file_entry (f ++ SEP ++ t) field_name
  = if contains (u ".") f then (true, [])
    else (false, [u "Dateiname ohne Erweiterung: '" ++ f ++ u "'"]).
Proof.
  intros Hf Hsf Hc Ht Hst.
  pose proof (convention_first_separator f t Hf Hsf Hc) as F.
  pose proof (convention_stripped f t Hf Hsf Hst Ht) as He.
  unfold Audit.validate_file_entry.
  destruct (validate_file_entry_cases (f ++ SEP ++ t))
    as [[E _]|[[_ [C _]]|[i [F' ->]]]].
  - rewrite He in E. by destruct f.
  - rewrite He in C. unfold contains in C. by rewrite F in C.
  - rewrite He in *. assert (i = length f) as -> by congruence.
    rewrite take_app_length, Hsf. cbn [snd].
    by destruct (contains (u ".") f).
Qed.

(** X3.  What [parse_file_entry] never does: it returns no title
    without a filename, no empty or unstripped component, and records
    at most one message, which is never an error; without a filename it
    records nothing. *)
Theorem parse_file_entry_results entry field_name dataset_id w :
  let r := parse_file_entry entry field_name dataset_id w in
  (fst (fst r) = None → snd (fst r) = None ∧ snd r = w ∧ strip entry = [])
  ∧ (∀ x, fst (fst r) = Some x → x ≠ [] ∧ strip x = x)
  ∧ (∀ x, snd (fst r) = Some x →
          x ≠ [] ∧ strip x = x ∧ is_Some (fst (fst r)) ∧ snd r = w)
  ∧ (snd r = w
     ∨ snd r = w ++ [msg_missing_title dataset_id field_name (strip entry)]).
Proof.
  cbn zeta.
  destruct (parse_file_entry_cases entry field_name dataset_id w)
    as [[E ->]|[[E [C ->]]|[i [F [Ha [Hb ->]]]]]]; cbn [fst snd].
  - split; [done|]. split; [done|]. split; [done|]. by left.
  - split; [done|]. split; [|split; [done|by right]].
    intros x [= <-]. split; [done|apply strip_idem].
  - split; [done|]. split; [|split; [|by left]].
    + intros x [= <-]. split; [done|apply strip_idem].
    + intros x [= <-]. split; [done|]. split; [apply strip_idem|]. eauto.
Qed.
End Convention.

(** X1 on [map1.jpg - Serbia - the north]. *)
Lemma parse_file_entry_convention_witness :
  parse_file_entry (u "map1.jpg" ++ SEP ++ u "Serbia - the north")
    (u "Bild 1") (u "147") []
  = ((Some (u "map1.jpg"), Some (u "Serbia - the north")), []).
Proof.
  apply parse_file_entry_convention; vm_compute; congruence.
Defined.

(** X2 on [README - Title]. *)
Lemma validate_file_entry_convention_witness :
  Audit.validate_file_entry (u "README" ++ SEP ++ u "Title") (u "Bild 1")
  = if contains (u ".") (u "README") then (true, [])
    else (false, [u "Dateiname ohne Erweiterung: '" ++ u "README" ++ u "'"]).
Proof.
  apply validate_file_entry_convention; vm_compute; congruence.
Defined.

(** X3 on a blank entry. *)
Lemma parse_file_entry_results_witness :
  snd (fst (parse_file_entry (u "  ") (u "Bild 1") (u "147") [])) = None
  ∧ snd (parse_file_entry (u "  ") (u "Bild 1") (u "147") []) = []
  ∧ strip (u "  ") = [].
Proof.
  apply (proj1 (parse_file_entry_results (u "  ") (u "Bild 1") (u "147") [])).
  reflexivity.
Defined.

(** ** Replacing and splitting *)

Section ReplaceFacts.
Implicit Types s new sep : list N.

Lemma not_startswith_char c s j :
  startswith (drop j s) [c] = false → s !! j ≠ Some c.
Proof.
  intros Hs Hj. apply (take_drop_middle s j c) in Hj as Hm.
  assert (drop j s = c :: drop (S j) s) as Hd.
  { rewrite <- Hm at 1. rewrite drop_app_length'; [done|].
    rewrite length_take. apply lookup_lt_Some in Hj. lia. }
  rewrite Hd in Hs. simpl in Hs. by rewrite N.eqb_refl in Hs.
Qed.

(** Replacing a character: every occurrence, and nothing else. *)
Lemma replace_max_char c new n s :
  length s ≤ n →
  replace_max n [c] new s
  = mjoin ((λ x, if (x =? c)%N then new else [x]) <$> s).
Proof.
  revert s. induction n as [|n IH]; intros s Hn.
  - destruct s; [done|simpl in Hn; lia].
  - cbn [replace_max]. destruct (str_find [c] s) as [i|] eqn:F.
    + apply str_find_Some in F as [Hs Hno]. simpl in Hs.
      assert (length (drop (i + 1) s) ≤ n).
      { rewrite Hs in Hn. rewrite length_app in Hn. simpl in Hn. lia. }
      rewrite IH by done.
      rewrite Hs at 3. rewrite fmap_app, join_app, fmap_cons. cbn [mjoin list_join].
      rewrite N.eqb_refl. f_equal.
      assert (∀ j, j < i → s !! j ≠ Some c) as Hc
        by (intros j Hj; by apply not_startswith_char, Hno).
      clear - Hc. revert s Hc. induction i as [|i IHi]; intros s Hc; [done|].
      destruct s as [|x s]; [done|]. cbn.
      destruct (N.eqb_spec x c) as [->|].
      { by specialize (Hc 0 (Nat.lt_0_succ _)). }
      cbn. f_equal. apply IHi. intros j Hj. apply (Hc (S j)). lia.
    + apply str_find_char_None in F. clear IH Hn.
      induction s as [|x s IH]; [done|]. cbn.
      apply not_elem_of_cons in F as [Hx Hs].
      destruct (N.eqb_spec x c) as [->|]; [done|].
      cbn. f_equal. by apply IH.
Qed.

Lemma replace_char c new s :
  replace [c] new s = mjoin ((λ x, if (x =? c)%N then new else [x]) <$> s).
Proof. by apply replace_max_char. Qed.

(** After replacing [c] by text without [c], no [c] is left; a
    character absent before is absent after, unless the new text
    brings it. *)
Lemma replace_char_gone c new s : c ∉ new → c ∉ replace [c] new s.
Proof.
  intros Hn. rewrite replace_char. induction s as [|x s IH]; cbn.
  - apply not_elem_of_nil.
  - destruct (N.eqb_spec x c) as [->|Hx]; rewrite elem_of_app;
      intros [Hc|Hc]; try done.
    apply list_elem_of_singleton in Hc. congruence.
Qed.

Lemma replace_char_keeps c d new s :
  d ∉ new → d ∉ s → d ∉ replace [c] new s.
Proof.
  intros Hn Hs. rewrite replace_char. induction s as [|x s IH]; cbn.
  - apply not_elem_of_nil.
  - apply not_elem_of_cons in Hs as [Hx Hs].
    destruct (x =? c)%N; rewrite elem_of_app; intros [Hc|Hc];
      try done; try by apply IH.
    apply list_elem_of_singleton in Hc. congruence.
Qed.
End ReplaceFacts.

(** ** Identifiers *)

Section Identifiers.
Context `{Runtime}.

Local Ltac absent :=
  match goal with
  | |- ?P => apply (bool_decide_unpack P); vm_compute; exact I
  end.

(** X4.  [sanitize_xml_id] never returns the empty string, and its
    result holds no blank, dot or hyphen.  When the underscore and the
    letter [i] are no digits for [str.isdigit], the result does not
    start with a digit. *)
Theorem sanitize_xml_id_shape (filename : list N) :
  sanitize_xml_id filename ≠ []
  ∧ (∀ c, c ∈ sanitize_xml_id filename → c ≠ 32%N ∧ c ≠ 46%N ∧ c ≠ 45%N)
  ∧ (chr_isdigit 95%N = false → chr_isdigit 105%N = false →
     ∃ c r, sanitize_xml_id filename = c :: r ∧ chr_isdigit c = false).
Proof.
  unfold sanitize_xml_id.
  destruct (nonempty filename); cbn [negb];
    [|split; [done|split; [intros c Hc; vm_compute in Hc;
        repeat (apply elem_of_cons in Hc as [->|Hc]; [done|]);
        by apply elem_of_nil in Hc
      |intros _ Hi; by exists 105%N, (u "d_unknown")]]].
  set (a := replace (u ".png") [] _).
  set (b := replace (u "-") (u "_") (replace (u ".") (u "_")
              (replace (u " ") (u "_") a))).
  assert (∀ c, c ∈ b → c ≠ 32%N ∧ c ≠ 46%N ∧ c ≠ 45%N) as Hb.
  { intros c Hc. repeat split; intros ->; revert Hc; unfold b.
    - apply (replace_char_keeps 45 32), (replace_char_keeps 46 32),
        (replace_char_gone 32); absent.
    - apply (replace_char_keeps 45 46), (replace_char_gone 46); absent.
    - apply (replace_char_gone 45). absent. }
  destruct b as [|c r] eqn:Eb.
  { split; [done|]. split.
    - intros c Hc. vm_compute in Hc.
      repeat (apply elem_of_cons in Hc as [->|Hc]; [done|]).
      by apply elem_of_nil in Hc.
    - intros _ Hi. by exists 105%N, (u "d_unknown"). }
  destruct (chr_isdigit c) eqn:Hd.
  - change (nonempty (u "_" ++ c :: r)) with true. cbn iota.
    split; [done|]. split.
    + intros x Hx. change (u "_" ++ c :: r) with (95%N :: c :: r) in Hx.
      apply elem_of_cons in Hx as [->|Hx]; [done|by apply Hb].
    + intros Hu _. by exists 95%N, (c :: r).
  - change (nonempty (c :: r)) with true. cbn iota.
    split; [done|]. split; [done|]. intros _ _. by exists c, r.
Qed.
End Identifiers.

(** X4 on a filename that starts with a digit. *)
Lemma sanitize_xml_id_shape_witness :
  ∃ c r, sanitize_xml_id (u "147_codes.csv") = c :: r
         ∧ chr_isdigit c = false.
Proof.
  apply (proj2 (proj2 (sanitize_xml_id_shape (u "147_codes.csv"))));
    reflexivity.
Defined.

(** ** What the table loader returns *)

Section LoaderResult.
Implicit Types row header : list (list N) .
Implicit Types rows : list (list (list N)).
Implicit Types datasets : list Dataset.

(** One row stored: the dataset of every column below [num_datasets]
    gets the cell of its column, the other datasets are untouched. *)
Lemma store_row_lookup field_name row num_datasets datasets i :
  store_row field_name row num_datasets datasets !! i
  = (λ d : Dataset,
       if decide (i < num_datasets)
       then match row !! (i + 2) with
            | Some cell =>
                if nonempty (strip cell)
                then <[field_name := strip cell]> d else d
            | None => d
            end
       else d) <$> datasets !! i.
Proof.
  unfold store_row.
  assert (∀ cols, NoDup cols →
    foldl (λ datasets i,
             let col_idx := i + 2 in
             match row !! col_idx with
             | Some cell =>
                 let value := strip cell in
                 if nonempty value
                 then alter (insert field_name value) i datasets
                 else datasets
             | None => datasets
             end) datasets cols !! i
    = (λ d : Dataset,
         if decide (i ∈ cols)
         then match row !! (i + 2) with
              | Some cell =>
                  if nonempty (strip cell)
                  then <[field_name := strip cell]> d else d
              | None => d
              end
         else d) <$> datasets !! i) as Hcols.
  { intros cols. revert datasets.
    induction cols as [|c cols IH]; intros datasets Hnd.
    - cbn [foldl]. destruct (datasets !! i); [|done].
      cbn [fmap option_fmap option_map]. case_decide as Hin; [|done].
      by apply elem_of_nil in Hin.
    - apply NoDup_cons in Hnd as [Hc Hnd]. cbn [foldl].
      rewrite IH by done. cbv zeta.
      destruct (decide (i = c)) as [->|Hic].
      + destruct (decide (c ∈ cols)); [done|].
        destruct (decide (c ∈ c :: cols)) as [_|Hn];
          [|by destruct Hn; apply list_elem_of_here].
        destruct (row !! (c + 2)) as [cell|]; [|by destruct (datasets !! c)].
        destruct (nonempty (strip cell)); [|by destruct (datasets !! c)].
        rewrite list_lookup_alter_eq. by destruct (datasets !! c).
      + assert ((datasets !! i) = (match row !! (c + 2) with
             | Some cell =>
                 if nonempty (strip cell)
                 then alter (insert field_name (strip cell)) c datasets
                 else datasets
             | None => datasets
             end) !! i) as <-.
        { destruct (row !! (c + 2)) as [cell|]; [|done].
          destruct (nonempty (strip cell)); [|done].
          by rewrite list_lookup_alter_ne. }
        destruct (datasets !! i); [|done].
        cbn [fmap option_fmap option_map]. f_equal.
        destruct (decide (i ∈ cols)) as [Hin|Hin];
          destruct (decide (i ∈ c :: cols)) as [Hin'|Hin']; try done.
        * destruct Hin'. by apply list_elem_of_further.
        * apply elem_of_cons in Hin' as [?|?]; done. }
  rewrite Hcols by apply NoDup_seq.
  destruct (datasets !! i); [|done].
  cbn [fmap option_fmap option_map]. f_equal.
  destruct (decide (i < num_datasets)) as [Hi|Hi];
    destruct (decide (i ∈ seq 0 num_datasets)) as [Hin|Hin]; try done.
  - destruct Hin. apply elem_of_seq. lia.
  - apply elem_of_seq in Hin. lia.
Qed.

Lemma store_row_length field_name row num_datasets datasets :
  length (store_row field_name row num_datasets datasets) = length datasets.
Proof.
  unfold store_row. generalize (seq 0 num_datasets) as cols. intros cols.
  revert datasets. induction cols as [|c cols IH]; intros datasets; [done|].
  cbn [foldl]. rewrite IH. destruct (row !! (c + 2)) as [cell|]; [|done].
  cbv zeta. destruct (nonempty (strip cell)); [|done].
  apply length_alter.
Qed.

Lemma load_row_length num_datasets datasets (row : list (list N)) :
  length (load_row num_datasets datasets row) = length datasets.
Proof.
  unfold load_row. destruct row as [|name [|c row']]; [done|done|].
  destruct (negb (nonempty (strip name))); [done|]. apply store_row_length.
Qed.

Lemma load_rows_length num_datasets rows datasets :
  length (foldl (load_row num_datasets) datasets rows) = length datasets.
Proof.
  revert datasets. induction rows as [|row rows IH]; intros datasets; [done|].
  cbn [foldl]. by rewrite IH, load_row_length.
Qed.

(** One row loaded: the field [k] of dataset [i] is the value the row
    gives it, the value it had when the row gives none. *)
Lemma load_row_lookup num_datasets datasets (row : list (list N)) i d k :
  i < num_datasets → datasets !! i = Some d →
  ∃ d', load_row num_datasets datasets row !! i = Some d'
        ∧ d' !! k = match cell_value i k row with
                    | Some v => Some v
                    | None => d !! k
                    end.
Proof.
  intros Hi Hd. unfold load_row, cell_value.
  destruct row as [|name [|c row']]; [by exists d|by exists d|].
  destruct (nonempty (strip name)) eqn:Hn; cbn [negb andb]; [|by exists d].
  rewrite store_row_lookup, Hd. cbn [fmap option_fmap option_map].
  rewrite decide_True by done. eexists. split; [reflexivity|].
  destruct (str_eqb (strip name) k) eqn:Hk.
  - apply str_eqb_eq in Hk as <-.
    destruct ((name :: c :: row') !! (i + 2)) as [cell|]; [|done].
    destruct (nonempty (strip cell)); [|done]. apply lookup_insert_eq.
  - apply str_eqb_neq in Hk.
    destruct ((name :: c :: row') !! (i + 2)) as [cell|]; [|done].
    destruct (nonempty (strip cell)); [|done]. by apply lookup_insert_ne.
Qed.

Lemma load_rows_lookup num_datasets rows datasets i d k :
  i < num_datasets → datasets !! i = Some d →
  ∃ d', foldl (load_row num_datasets) datasets rows !! i = Some d'
        ∧ d' !! k = match last (omap (cell_value i k) rows) with
                    | Some v => Some v
                    | None => d !! k
                    end.
Proof.
  intros Hi. revert datasets d.
  induction rows as [|row rows IH]; intros datasets d Hd; [by exists d|].
  cbn [foldl].
  destruct (load_row_lookup num_datasets datasets row i d k Hi Hd)
    as (d1 & Hd1 & Hk1).
  destruct (IH _ _ Hd1) as (d' & Hd' & Hk'). exists d'. split; [done|].
  rewrite Hk'. cbn [omap list_omap].
  destruct (cell_value i k row) as [v|].
  - rewrite last_cons. by destruct (last (omap (cell_value i k) rows)).
  - fold (omap (cell_value i k) rows).
    by destruct (last (omap (cell_value i k) rows)).
Qed.

(** X5.  [parse_csv_column] raises [IndexError] exactly on a table of
    fewer than two rows.  Otherwise it returns one dataset per header of
    the second row, from its third cell on, that is not blank: the
    headers are counted, the rows of data do not change the number. *)
Theorem parse_csv_column_count rows :
  (parse_csv_column rows = Raise IndexError ↔ length rows < 2)
  ∧ ∀ header, rows !! 1 = Some header →
      ∃ datasets, parse_csv_column rows = Ok datasets
                  ∧ length datasets = named_columns header.
Proof.
  unfold parse_csv_column. split.
  - destruct (rows !! 1) as [header|] eqn:Hh.
    + apply lookup_lt_Some in Hh. split; [done|lia].
    + apply lookup_ge_None in Hh. split; [lia|done].
  - intros header ->. eexists. split; [reflexivity|].
    by rewrite load_rows_length, length_replicate.
Qed.

(** X6.  The content of what [parse_csv_column] returns.  Dataset [i]
    is read from column [i + 2], whichever headers are blank.  Its field
    [k] holds the value of the last row, from the fifth on, that gives
    one: a row of two cells or more whose stripped first cell is [k]
    and whose cell in that column is not blank.  The field is absent
    when no row gives a value; an earlier value is overwritten by a
    later one and kept over a later blank. *)
Theorem parse_csv_column_last_value rows datasets i :
  parse_csv_column rows = Ok datasets → i < length datasets →
  ∃ d : Dataset, datasets !! i = Some d
    ∧ ∀ k, d !! k = last (omap (cell_value i k) (drop 4 rows)).
Proof.
  unfold parse_csv_column. destruct (rows !! 1) as [header|]; [|done].
  intros [= <-]. rewrite load_rows_length, length_replicate. intros Hi.
  set (n := length _) in *.
  assert (replicate n (∅ : Dataset) !! i = Some ∅) as H0
    by by apply lookup_replicate.
  destruct (load_rows_lookup n (drop 4 rows) _ i ∅ [] Hi H0) as (d & Hd & _).
  exists d. split; [done|]. intros k.
  destruct (load_rows_lookup n (drop 4 rows) _ i ∅ k Hi H0) as (d' & Hd' & Hk).
  rewrite Hd in Hd'. injection Hd' as <-. rewrite Hk.
  destruct (last _); [done|apply lookup_empty].
Qed.
End LoaderResult.

(** X6 on a table where a later row overwrites [Land] and a blank cell
    keeps [Jahr]. *)
Lemma parse_csv_column_last_value_witness :
  ∃ d : Dataset,
    [ ({[ u "Land" := u "Serbien"; u "Jahr" := u "1863" ]} : Dataset) ] !! 0
    = Some d
    ∧ ∀ k, d !! k
         = last (omap (cell_value 0 k)
             (drop 4 [ []; [u "FELDNAME"; u "TITEL"; u "Datensatz 1"]; []; [];
                       [u "Land"; u ""; u "Serbia"];
                       [u "Jahr"; u ""; u "1863"];
                       [u "Land "; u ""; u " Serbien"];
                       [u "Jahr"; u ""; u " "] ])).
Proof.
  apply (parse_csv_column_last_value
           [ []; [u "FELDNAME"; u "TITEL"; u "Datensatz 1"]; []; [];
             [u "Land"; u ""; u "Serbia"];
             [u "Jahr"; u ""; u "1863"];
             [u "Land "; u ""; u " Serbien"];
             [u "Jahr"; u ""; u " "] ]).
  - vm_compute. reflexivity.
  - simpl. lia.
Defined.

(** X5 on a table whose second header is blank: two datasets for three
    columns. *)
Lemma parse_csv_column_count_witness :
  ∃ datasets,
    parse_csv_column
      [ []; [u "FELDNAME"; u "TITEL"; u "Datensatz 1"; u " "; u "Datensatz 3"] ]
    = Ok datasets
    ∧ length datasets
      = named_columns
          [u "FELDNAME"; u "TITEL"; u "Datensatz 1"; u " "; u "Datensatz 3"].
Proof.
  apply (proj2 (parse_csv_column_count
    [ []; [u "FELDNAME"; u "TITEL"; u "Datensatz 1"; u " "; u "Datensatz 3"] ])).
  reflexivity.
Defined.

(** ** A run without exception *)

Section Run.
Context `{Runtime}.
Variable prettify_xml : Element → result pystr.
Variable write_file : list N → list N → list N → result unit.
Variable template_data : TemplateData.
Variable output_dir : list N.

Local Abbreviation process :=
  (process_dataset prettify_xml write_file template_data output_dir).
Local Abbreviation loop :=
  (main_loop prettify_xml write_file template_data output_dir).

Lemma appends_create_tei_document dataset :
  appends (create_tei_document dataset template_data).
Proof.
  unfold create_tei_document.
  apply appends_bind; [apply appends_source_desc|intros ?].
  apply appends_ret.
Qed.

(** The tree is that of the dataset on its own, the warnings are added
    behind those collected before. *)
Lemma create_tei_document_from dataset w :
  create_tei_document dataset template_data w
  = (document_of template_data dataset,
     w ++ warnings_of template_data dataset).
Proof.
  destruct (appends_create_tei_document dataset) as (t & o & Ht).
  unfold document_of, warnings_of. by rewrite (Ht w), (Ht []).
Qed.

(** A round ends without exception exactly when the tree renders with
    its declaration and the file can be written. *)
Lemma process_dataset_success i dataset st st' :
  process i dataset st = (st', None)
  ↔ (∃ body,
       rendered_body prettify_xml (document_of template_data dataset)
       = Some body
       ∧ write_file output_dir (output_name i dataset) (xml_prolog ++ body)
         = Ok tt)
    ∧ st' = {| run_warnings :=
                 run_warnings st ++ warnings_of template_data dataset;
               run_written :=
                 run_written st
                 ++ [file_of prettify_xml template_data i dataset] |}.
Proof.
  unfold process_dataset, file_of, rendered_body, output_name.
  rewrite create_tei_document_from.
  destruct (prettify_xml (document_of template_data dataset)) as [pretty|e].
  2:{ split; [done|]. by intros [(? & ? & _) _]. }
  destruct (split_max 1 (u "?>" ++ NL) pretty !! 1) as [body|].
  2:{ split; [done|]. by intros [(? & ? & _) _]. }
  cbn [run_written default from_option].
  destruct (write_file output_dir _ (xml_prolog ++ body)) as [[]|e] eqn:Ew.
  - split.
    + intros [= <-]. split; [|done]. exists body. by rewrite Ew.
    + by intros [_ ->].
  - split; [done|]. intros [(b & [= <-] & Hw) _]. congruence.
Qed.

(** X7.  A run of the loop of [main] ends without exception exactly
    when, for every dataset, the tree renders with its XML declaration
    and its file can be written.  It has then written one file per
    dataset, in the order of the table: the file is named by the
    [Datensatz ID], by the position counted from one when the dataset
    has none, with [_tei.xml] behind; its content is the fixed prolog
    followed by the rendering behind the first declaration.  The
    warnings of the datasets are collected in the same order. *)
Theorem main_loop_success i datasets st st' :
  main_loop prettify_xml write_file template_data output_dir i datasets st
  = (st', None)
  ↔ (∀ k dataset, datasets !! k = Some dataset →
       ∃ body,
         rendered_body prettify_xml (document_of template_data dataset)
         = Some body
         ∧ write_file output_dir (output_name (i + k) dataset)
             (xml_prolog ++ body)
           = Ok tt)
    ∧ st' = {| run_warnings :=
                 run_warnings st
                 ++ concat (warnings_of template_data <$> datasets);
               run_written :=
                 run_written st
                 ++ imap (λ k dataset,
                           file_of prettify_xml template_data (i + k) dataset)
                      datasets |}.
Proof.
  revert i st. induction datasets as [|d ds IH]; intros i st.
  - cbn [main_loop fmap list_fmap concat imap]. rewrite !app_nil_r. split.
    + intros [= <-]. split; [done|]. by destruct st.
    + intros [_ ->]. by destruct st.
  - cbn [main_loop]. destruct (process i d st) as [st1 [e|]] eqn:Hp.
    + split; [done|]. intros [Hall _].
      destruct (Hall 0 d eq_refl) as (body & Hb & Hw).
      rewrite Nat.add_0_r in Hw.
      assert (process i d st
              = ({| run_warnings :=
                      run_warnings st ++ warnings_of template_data d;
                    run_written :=
                      run_written st
                      ++ [file_of prettify_xml template_data i d] |}, None))
        as Hp' by (apply process_dataset_success; eauto).
      congruence.
    + apply process_dataset_success in Hp as [(body & Hb & Hw) ->].
      rewrite IH. cbn [run_warnings run_written].
      rewrite fmap_cons, imap_cons. cbn [concat].
      rewrite <- !app_assoc, Nat.add_0_r. cbn [app].
      assert (imap ((λ k dataset,
                       file_of prettify_xml template_data (i + k) dataset)
                    ∘ S) ds
              = imap (λ k dataset,
                        file_of prettify_xml template_data (S i + k) dataset)
                  ds) as ->.
      { apply imap_ext. intros k x _. simpl. f_equal. lia. }
      split.
      * intros [Hall ->]. split; [|done]. intros [|k] x Hx.
        -- injection Hx as <-. rewrite Nat.add_0_r. eauto.
        -- replace (i + S k) with (S i + k) by lia. by apply Hall.
      * intros [Hall ->]. split; [|done]. intros k x Hx.
        replace (S i + k) with (i + S k) by lia. by apply Hall.
Qed.
End Run.

(** X7 on two datasets, the second without identifier. *)
Lemma main_loop_success_witness :
  main_loop constant_renderer flat_directory no_template (u "output") 0
    [ {[ u "Datensatz ID" := u "147" ]}; (∅ : Dataset) ] fresh_run
  = ({| run_warnings := [];
        run_written :=
          [ (u "147_tei.xml", xml_prolog ++ u "<TEI/>" ++ NL);
            (u "2_tei.xml", xml_prolog ++ u "<TEI/>" ++ NL) ] |}, None).
Proof.
  apply main_loop_success. split.
  - intros [|[|k]] d Hd; [| |done]; injection Hd as <-;
      exists (u "<TEI/>" ++ NL); split; vm_compute; reflexivity.
  - vm_compute. reflexivity.
Defined.

(** ** Mixed content *)

Section MixedContent.
Implicit Types text content : list N.
Implicit Types parts : list (part_type * list N).
Implicit Types parent child : Element.

Lemma text_after_italic_app prev parts1 parts2 :
  text_after_italic prev (parts1 ++ parts2)
  = text_after_italic prev parts1
    && text_after_italic (ends_italic prev parts1) parts2.
Proof.
  revert prev. induction parts1 as [|[[] c] parts1 IH]; intros prev; simpl.
  - done.
  - by rewrite IH, andb_assoc.
  - apply IH.
Qed.

Lemma ends_italic_app prev parts1 parts2 :
  ends_italic prev (parts1 ++ parts2)
  = ends_italic (ends_italic prev parts1) parts2.
Proof.
  revert prev. induction parts1 as [|[[] c] parts1 IH]; intros prev; simpl;
    [done|apply IH|apply IH].
Qed.

Lemma count_italic_app parts1 parts2 :
  count_italic (parts1 ++ parts2) = count_italic parts1 + count_italic parts2.
Proof. unfold count_italic. by rewrite filter_app, length_app. Qed.

Lemma count_italic_text content : count_italic [(PText, content)] = 0.
Proof. reflexivity. Qed.

Lemma count_italic_italic content : count_italic [(PItalic, content)] = 1.
Proof. reflexivity. Qed.

Lemma count_italic_cons p parts :
  count_italic (p :: parts) = count_italic [p] + count_italic parts.
Proof. apply (count_italic_app [p]). Qed.

(** The loop of [markdown_to_tei] adds one emphasis per match, and a
    plain part only in front of one. *)
Lemma markdown_loop_shape text matches parts pos :
  text_after_italic true parts = true → ends_italic true parts = true →
  let st := foldl (markdown_step text) (parts, pos) matches in
  text_after_italic true (fst st) = true
  ∧ ends_italic true (fst st) = true
  ∧ count_italic (fst st) = count_italic parts + length matches.
Proof.
  revert parts pos. induction matches as [|[ms me] matches IH];
    intros parts pos Hw He; cbn [foldl].
  - cbn [fst length]. by rewrite Nat.add_0_r.
  - cbn [markdown_step].
    destruct (IH (( if pos <? ms
                    then parts ++ [(PText, slice text pos ms)] else parts)
                  ++ [(PItalic, slice text (ms + 1) (me - 1))]) me)
      as (Hw' & He' & Hc').
    + rewrite text_after_italic_app. destruct (pos <? ms).
      * rewrite text_after_italic_app, Hw, He. done.
      * by rewrite Hw.
    + rewrite ends_italic_app. done.
    + split; [done|]. split; [done|]. rewrite Hc', count_italic_app.
      destruct (pos <? ms); [rewrite count_italic_app|];
        rewrite ?count_italic_text, ?count_italic_italic; cbn [length]; lia.
Qed.

(** What [markdown_to_tei] returns for a text that is not empty. *)
Lemma markdown_to_tei_parts text :
  text ≠ [] →
  ∃ parts,
    markdown_to_tei text = Some parts ∧ parts ≠ []
    ∧ contents parts = omit (delimiters text) 0 text
    ∧ text_after_italic true parts = true
    ∧ count_italic parts = length (finditer_italic text).
Proof.
  intros Hne. unfold markdown_to_tei, delimiters.
  apply nonempty_true in Hne as Hne'. rewrite Hne'. cbn [negb].
  destruct (markdown_loop text (length text) 0 [] (Nat.le_0_l _))
    as (Hc & _ & Hle & Hlast & _ & _ & Hlen).
  destruct (markdown_loop_shape text (finditer_italic text) [] 0 eq_refl eq_refl)
    as (Hw & He & Hn).
  fold (finditer_italic text) in *.
  destruct (foldl (markdown_step text) ([], 0) (finditer_italic text))
    as [P cp]. cbn [fst snd] in *.
  rewrite drop_0 in Hc. change (contents []) with (@nil N) in Hc.
  cbn [app] in Hc.
  assert (0 < length text) as Hpos by (destruct text; [done|simpl; lia]).
  destruct (Nat.ltb_spec cp (length text)) as [Hlt|Hge];
    eexists; (split; [reflexivity|]).
  - split; [by destruct P|]. split.
    { rewrite contents_app. unfold contents at 2. simpl.
      by rewrite app_nil_r. }
    split.
    { rewrite text_after_italic_app, Hw, He. done. }
    rewrite count_italic_app, Hn, count_italic_text. simpl. lia.
  - assert (cp = length text) as -> by lia.
    rewrite drop_all, app_nil_r in Hc.
    split.
    { intros ->. destruct (finditer_italic text); [|simpl in Hlen; lia].
      simpl in Hlast. lia. }
    split; [done|]. split; [done|]. rewrite Hn. done.
Qed.

Lemma itertext_append parent child :
  itertext (append parent child)
  = itertext parent ++ itertext child ++ default [] (e_tail child).
Proof.
  destruct parent as [tag attrib text tail children]. cbn [append itertext
    e_tag e_attrib e_text e_tail e_children].
  rewrite map_app, concat_app. cbn [map concat].
  by rewrite app_nil_r, app_assoc.
Qed.

(** Text added behind the last child is text added at the end. *)
Lemma itertext_add_to_last_tail parent content :
  e_children parent ≠ [] →
  itertext (add_to_last_tail parent content) = itertext parent ++ content.
Proof.
  destruct parent as [tag attrib text tail children].
  cbn [e_children]. intros Hne. unfold add_to_last_tail.
  cbn [e_tag e_attrib e_text e_tail e_children].
  destruct (reverse children) as [|l before] eqn:Hr.
  { apply (f_equal reverse) in Hr. rewrite reverse_involutive in Hr.
    by destruct Hne. }
  apply (f_equal reverse) in Hr. rewrite reverse_involutive in Hr.
  rewrite reverse_cons in Hr. subst children. cbn [itertext].
  rewrite !map_app, !concat_app. cbn [map concat].
  rewrite !app_nil_r, <- !app_assoc. do 2 f_equal.
  destruct l as [ltag lattrib ltext [t|] lchildren];
    cbn [e_tail truthy]; [destruct (nonempty t) eqn:Ht|];
    cbn [set_tail e_tail e_tag e_attrib e_text e_children itertext
         default from_option id];
    rewrite <- ?app_assoc; [done| |done].
  apply nonempty_false in Ht as ->. done.
Qed.

Lemma add_to_last_tail_children parent content :
  length (e_children (add_to_last_tail parent content))
  = length (e_children parent)
  ∧ (Forall is_hi (e_children parent) →
     Forall is_hi (e_children (add_to_last_tail parent content)))
  ∧ e_tag (add_to_last_tail parent content) = e_tag parent
  ∧ e_attrib (add_to_last_tail parent content) = e_attrib parent
  ∧ e_tail (add_to_last_tail parent content) = e_tail parent.
Proof.
  unfold add_to_last_tail.
  destruct (reverse (e_children parent)) as [|l before] eqn:Hr; [done|].
  apply (f_equal reverse) in Hr. rewrite reverse_involutive in Hr.
  rewrite reverse_cons in Hr. rewrite Hr.
  cbn [e_tag e_attrib e_text e_tail e_children].
  split; [by rewrite !length_app|]. split; [|done].
  rewrite !Forall_app, !Forall_singleton. intros [Hb Hl]. split; [done|].
  by destruct (truthy (e_tail l)).
Qed.

(** The loop of [add_mixed_content] over parts in which no plain part
    follows a plain part: every part is added at the end of the text of
    the element, no part is dropped. *)
Lemma mixed_loop parts parent i prev :
  text_after_italic prev parts = true →
  (i = 0 → prev = true ∧ e_children parent = [] ∧ e_text parent = None) →
  (i ≠ 0 → prev = true → e_children parent ≠ []) →
  Forall is_hi (e_children parent) →
  let r := fst (foldl mixed_step (parent, i) parts) in
  itertext r = itertext parent ++ contents parts
  ∧ e_tag r = e_tag parent ∧ e_attrib r = e_attrib parent
  ∧ e_tail r = e_tail parent
  ∧ length (e_children r) = length (e_children parent) + count_italic parts
  ∧ Forall is_hi (e_children r).
Proof.
  revert parent i prev.
  induction parts as [|[[] content] parts IH];
    intros parent i prev Hw H0 Hpos Hhi; cbn [foldl].
  - cbn [fst]. unfold contents, count_italic. simpl.
    rewrite app_nil_r, Nat.add_0_r. done.
  - cbn [text_after_italic] in Hw. apply andb_true_iff in Hw as [-> Hw].
    cbn [mixed_step]. destruct (Nat.eqb_spec i 0) as [->|Hi].
    + destruct (H0 eq_refl) as (_ & Hch & Htx).
      destruct (IH (set_text parent (Some content)) 1 false Hw)
        as (Ht & Htag & Hat & Htl & Hlen & Hall); [done|done|done|].
      split.
      { rewrite Ht. destruct parent as [tag attrib text tail children].
        cbn [e_children e_text] in Hch, Htx. subst.
        cbn [set_text itertext e_tag e_attrib e_text e_tail e_children
             default from_option id map concat].
        unfold contents. simpl. by rewrite !app_nil_r. }
      split; [done|]. split; [done|]. split; [done|]. split; [|done].
      rewrite Hlen, (count_italic_cons _ parts), count_italic_text. done.
    + specialize (Hpos Hi eq_refl).
      destruct (add_to_last_tail_children parent content)
        as (Hl & Hf & Htag' & Hat' & Htl').
      destruct (IH (add_to_last_tail parent content) (S i) false Hw)
        as (Ht & Htag & Hat & Htl & Hlen & Hall);
        [done|done|by apply Hf|].
      split.
      { rewrite Ht, itertext_add_to_last_tail by done.
        unfold contents. simpl. by rewrite <- app_assoc. }
      split; [congruence|]. split; [congruence|]. split; [congruence|].
      split; [|done].
      rewrite Hlen, Hl, (count_italic_cons _ parts), count_italic_text. done.
  - cbn [text_after_italic] in Hw. cbn [mixed_step].
    set (hi := create_tei_element (u "hi") (Some content)
                 [(u "rend", u "italic")]).
    destruct (IH (append parent hi) (S i) true Hw)
      as (Ht & Htag & Hat & Htl & Hlen & Hall).
    { done. }
    { intros _ _. cbn [append e_children]. by destruct (e_children parent). }
    { cbn [append e_children]. rewrite Forall_app, Forall_singleton.
      split; [done|]. by split. }
    split.
    { rewrite Ht, itertext_append. unfold contents. simpl.
      rewrite <- !app_assoc. do 2 f_equal.
      unfold hi, create_tei_element. cbn [itertext e_tail truthy].
      destruct (nonempty content) eqn:Hc;
        cbn [default from_option id map concat app];
        rewrite ?app_nil_r; [done|].
      apply nonempty_false in Hc as ->. done. }
    split; [done|]. split; [done|]. split; [done|]. split; [|done].
    rewrite Hlen. cbn [append e_children]. rewrite length_app.
    rewrite (count_italic_cons _ parts), count_italic_italic. simpl. lia.
Qed.

Lemma emphasized_app parts1 parts2 :
  emphasized (parts1 ++ parts2) = emphasized parts1 ++ emphasized parts2.
Proof. apply omap_app. Qed.

Lemma emphasized_plain pre : emphasized (plain pre) = [].
Proof. by destruct pre. Qed.

(** The emphasis segments of a text are not empty, and the text is as
    long as its segments and two stars for each emphasis. *)
Lemma to_segments_emphasized text parts :
  to_segments text parts →
  Forall (λ c, c ≠ []) (emphasized parts)
  ∧ length text = length (contents parts) + 2 * length (emphasized parts).
Proof.
  induction 1 as [|text Hne Hno|pre x rest parts Hleft Hne Hx Hrest [IH1 IH2]].
  - split; [constructor|done].
  - split; [constructor|]. unfold contents. simpl. rewrite app_nil_r. lia.
  - rewrite emphasized_app, emphasized_plain, contents_app, contents_plain.
    cbn [app]. change (emphasized ((PItalic, x) :: parts))
      with (x :: emphasized parts).
    change (contents ((PItalic, x) :: parts)) with (x ++ contents parts).
    split; [by constructor|].
    rewrite !length_app. cbn [length]. rewrite ?length_app. cbn [length].
    rewrite ?length_app. cbn [length] in *. lia.
Qed.

Lemma add_to_last_tail_texts parent content :
  e_text <$> e_children (add_to_last_tail parent content)
  = e_text <$> e_children parent.
Proof.
  unfold add_to_last_tail.
  destruct (reverse (e_children parent)) as [|l before] eqn:Hr; [done|].
  apply (f_equal reverse) in Hr. rewrite reverse_involutive in Hr.
  rewrite reverse_cons in Hr. rewrite Hr.
  cbn [e_children]. rewrite !fmap_app. f_equal.
  by destruct (truthy (e_tail l)).
Qed.

(** The loop of [add_mixed_content] adds one child for each emphasis
    part, carrying its content as text, and changes the text of no
    child. *)
Lemma mixed_loop_emphasis parts parent i :
  e_text <$> e_children (fst (foldl mixed_step (parent, i) parts))
  = (e_text <$> e_children parent)
    ++ ((λ c, if nonempty c then Some c else None) <$> emphasized parts).
Proof.
  revert parent i. induction parts as [|[[] content] parts IH];
    intros parent i; cbn [foldl].
  - by rewrite app_nil_r.
  - cbn [mixed_step]. rewrite IH. f_equal.
    destruct (i =? 0); [done|apply add_to_last_tail_texts].
  - cbn [mixed_step]. rewrite IH. cbn [append e_children].
    rewrite fmap_app, <- app_assoc. done.
Qed.

(** X8.  [add_mixed_content] on an element without text and children,
    as its caller passes it.  Let the segments of the text be as
    [to_segments] reads them, without reference to the matcher of the
    converter: every emphasized run [*x*], leftmost first, is an
    emphasis segment [x], the text around the runs the plain segments.
    Then the text of the element as a reader sees it is the segments
    in order, which is the given text without the two stars of each
    run: no other character is lost and none is added.  The children
    of the element are one [hi] with [rend="italic"] for each emphasis
    segment, in order, with the segment as its text, and no other
    child; tag, attributes and tail of the element are kept.  The
    guard [len(parent) > 0] in front of the tail never fails. *)
Theorem add_mixed_content_text parent text :
  e_children parent = [] → e_text parent = None →
  let r := add_mixed_content parent text in
  ∃ parts,
    to_segments text parts
    ∧ itertext r = contents parts
    ∧ e_text <$> e_children r = Some <$> emphasized parts
    ∧ length text = length (itertext r) + 2 * length (e_children r)
    ∧ itertext r = omit (delimiters text) 0 text
    ∧ length (e_children r) = length (finditer_italic text)
    ∧ Forall is_hi (e_children r)
    ∧ e_tag r = e_tag parent ∧ e_attrib r = e_attrib parent
    ∧ e_tail r = e_tail parent.
Proof.
  intros Hch Htx. unfold add_mixed_content.
  destruct (nonempty text) eqn:Hne; cbn [negb].
  2:{ apply nonempty_false in Hne as ->. cbn zeta. exists [].
      destruct parent as [tag attrib tx tail children].
      cbn [e_children e_text] in Hch, Htx. subst.
      split; [constructor|]. by repeat split. }
  apply nonempty_true in Hne.
  destruct (markdown_to_tei_segments text Hne) as (parts & Hparts & Hseg).
  destruct (markdown_to_tei_parts text Hne) as (parts' & Hparts' & Hp & Hc & Hw & Hn).
  rewrite Hparts in Hparts'. injection Hparts' as <-. rewrite Hparts.
  destruct (to_segments_emphasized text parts Hseg) as [Hem Hlen'].
  destruct parts as [|p parts]; [done|].
  destruct (mixed_loop (p :: parts) parent 0 true Hw)
    as (Ht & Htag & Hat & Htl & Hlen & Hall).
  { done. }
  { done. }
  { rewrite Hch. constructor. }
  pose proof (mixed_loop_emphasis (p :: parts) parent 0) as Hkids.
  rewrite Hch in Hkids. cbn [fmap list_fmap app] in Hkids.
  assert (itertext (fst (foldl mixed_step (parent, 0) (p :: parts)))
          = contents (p :: parts)) as Hread.
  { rewrite Ht. destruct parent as [tag attrib tx tail children].
    cbn [e_children e_text] in Hch, Htx. subst. done. }
  assert (e_text <$> e_children (fst (foldl mixed_step (parent, 0) (p :: parts)))
          = Some <$> emphasized (p :: parts)) as Hkids'.
  { rewrite Hkids. apply list_eq. intros j. rewrite !list_lookup_fmap.
    destruct (emphasized (p :: parts) !! j) as [c|] eqn:Hj; [|done].
    cbn. rewrite Forall_forall in Hem.
    assert (c ≠ []) as Hcne by (apply Hem; by eapply list_elem_of_lookup_2).
    by apply nonempty_true in Hcne as ->. }
  cbn zeta. exists (p :: parts). split; [done|]. split; [done|].
  split; [done|]. split.
  { rewrite Hread, Hlen'. f_equal. f_equal.
    apply (f_equal length) in Hkids'. by rewrite !length_fmap in Hkids'. }
  split; [by rewrite Hread|].
  split; [by rewrite Hlen, Hch, Hn|]. done.
Qed.
End MixedContent.

(** X8 on a citation with one emphasized title. *)
Lemma add_mixed_content_text_witness :
  let r :=
    add_mixed_content (create_tei_element (u "rs") None [])
      (u "Kaser, K.: *Familie und Verwandtschaft*. Wien 1995") in
  ∃ parts,
    to_segments (u "Kaser, K.: *Familie und Verwandtschaft*. Wien 1995") parts
    ∧ itertext r = contents parts
    ∧ e_text <$> e_children r = Some <$> emphasized parts
    ∧ length (u "Kaser, K.: *Familie und Verwandtschaft*. Wien 1995")
      = length (itertext r) + 2 * length (e_children r)
    ∧ itertext r
      = omit (delimiters (u "Kaser, K.: *Familie und Verwandtschaft*. Wien 1995"))
          0 (u "Kaser, K.: *Familie und Verwandtschaft*. Wien 1995")
    ∧ length (e_children r)
      = length
          (finditer_italic
             (u "Kaser, K.: *Familie und Verwandtschaft*. Wien 1995"))
    ∧ Forall is_hi (e_children r)
    ∧ e_tag r = e_tag (create_tei_element (u "rs") None [])
    ∧ e_attrib r = e_attrib (create_tei_element (u "rs") None [])
    ∧ e_tail r = e_tail (create_tei_element (u "rs") None []).
Proof. apply add_mixed_content_text; reflexivity. Defined.

Example add_mixed_content_reads :
  itertext
    (add_mixed_content (create_tei_element (u "rs") None [])
       (u "Kaser, K.: *Familie und Verwandtschaft*. Wien 1995"))
  = u "Kaser, K.: Familie und Verwandtschaft. Wien 1995".
Proof. vm_compute. reflexivity. Qed.

(** ** The additional files *)

Section Additional.
Context `{Runtime}.
Implicit Types dataset : Dataset.
Implicit Types st : bool * Element.

Lemma grown_refl st : grown st st 0.
Proof.
  split; [done|]. split; [done|]. split; [by rewrite orb_false_r|].
  exists []. by rewrite app_nil_r.
Qed.

Lemma grown_trans st1 st2 st3 n m :
  grown st1 st2 n → grown st2 st3 m → grown st1 st3 (n + m).
Proof.
  intros (Ht1 & Ha1 & Hb1 & new1 & Hc1 & Hl1 & Hf1)
         (Ht2 & Ha2 & Hb2 & new2 & Hc2 & Hl2 & Hf2).
  split; [congruence|]. split; [congruence|]. split.
  { rewrite Hb2, Hb1. destruct (fst st1), n, m; done. }
  exists (new1 ++ new2). split; [by rewrite Hc2, Hc1, app_assoc|].
  split; [rewrite length_app; lia|by apply Forall_app].
Qed.

Lemma grown_append (b : bool) (bibl rs : Element) :
  titled_rs rs → grown (b, bibl) (true, append bibl rs) 1.
Proof.
  intros Hrs. split; [done|]. split; [done|]. split; [by destruct b|].
  exists [rs]. split; [done|]. split; [done|]. by apply Forall_singleton.
Qed.

Lemma titled_rs_built rs_type text child :
  text ≠ [] →
  titled_rs
    (append
       (add_title (create_tei_element (u "rs") None [(u "type", rs_type)])
          (Some text) None None None) child).
Proof.
  intros Hne. split; [done|]. eexists _, _. split; [reflexivity|].
  split; [done|]. unfold create_tei_element. cbn [e_text truthy].
  apply nonempty_true in Hne. by rewrite Hne.
Qed.

Lemma str_or_nonempty title filename :
  filename ≠ [] → str_or title filename ≠ [].
Proof.
  intros Hne. unfold str_or. destruct title as [t|]; cbn [truthy]; [|done].
  destruct (nonempty t) eqn:Ht; [|done]. by apply nonempty_true in Ht.
Qed.

Lemma zusatz_rs_titled dataset_id filename title :
  filename ≠ [] → titled_rs (zusatz_rs dataset_id filename title).
Proof.
  intros Hne. unfold zusatz_rs. cbv zeta.
  by apply titled_rs_built, str_or_nonempty.
Qed.

Lemma bild_rs_titled dataset_id filename title :
  filename ≠ [] → titled_rs (bild_rs dataset_id filename title).
Proof.
  intros Hne. unfold bild_rs. cbv zeta.
  destruct (startswith _ _); by apply titled_rs_built, str_or_nonempty.
Qed.

(** One round of a loop over file fields: one entry more when the
    field is filled, none otherwise. *)
Lemma file_loop_body_grown dataset dataset_id prefix mk_rs st i w :
  (∀ filename title, filename ≠ [] →
     titled_rs (mk_rs dataset_id filename title)) →
  grown st
    (fst (file_loop_body dataset dataset_id prefix mk_rs st i w))
    (if filled dataset (prefix ++ u " " ++ str_of_nat i) then 1 else 0).
Proof.
  intros Hmk. unfold file_loop_body, filled.
  set (key := prefix ++ u " " ++ str_of_nat i).
  destruct (dataset !! key) as [v|]; cbn [truthy default from_option id].
  2:{ apply grown_refl. }
  destruct (nonempty v) eqn:Hv.
  2:{ apply nonempty_false in Hv as ->. apply grown_refl. }
  unfold mbind, warn_bind.
  destruct (parse_file_entry_cases v key dataset_id w)
    as [[Hs ->]|[(Hs & _ & ->)|(j & _ & Hf & _ & ->)]].
  - rewrite Hs. apply grown_refl.
  - apply nonempty_true in Hs as Hs'. rewrite Hs'.
    cbn [truthy default from_option id fst snd]. rewrite Hs'.
    destruct st as [b bibl]. apply (grown_append b). by apply Hmk.
  - assert (strip v ≠ []) as Hs.
    { intros Hs. rewrite Hs, take_nil in Hf. exact (Hf eq_refl). }
    apply nonempty_true in Hs as Hs'. rewrite Hs'.
    apply nonempty_true in Hf as Hf'.
    cbn [truthy default from_option id fst snd]. rewrite Hf'.
    destruct st as [b bibl]. apply (grown_append b). by apply Hmk.
Qed.

Lemma file_loop_grown dataset dataset_id prefix mk_rs xs st w :
  (∀ filename title, filename ≠ [] →
     titled_rs (mk_rs dataset_id filename title)) →
  grown st
    (fst (for_each xs (file_loop_body dataset dataset_id prefix mk_rs) st w))
    (length (filter (λ k, filled dataset k = true)
               ((λ i, prefix ++ u " " ++ str_of_nat i) <$> xs))).
Proof.
  intros Hmk. revert st w. induction xs as [|i xs IH]; intros st w.
  - apply grown_refl.
  - cbn [for_each]. unfold mbind, warn_bind.
    pose proof (file_loop_body_grown dataset dataset_id prefix mk_rs st i w Hmk)
      as Hstep.
    destruct (file_loop_body dataset dataset_id prefix mk_rs st i w)
      as [st1 w1]. cbn [fst] in Hstep.
    rewrite fmap_cons, filter_cons.
    destruct (filled dataset (prefix ++ u " " ++ str_of_nat i)) eqn:Hfi.
    + rewrite decide_True by done. cbn [length].
      apply (grown_trans _ _ _ 1 _ Hstep (IH st1 w1)).
    + rewrite decide_False by done.
      apply (grown_trans _ _ _ 0 _ Hstep (IH st1 w1)).
Qed.

Lemma literatur_grown dataset xs st :
  grown st (foldl (literatur_body dataset) st xs)
    (length (filter (λ k, present dataset k = true)
               ((λ i, u "Literatur " ++ str_of_nat i) <$> xs))).
Proof.
  revert st. induction xs as [|i xs IH]; intros st.
  - apply grown_refl.
  - cbn [foldl]. rewrite fmap_cons, filter_cons.
    destruct (decide (present dataset (u "Literatur " ++ str_of_nat i) = true))
      as [Ht|Ht]; unfold present in Ht; unfold literatur_body at 2; cbv zeta.
    + rewrite Ht. cbn [length].
      refine (grown_trans _ _ _ 1 _ _ (IH _)).
      destruct st as [b bibl]. apply (grown_append b).
      split; [done|]. eexists _, _. split; [reflexivity|]. split; [done|].
      unfold create_tei_element. cbn [e_text]. by rewrite Ht.
    + apply not_true_is_false in Ht. rewrite Ht.
      apply (grown_trans _ _ _ 0 _ (grown_refl _) (IH _)).
Qed.

(** X9.  The additional [bibl] of a document.  It is left out exactly
    when none of the fields [Zusatzdatei 1..10] and [Bild 1..5] is
    filled and none of [Literatur 1..4] is present.  Otherwise it holds
    one [rs] per such field and nothing else, and every [rs] starts
    with a [title] that has a text: the title of the entry, the
    filename when the entry has none. *)
Theorem additional_bibl_entries dataset w :
  let r := fst (additional_bibl_of dataset w) in
  (additional_entries dataset = 0 → r = [])
  ∧ (0 < additional_entries dataset →
     ∃ bibl,
       r = [bibl]
       ∧ e_tag bibl = qname TEI_NS (u "bibl")
       ∧ e_attrib bibl = [(u "type", u "additional")]
       ∧ length (e_children bibl) = additional_entries dataset
       ∧ Forall titled_rs (e_children bibl)).
Proof.
  unfold additional_bibl_of. cbv zeta. unfold mbind, warn_bind.
  set (id := get_or dataset (u "Datensatz ID") (u "000")).
  set (bibl0 := create_tei_element (u "bibl") None [(u "type", u "additional")]).
  pose proof (file_loop_grown dataset id (u "Zusatzdatei") zusatz_rs
                (seq 1 10) (false, bibl0) w (zusatz_rs_titled id)) as H1.
  destruct (for_each (seq 1 10) _ (false, bibl0) w) as [st1 w1].
  cbn [fst] in H1.
  pose proof (file_loop_grown dataset id (u "Bild") bild_rs
                (seq 1 5) st1 w1 (bild_rs_titled id)) as H2.
  destruct (for_each (seq 1 5) _ st1 w1) as [st2 w2]. cbn [fst] in H2.
  pose proof (literatur_grown dataset (seq 1 4) st2) as H3.
  pose proof (grown_trans _ _ _ _ _ (grown_trans _ _ _ _ _ H1 H2) H3) as Hg.
  destruct (foldl (literatur_body dataset) st2 (seq 1 4)) as [has bibl].
  destruct Hg as (Ht & Ha & Hb & new & Hc & Hl & Hf).
  cbn [fst snd] in *. rewrite <- Hl in Hb.
  assert (additional_entries dataset = length new) as ->.
  { rewrite Hl. unfold additional_entries, numbered_keys.
    rewrite filter_app, length_app. reflexivity. }
  cbn [mret warn_ret fst]. split.
  - intros Hz. rewrite Hz in Hb. by rewrite Hb.
  - intros Hpos. rewrite Hb. destruct (length new) as [|n] eqn:Hn; [lia|].
    change (false || (0 <? S n)) with true. exists bibl. split; [done|].
    split; [done|]. split; [done|]. rewrite Hc. split; [done|done].
Qed.
End Additional.

(** X9 on a record with one image and one book. *)
Lemma additional_bibl_entries_witness :
  let dataset : Dataset :=
    {[ u "Bild 1" := u "karte.png - Karte"; u "Literatur 2" := u "Kaser 1995" ]}
  in
  ∃ bibl,
    fst (additional_bibl_of dataset []) = [bibl]
    ∧ e_tag bibl = qname TEI_NS (u "bibl")
    ∧ e_attrib bibl = [(u "type", u "additional")]
    ∧ length (e_children bibl) = additional_entries dataset
    ∧ Forall titled_rs (e_children bibl).
Proof.
  apply (proj2 (additional_bibl_entries
    {[ u "Bild 1" := u "karte.png - Karte"; u "Literatur 2" := u "Kaser 1995" ]}
    [])).
  vm_compute. lia.
Defined.

(** ** The warnings of a document *)

Section Warnings.
Context `{Runtime}.
Implicit Types dataset : Dataset.

Lemma emits_ret {A} (a : A) : emits (mret a) [].
Proof. exists a. intros w. by rewrite app_nil_r. Qed.

Lemma emits_bind {A B} (m : Warn A) (k : A → Warn B) out1 out2 :
  emits m out1 → (∀ a, emits (k a) out2) → emits (m ≫= k) (out1 ++ out2).
Proof.
  intros (a & Hm) Hk. destruct (Hk a) as (b & Hb).
  exists b. intros w. unfold mbind, warn_bind.
  by rewrite Hm, Hb, app_assoc.
Qed.

Lemma emits_for_each {A S} (xs : list A) (body : S → A → Warn S)
    (out : A → list (list N)) (s : S) :
  (∀ s x, emits (body s x) (out x)) →
  emits (for_each xs body s) (flat_map out xs).
Proof.
  intros Hb. revert s. induction xs as [|x xs IH]; intros s; cbn [for_each].
  - apply emits_ret.
  - cbn [flat_map]. apply emits_bind; [apply Hb|apply IH].
Qed.

(** The only warning [parse_file_entry] ever adds is the one for a
    missing title. *)
Lemma emits_parse_file_entry entry field_name dataset_id :
  emits (parse_file_entry entry field_name dataset_id)
    (if nonempty (strip entry) && negb (contains SEP (strip entry))
     then [msg_missing_title dataset_id field_name (strip entry)] else []).
Proof.
  destruct (parse_file_entry_cases entry field_name dataset_id [])
    as [[Hs _]|[(Hs & Hc & _)|(i & Hi & _ & _ & _)]].
  - rewrite Hs. exists (None, None). intros w. rewrite app_nil_r.
    destruct (parse_file_entry_cases entry field_name dataset_id w)
      as [[_ ->]|[(Hs' & _)|(i & Hi & Hf & _)]]; [done|done|].
    rewrite Hs in Hf. rewrite take_nil in Hf. by destruct Hf.
  - apply nonempty_true in Hs as Hs'. rewrite Hs', Hc. cbn [andb negb].
    exists (Some (strip entry), None). intros w.
    destruct (parse_file_entry_cases entry field_name dataset_id w)
      as [[Hs'' _]|[(_ & _ & ->)|(i & Hi & _)]]; [done|done|].
    unfold contains in Hc. by rewrite Hi in Hc.
  - assert (contains SEP (strip entry) = true) as Hc
      by (unfold contains; by rewrite Hi).
    rewrite Hc, andb_false_r.
    exists (Some (strip (take i (strip entry))),
            Some (strip (drop (i + 3) (strip entry)))).
    intros w. rewrite app_nil_r.
    destruct (parse_file_entry_cases entry field_name dataset_id w)
      as [[Hs _]|[(_ & Hc' & _)|(i' & Hi' & _ & _ & ->)]].
    + rewrite Hs in Hi. simpl in Hi. discriminate.
    + congruence.
    + rewrite Hi in Hi'. by injection Hi' as <-.
Qed.

Lemma entry_warning_absent dataset dataset_id key :
  truthy (dataset !! key) = false → entry_warning dataset dataset_id key = [].
Proof.
  unfold entry_warning. destruct (dataset !! key) as [v|]; cbn [truthy]; [|done].
  intros Hv. apply nonempty_false in Hv as ->. done.
Qed.

Lemma emits_csv_rs dataset dataset_id key rs_type fallback :
  emits (csv_rs dataset dataset_id key rs_type fallback)
    (entry_warning dataset dataset_id key).
Proof.
  unfold csv_rs. cbv zeta.
  destruct (truthy (dataset !! key)) eqn:Ht.
  2:{ rewrite entry_warning_absent by done. apply emits_ret. }
  rewrite <- (app_nil_r (entry_warning _ _ _)).
  apply emits_bind; [apply emits_parse_file_entry|].
  intros [filename title]. destruct (truthy filename); apply emits_ret.
Qed.

Lemma emits_file_loop_body dataset dataset_id prefix mk_rs st i :
  emits (file_loop_body dataset dataset_id prefix mk_rs st i)
    (entry_warning dataset dataset_id (prefix ++ u " " ++ str_of_nat i)).
Proof.
  unfold file_loop_body. cbv zeta.
  destruct (truthy (dataset !! (prefix ++ u " " ++ str_of_nat i))) eqn:Ht.
  2:{ rewrite entry_warning_absent by done. apply emits_ret. }
  rewrite <- (app_nil_r (entry_warning _ _ _)).
  apply emits_bind; [apply emits_parse_file_entry|].
  intros [filename title]. destruct (truthy filename); apply emits_ret.
Qed.

Lemma flat_map_fmap {A B C} (f : B → list C) (g : A → B) (l : list A) :
  flat_map f (g <$> l) = flat_map (λ x, f (g x)) l.
Proof. induction l as [|x l IH]; [done|]. cbn. by rewrite IH. Qed.

Lemma emits_create_tei_document dataset template_data :
  emits (create_tei_document dataset template_data)
    (flat_map
       (entry_warning dataset (get_or dataset (u "Datensatz ID") (u "000")))
       file_fields).
Proof.
  set (id := get_or dataset (u "Datensatz ID") (u "000")).
  assert (flat_map (entry_warning dataset id) file_fields
          = ((entry_warning dataset id (u "CSV Codes")
              ++ entry_warning dataset id (u "CSV Labels") ++ [])
             ++ (flat_map (λ i, entry_warning dataset id
                                  (u "Zusatzdatei" ++ u " " ++ str_of_nat i))
                   (seq 1 10)
                 ++ flat_map (λ i, entry_warning dataset id
                                     (u "Bild" ++ u " " ++ str_of_nat i))
                      (seq 1 5)
                 ++ [])
             ++ []) ++ []) as ->.
  { unfold file_fields, numbered_keys.
    rewrite !flat_map_app, !flat_map_fmap, !app_nil_r. cbn [flat_map].
    by rewrite !app_nil_r, <- !app_assoc. }
  unfold create_tei_document.
  apply emits_bind; [|intros ?; apply emits_ret].
  unfold source_desc_of. cbv zeta.
  apply emits_bind; [|intros ?; apply emits_bind; [|intros ?; apply emits_ret]].
  - unfold data_bibl_of. cbv zeta.
    apply emits_bind; [apply emits_csv_rs|intros ?].
    apply emits_bind; [apply emits_csv_rs|intros ?]. apply emits_ret.
  - unfold additional_bibl_of. cbv zeta.
    apply emits_bind; [apply emits_for_each; intros; apply emits_file_loop_body|].
    intros ?.
    apply emits_bind; [apply emits_for_each; intros; apply emits_file_loop_body|].
    intros ?. destruct (foldl _ _ _). apply emits_ret.
Qed.

(** X10.  The warnings of a document are those of its file fields and
    no others: in the order [CSV Codes], [CSV Labels],
    [Zusatzdatei 1..10], [Bild 1..5], one warning about a missing title
    for every field that is filled and holds no separator [' - '].
    They are added behind the warnings collected before, which are
    kept; no other field of the record and nothing of the template can
    cause a warning. *)
Theorem create_tei_document_warnings dataset template_data w :
  snd (create_tei_document dataset template_data w)
  = w ++ flat_map
           (entry_warning dataset
              (get_or dataset (u "Datensatz ID") (u "000")))
           file_fields.
Proof.
  destruct (emits_create_tei_document dataset template_data) as (a & Ha).
  by rewrite Ha.
Qed.

Lemma flat_map_nil_inv {A B} (f : A → list B) (l : list A) x :
  flat_map f l = [] → x ∈ l → f x = [].
Proof.
  induction l as [|y l IH]; cbn [flat_map]; intros Hn Hx.
  - by apply elem_of_nil in Hx.
  - apply app_eq_nil in Hn as [Hy Hl].
    apply elem_of_cons in Hx as [->|Hx]; [done|by apply IH].
Qed.

Lemma flat_map_all_nil {A B} (f : A → list B) (l : list A) :
  (∀ x, x ∈ l → f x = []) → flat_map f l = [].
Proof.
  induction l as [|y l IH]; cbn [flat_map]; intros Hn; [done|].
  rewrite Hn by apply list_elem_of_here. apply IH.
  intros x Hx. by apply Hn, list_elem_of_further.
Qed.

(** A field for which the auditor lists nothing gives no warning in
    the converter. *)
Lemma entry_issues_none dataset dataset_id key guarded :
  Audit.entry_issues dataset key guarded = [] →
  entry_warning dataset dataset_id key = [].
Proof.
  unfold Audit.entry_issues, entry_warning, Audit.field, get_or. cbv zeta.
  set (value := default [] (dataset !! key)).
  destruct (guarded && negb (nonempty value)) eqn:Hg.
  { apply andb_true_iff in Hg as [_ Hv]. apply negb_true_iff in Hv.
    apply nonempty_false in Hv as ->. done. }
  unfold Audit.validate_file_entry.
  destruct (validate_file_entry_cases value)
    as [[Hs _]|[(_ & _ & rest & ->)|(i & Hi & _)]].
  - by rewrite Hs.
  - cbn [snd length Nat.eqb negb fmap list_fmap]. done.
  - intros _. unfold contains. rewrite Hi. by rewrite andb_false_r.
Qed.

(** X11.  A record for which the auditor lists no issue is converted
    without warning: the converter warns only about file fields without
    a title, and the auditor lists every such field. *)
Theorem audit_clean_no_warnings (fs : Audit.FileSystem) dataset template_data w :
  Audit.dataset_issues fs dataset = [] →
  snd (create_tei_document dataset template_data w) = w.
Proof.
  intros Hclean.
  destruct (emits_create_tei_document dataset template_data) as (a & Ha).
  rewrite Ha. cbn [snd]. rewrite flat_map_all_nil; [by rewrite app_nil_r|].
  intros key Hkey. unfold Audit.dataset_issues in Hclean. cbv zeta in Hclean.
  apply app_eq_nil in Hclean as [_ Hclean].
  apply app_eq_nil in Hclean as [Hcodes Hclean].
  apply app_eq_nil in Hclean as [Hlabels Hclean].
  apply app_eq_nil in Hclean as [_ Hclean].
  apply app_eq_nil in Hclean as [_ Hclean].
  apply app_eq_nil in Hclean as [Hzusatz Hclean].
  apply app_eq_nil in Hclean as [Hbild _].
  unfold file_fields in Hkey. rewrite !elem_of_app in Hkey.
  destruct Hkey as [Hkey|[Hkey|Hkey]].
  - apply elem_of_cons in Hkey as [->|Hkey];
      [by eapply entry_issues_none|].
    apply list_elem_of_singleton in Hkey as ->. by eapply entry_issues_none.
  - eapply entry_issues_none.
    apply (flat_map_nil_inv _ _ key Hzusatz Hkey).
  - eapply entry_issues_none.
    apply (flat_map_nil_inv _ _ key Hbild Hkey).
Qed.
End Warnings.

(** A record with two file fields without a title. *)
Example create_tei_document_warnings_run :
  snd (create_tei_document
         {[ u "Datensatz ID" := u "147"; u "Bild 2" := u "karte.png";
            u "CSV Codes" := u "147_codes.csv";
            u "Bild 1" := u "haus.jpg - Haus" ]}
         no_template [u "earlier"])
  = [ u "earlier";
      msg_missing_title (u "147") (u "CSV Codes") (u "147_codes.csv");
      msg_missing_title (u "147") (u "Bild 2") (u "karte.png") ].
Proof. vm_compute. reflexivity. Qed.

(** X11 on a record without issues, in a directory that holds its
    file. *)
Lemma audit_clean_no_warnings_witness :
  snd (create_tei_document clean_record no_template []) = [].
Proof.
  apply (audit_clean_no_warnings full_disk). vm_compute. reflexivity.
Defined.

(** ** The files the auditor looks for *)

Section LinkedFiles.
Implicit Types value key f folder : list N.
Implicit Types dataset : Dataset.

(** On a stripped value the auditor and the converter read the same
    filename. *)
Lemma entry_file_parsed value key dataset_id w :
  strip value = value → value ≠ [] →
  ∃ f, fst (fst (parse_file_entry value key dataset_id w)) = Some f
       ∧ f ≠ [] ∧ Audit.entry_file value = f.
Proof.
  intros Hs Hne. unfold Audit.entry_file.
  destruct (parse_file_entry_cases value key dataset_id w)
    as [[Hb _]|[(_ & Hc & ->)|(i & Hi & Hf & _ & ->)]]; rewrite Hs in *.
  - done.
  - exists value. by rewrite Hc.
  - exists (strip (take i value)). split; [done|]. split; [done|].
    unfold contains. rewrite Hi. unfold split.
    destruct value as [|c value]; [done|]. cbn [length split_max].
    by rewrite Hi.
Qed.

(** X12.  A file field as the loaders store it, stripped and not
    empty: the file the auditor looks for is the file the converter
    links.  Both read the same filename from the value; and when the
    auditor has nothing to say about the field, the dataset has a
    folder, the file is in it, and the URL the converter writes is
    [../folder/filename]. *)
Theorem audited_file_is_linked (fs : Audit.FileSystem) dataset key dataset_id
    value w :
  dataset !! key = Some value → strip value = value → value ≠ [] →
  ∃ f, fst (fst (parse_file_entry value key dataset_id w)) = Some f
    ∧ Audit.entry_file value = f
    ∧ (Audit.file_issue fs dataset dataset_id key = [] →
       ∃ folder,
         get_dataset_folder dataset_id = Some folder
         ∧ Audit.folder_exists fs folder = true
         ∧ Audit.file_exists fs folder f = true
         ∧ add_folder_prefix f dataset_id = u "../" ++ folder ++ u "/" ++ f).
Proof.
  intros Hv Hs Hne.
  destruct (entry_file_parsed value key dataset_id w Hs Hne)
    as (f & Hf & Hfne & He).
  exists f. split; [done|]. split; [done|].
  unfold Audit.file_issue, Audit.field, get_or. rewrite Hv.
  cbn [default from_option id]. cbv zeta.
  apply nonempty_true in Hne as ->. rewrite He.
  apply nonempty_true in Hfne as Hfne'. rewrite Hfne'.
  unfold Audit.check_file_exists, add_folder_prefix, get_dataset_folder.
  rewrite Hfne'. cbn [negb].
  destruct (dict_get DATASET_FOLDERS dataset_id) as [folder|]; [|done].
  destruct (nonempty folder); cbn [negb andb]; [|done].
  destruct (Audit.folder_exists fs folder) eqn:Hfolder; cbn [negb]; [|done].
  destruct (Audit.file_exists fs folder f) eqn:Hfile; cbn [negb]; [|done].
  intros _. by exists folder.
Qed.
End LinkedFiles.

(** X12 on an image of dataset 147. *)
Lemma audited_file_is_linked_witness :
  ∃ f, fst (fst (parse_file_entry (u "karte.png - Karte") (u "Bild 1")
                   (u "147") []))
       = Some f
    ∧ Audit.entry_file (u "karte.png - Karte") = f
    ∧ (Audit.file_issue full_disk clean_record (u "147") (u "Bild 1") = [] →
       ∃ folder,
         get_dataset_folder (u "147") = Some folder
         ∧ Audit.folder_exists full_disk folder = true
         ∧ Audit.file_exists full_disk folder f = true
         ∧ add_folder_prefix f (u "147") = u "../" ++ folder ++ u "/" ++ f).
Proof.
  apply (audited_file_is_linked full_disk clean_record (u "Bild 1") (u "147")
           (u "karte.png - Karte") []).
  - vm_compute. reflexivity.
  - vm_compute. reflexivity.
  - vm_compute. congruence.
Defined.

(** ** Codes and labels *)

Section CodesAndLabels.
Implicit Types s b p old new : list N.

Lemma endswith_app b p : endswith (b ++ p) p = true.
Proof.
  unfold endswith. rewrite reverse_app. apply startswith_spec. by eexists.
Qed.

Lemma contains_false sub s :
  contains sub s = false → str_find sub s = None.
Proof. unfold contains. by destruct (str_find sub s). Qed.

(** A pattern whose first character does not come back in it, behind a
    text that does not hold the pattern: its first occurrence is at the
    end of the text. *)
Lemma str_find_suffix c p b :
  c ∉ p → contains (c :: p) b = false →
  str_find (c :: p) (b ++ c :: p) = Some (length b).
Proof.
  intros Hc Hb. apply str_find_first.
  - intros j Hj. apply not_true_is_false. intros Hs.
    rewrite drop_app_le in Hs by lia.
    apply startswith_spec in Hs as [r Hr].
    assert (0 < length (drop j b)) as Hm by (rewrite length_drop; lia).
    destruct (decide (length (c :: p) ≤ length (drop j b))) as [Hle|Hgt].
    + assert (contains (c :: p) b = true) as Hb'; [|congruence].
      apply contains_true. exists (take j b), (drop (length (c :: p)) (drop j b)).
      rewrite <- (take_drop j b) at 1. f_equal.
      rewrite <- (take_drop (length (c :: p)) (drop j b)) at 1. f_equal.
      apply (f_equal (take (length (c :: p)))) in Hr.
      rewrite take_app_le in Hr by done.
      by rewrite take_app_length in Hr.
    + apply (f_equal (λ l, l !! length (drop j b))) in Hr.
      rewrite lookup_app_r in Hr by lia. rewrite Nat.sub_diag in Hr.
      rewrite lookup_app_l in Hr by lia.
      destruct (length (drop j b)) as [|m]; [lia|]. cbn in Hr.
      apply Hc. by apply (list_elem_of_lookup_2 p m c).
  - rewrite drop_app_length. apply startswith_spec. exists [].
    by rewrite app_nil_r.
Qed.

Lemma replace_absent old new s :
  contains old s = false → replace old new s = s.
Proof.
  intros Hc. apply contains_false in Hc. unfold replace.
  destruct (length s); cbn [replace_max]; [done|]. by rewrite Hc.
Qed.

(** Removing a suffix that occurs nowhere else. *)
Lemma replace_suffix c p b :
  c ∉ p → contains (c :: p) b = false →
  replace (c :: p) [] (b ++ c :: p) = b.
Proof.
  intros Hc Hb. unfold replace. rewrite length_app. cbn [length].
  rewrite Nat.add_succ_r. cbn [replace_max].
  rewrite str_find_suffix by done.
  rewrite take_app_length, drop_app_add. cbn [length drop].
  rewrite drop_all. cbn [app].
  destruct (length b + length p); cbn [replace_max]; by rewrite ?app_nil_r.
Qed.

(** X13.  The rule that pairs the file of codes with the file of
    labels, on names built by the convention [base_codes.csv] and
    [base_labels.csv] where neither suffix occurs inside a base: it
    passes exactly when the two bases are equal, and otherwise lists
    the one issue that names both bases. *)
Theorem labels_match_codes codes_entry labels_entry b1 b2 :
  codes_entry ≠ [] → labels_entry ≠ [] →
  Audit.entry_file codes_entry = b1 ++ u "_codes.csv" →
  Audit.entry_file labels_entry = b2 ++ u "_labels.csv" →
  contains (u "_codes.csv") b1 = false →
  contains (u "_codes.csv") b2 = false →
  contains (u "_labels.csv") b2 = false →
  Audit.validate_csv_labels_match_codes codes_entry labels_entry
  = if decide (b1 = b2) then (true, [])
    else (false,
          [u "Basis-Dateinamen stimmen nicht überein: codes='" ++ b1
           ++ u "' vs labels='" ++ b2 ++ u "'"]).
Proof.
  intros Hc Hl Hcf Hlf H1 H2 H3.
  unfold Audit.validate_csv_labels_match_codes.
  apply nonempty_true in Hc as ->. apply nonempty_true in Hl as ->.
  cbn [negb orb]. cbv zeta. rewrite Hcf, Hlf, !endswith_app. cbn [negb app].
  change (u "_codes.csv") with (95%N :: u "codes.csv") in *.
  change (u "_labels.csv") with (95%N :: u "labels.csv") in *.
  rewrite (replace_suffix 95 (u "codes.csv") b1), (replace_suffix 95 (u "labels.csv") b2);
    [|by apply (bool_decide_unpack _)|done|by apply (bool_decide_unpack _)|done].
  rewrite (replace_absent _ _ b2) by done.
  unfold str_eqb. destruct (decide (b1 = b2)) as [->|Hne].
  - by rewrite bool_decide_eq_true_2.
  - by rewrite bool_decide_eq_false_2.
Qed.
End CodesAndLabels.

(** X13 on the files of dataset 147. *)
Lemma labels_match_codes_witness :
  Audit.validate_csv_labels_match_codes
    (u "datafile_147_codes.csv - Codes") (u "datafile_147_labels.csv - Labels")
  = if decide (u "datafile_147" = u "datafile_147") then (true, [])
    else (false,
          [u "Basis-Dateinamen stimmen nicht überein: codes='"
           ++ u "datafile_147" ++ u "' vs labels='" ++ u "datafile_147"
           ++ u "'"]).
Proof.
  apply labels_match_codes; vm_compute; congruence.
Defined.

(** ** The body of a document *)

Section Body.
Implicit Types s sep : list N.
Implicit Types dataset : Dataset.

Lemma tag_append parent child : e_tag (append parent child) = e_tag parent.
Proof. done. Qed.

Lemma tag_extend parent cs : e_tag (extend parent cs) = e_tag parent.
Proof.
  unfold extend. revert parent.
  induction cs as [|c cs IH]; intros parent; [done|]. cbn [foldl].
  by rewrite IH.
Qed.

Lemma split_max_nonempty n sep s : split_max n sep s ≠ [].
Proof. destruct n; cbn [split_max]; [done|]. by destruct (str_find sep s). Qed.

Lemma join_cons sep p parts :
  parts ≠ [] → join sep (p :: parts) = p ++ sep ++ join sep parts.
Proof. by destruct parts. Qed.

(** Joining the pieces of a split gives the text back. *)
Lemma join_split_max n sep s : join sep (split_max n sep s) = s.
Proof.
  revert s. induction n as [|n IH]; intros s; cbn [split_max]; [done|].
  destruct (str_find sep s) as [i|] eqn:F; [|done].
  rewrite join_cons by apply split_max_nonempty. rewrite IH.
  by apply str_find_Some in F as [<- _].
Qed.

Lemma join_blank sep parts :
  forallb is_space sep = true →
  Forall (λ p, forallb is_space p = true) parts →
  forallb is_space (join sep parts) = true.
Proof.
  intros Hsep. induction 1 as [|p parts Hp Hparts IH]; [done|].
  destruct parts as [|q parts]; [done|].
  rewrite join_cons by done. rewrite !forallb_app, Hp, Hsep, IH. done.
Qed.

(** The paragraphs made of the pieces of a description. *)
Lemma paragraphs_of pieces :
  let ps :=
    flat_map
      (λ para,
         if nonempty (strip para)
         then [create_tei_element (u "p") (Some (strip para)) []] else [])
      pieces in
  Forall is_paragraph ps
  ∧ (ps = [] → Forall (λ p, forallb is_space p = true) pieces).
Proof.
  induction pieces as [|para pieces [IH1 IH2]]; cbn [flat_map].
  - split; [constructor|]. intros _. constructor.
  - destruct (nonempty (strip para)) eqn:Hp.
    + split; [|done]. cbn [app]. constructor; [|done]. split; [done|].
      exists (strip para). unfold create_tei_element. cbn [e_text truthy].
      rewrite Hp. split; [done|]. split; [by apply nonempty_true|].
      apply strip_idem.
    + cbn [app]. split; [done|]. intros Hnil. constructor; [|by apply IH2].
      apply strip_nil. by apply nonempty_false.
Qed.

Lemma split_max_blank n sep s :
  forallb is_space s = true →
  Forall (λ p, forallb is_space p = true) (split_max n sep s).
Proof.
  revert s. induction n as [|n IH]; intros s Hs; cbn [split_max].
  - by apply Forall_singleton.
  - destruct (str_find sep s) as [i|] eqn:F; [|by apply Forall_singleton].
    apply str_find_Some in F as [Hsplit _]. rewrite Hsplit in Hs.
    rewrite !forallb_app, !andb_true_iff in Hs. destruct Hs as (? & ? & ?).
    constructor; [done|by apply IH].
Qed.

Lemma paragraphs_blank pieces :
  Forall (λ p, forallb is_space p = true) pieces →
  flat_map
    (λ para,
       if nonempty (strip para)
       then [create_tei_element (u "p") (Some (strip para)) []] else [])
    pieces
  = [].
Proof.
  induction 1 as [|para pieces Hp _ IH]; [done|]. cbn [flat_map].
  apply strip_nil in Hp. rewrite Hp. done.
Qed.

(** X14.  The body of every document holds a [head] first and a
    [note] with a text last, and between them only paragraphs whose
    text is not empty and stripped.  A record without description gets
    the one paragraph [Description pending.]; a description with some
    visible character gets at least one paragraph; a description of
    blanks alone gets none. *)
Theorem text_of_body dataset :
  let description := get_or dataset (u "Beschreibung") [] in
  ∃ body head ps note,
    e_children (text_of dataset) = [body]
    ∧ e_tag body = qname TEI_NS (u "body")
    ∧ e_children body = head :: ps ++ [note]
    ∧ e_tag head = qname TEI_NS (u "head")
    ∧ e_tag note = qname TEI_NS (u "note") ∧ truthy (e_text note) = true
    ∧ Forall is_paragraph ps
    ∧ (description = [] →
       ps = [create_tei_element (u "p") (Some (u "Description pending.")) []])
    ∧ (strip description ≠ [] → ps ≠ [])
    ∧ (description ≠ [] → strip description = [] → ps = []).
Proof.
  cbv zeta. unfold text_of. cbv zeta.
  set (description := get_or dataset (u "Beschreibung") []).
  set (head := create_tei_element (u "head") _ []).
  set (note := create_tei_element (u "note") _ []).
  assert (truthy (e_text note) = true) as Hnote.
  { unfold note, create_tei_element. cbn [e_text].
    destruct (nonempty (get_or dataset (u "Anmerkungen") [])) eqn:Hn;
      cbn [truthy]; [by rewrite Hn|done]. }
  destruct (nonempty description) eqn:Hd.
  - set (pieces := if contains NL2 description then split NL2 description
                   else [description]).
    destruct (paragraphs_of pieces) as [Hps Hnil]. cbv zeta in Hps, Hnil.
    eexists _, head, _, note. split; [reflexivity|].
    split; [by rewrite tag_append, tag_extend|]. split.
    { rewrite children_append, children_extend, children_append.
      cbn [create_tei_element e_children app]. reflexivity. }
    split; [done|]. split; [done|]. split; [done|]. split; [exact Hps|].
    apply nonempty_true in Hd. split; [intros Hd0; by destruct Hd|]. split.
    + intros Hvis Hno. apply Hvis, strip_nil.
      apply Hnil in Hno. unfold pieces in Hno.
      destruct (contains NL2 description).
      * rewrite <- (join_split_max (length description) NL2 description).
        by apply join_blank.
      * exact (Forall_inv Hno).
    + intros _ Hblank. apply strip_nil in Hblank.
      apply paragraphs_blank. unfold pieces.
      destruct (contains NL2 description);
        [by apply split_max_blank|by apply Forall_singleton].
  - apply nonempty_false in Hd as Hd'.
    eexists _, head, [_], note. split; [reflexivity|].
    split; [done|]. split; [reflexivity|].
    split; [done|]. split; [done|]. split; [done|]. split.
    { apply Forall_singleton. split; [done|]. eexists. split; [reflexivity|].
      split; [done|]. reflexivity. }
    split; [done|]. split; [done|]. intros Hne. by destruct Hne.
Qed.
End Body.

(** A description of two paragraphs with a blank one between them. *)
Example text_of_two_paragraphs :
  e_children <$> e_children
    (text_of {[ u "Beschreibung" := u "One." ++ NL2 ++ u " " ++ NL2 ++ u "Two. " ]})
  = [ [ create_tei_element (u "head") (Some (u "COUNTRY None")) [];
        create_tei_element (u "p") (Some (u "One.")) [];
        create_tei_element (u "p") (Some (u "Two.")) [];
        create_tei_element (u "note") (Some (u "No additional notes.")) [] ] ].
Proof. vm_compute. reflexivity. Qed.

(** ** Identifiers and extensions *)

Section Extensions.
Context `{Runtime}.
Implicit Types base e p s : list N.

Lemma str_find_absent_char c p s : c ∉ s → str_find (c :: p) s = None.
Proof.
  induction s as [|x s IH]; intros Hc; [done|].
  apply not_elem_of_cons in Hc as [Hx Hs]. cbn [str_find startswith].
  destruct (N.eqb_spec c x) as [->|_]; [done|]. cbn [andb].
  by rewrite IH.
Qed.

Lemma contains_absent_char c p s : c ∉ s → contains (c :: p) s = false.
Proof. intros Hc. unfold contains. by rewrite str_find_absent_char. Qed.

(** A pattern that starts with a character which the text holds once
    can only occur at that place. *)
Lemma contains_at_char c p a e :
  c ∉ a → c ∉ e → contains (c :: p) (a ++ c :: e) = startswith e p.
Proof.
  intros Ha He. unfold contains. induction a as [|x a IH].
  - cbn [app str_find startswith]. rewrite N.eqb_refl. cbn [andb].
    destruct (startswith e p); [done|].
    by rewrite str_find_absent_char.
  - apply not_elem_of_cons in Ha as [Hx Ha]. specialize (IH Ha).
    cbn [app str_find startswith].
    destruct (N.eqb_spec c x) as [->|_]; [done|]. cbn [andb].
    by destruct (str_find (c :: p) (a ++ c :: e)).
Qed.

Lemma replace_other_extension c p base e :
  c ∉ base → c ∉ e → startswith e p = false →
  replace (c :: p) [] (base ++ c :: e) = base ++ c :: e.
Proof.
  intros Hb He Hs. apply replace_absent. by rewrite contains_at_char.
Qed.

Lemma replace_this_extension c base e :
  c ∉ base → c ∉ e → replace (c :: e) [] (base ++ c :: e) = base.
Proof. intros Hb He. apply replace_suffix; [done|by apply contains_absent_char]. Qed.

Lemma replace_no_extension c p new base :
  c ∉ base → replace (c :: p) new base = base.
Proof. intros Hb. by apply replace_absent, contains_absent_char. Qed.

Local Ltac absent :=
  match goal with
  | |- ?P => apply (bool_decide_unpack P); vm_compute; exact I
  end.

(** X15.  A filename whose base holds no blank, dot or hyphen, with
    one of the extensions [.csv], [.pdf], [.jpg], [.JPG], [.jpeg],
    [.png] or with none: [sanitize_xml_id] drops the extension and
    keeps the base as it is, whatever its characters, with an
    underscore in front when it starts with a digit.  So two files
    that differ in the extension only get the same identifier. *)
Theorem sanitize_xml_id_extension base ext :
  base ≠ [] → (∀ c, c ∈ base → c ≠ 32%N ∧ c ≠ 46%N ∧ c ≠ 45%N) →
  ext ∈ [] :: known_extensions →
  sanitize_xml_id (base ++ ext)
  = match base with
    | c :: _ => if chr_isdigit c then u "_" ++ base else base
    | [] => base
    end.
Proof.
  intros Hne Hchars Hext.
  assert ((32%N ∉ base) ∧ (46%N ∉ base) ∧ (45%N ∉ base)) as (H32 & H46 & H45).
  { split; [|split]; intros Hc; by destruct (Hchars _ Hc) as (? & ? & ?). }
  assert (replace (u ".png") [] (replace (u ".jpeg") [] (replace (u ".JPG") []
            (replace (u ".jpg") [] (replace (u ".pdf") []
              (replace (u ".csv") [] (base ++ ext)))))) = base) as Hbase.
  { change (u ".png") with (46%N :: u "png").
    change (u ".jpeg") with (46%N :: u "jpeg").
    change (u ".JPG") with (46%N :: u "JPG").
    change (u ".jpg") with (46%N :: u "jpg").
    change (u ".pdf") with (46%N :: u "pdf").
    change (u ".csv") with (46%N :: u "csv").
    unfold known_extensions in Hext.
    repeat (apply elem_of_cons in Hext as [->|Hext]);
      [rewrite app_nil_r| | | | | | |by apply elem_of_nil in Hext].
    2: change (base ++ u ".csv") with (base ++ 46%N :: u "csv").
    3: change (base ++ u ".pdf") with (base ++ 46%N :: u "pdf").
    4: change (base ++ u ".jpg") with (base ++ 46%N :: u "jpg").
    5: change (base ++ u ".JPG") with (base ++ 46%N :: u "JPG").
    6: change (base ++ u ".jpeg") with (base ++ 46%N :: u "jpeg").
    7: change (base ++ u ".png") with (base ++ 46%N :: u "png").
    all: repeat first
           [ rewrite (replace_no_extension 46 _ _ base) by done
           | rewrite (replace_this_extension 46 base) by (done || absent)
           | rewrite (replace_other_extension 46 _ base)
               by (done || absent || reflexivity) ].
    all: done. }
  unfold sanitize_xml_id.
  assert (nonempty (base ++ ext) = true) as ->.
  { apply nonempty_true. by destruct base. }
  cbn [negb]. cbv zeta. rewrite Hbase.
  change (u " ") with [32%N]. change (u ".") with [46%N].
  change (u "-") with [45%N].
  rewrite (replace_no_extension 32 _ _ base), (replace_no_extension 46 _ _ base),
    (replace_no_extension 45 _ _ base) by done.
  destruct base as [|c r]; [done|].
  destruct (chr_isdigit c); [|by apply nonempty_true in Hne as ->].
  done.
Qed.
End Extensions.

(** X15 on a page that exists as an image and as a document. *)
Lemma sanitize_xml_id_extension_witness :
  sanitize_xml_id (u "1863_page(1)" ++ u ".pdf")
  = match u "1863_page(1)" with
    | c :: _ => if chr_isdigit c then u "_" ++ u "1863_page(1)"
                else u "1863_page(1)"
    | [] => u "1863_page(1)"
    end.
Proof.
  apply sanitize_xml_id_extension.
  - vm_compute. congruence.
  - intros c Hc. vm_compute in Hc.
    repeat (apply elem_of_cons in Hc as [->|Hc]; [done|]).
    by apply elem_of_nil in Hc.
  - apply (bool_decide_unpack _). vm_compute. exact I.
Defined.

Example sanitize_xml_id_same_identifier :
  sanitize_xml_id (u "karte.jpg") = sanitize_xml_id (u "karte.pdf").
Proof. vm_compute. reflexivity. Qed.

(** ** Languages and keywords *)

Section Profile.
Context `{Runtime}.
Implicit Types s : list N.
Implicit Types dataset : Dataset.

Lemma occurrences_app c s1 s2 :
  occurrences c (s1 ++ s2) = occurrences c s1 + occurrences c s2.
Proof. unfold occurrences. by rewrite filter_app, length_app. Qed.

Lemma occurrences_single c : occurrences c [c] = 1.
Proof. unfold occurrences. by rewrite filter_cons, decide_True. Qed.

Lemma occurrences_none c s :
  (∀ j, s !! j ≠ Some c) → occurrences c s = 0.
Proof.
  unfold occurrences. induction s as [|x s IH]; intros Hc; [done|].
  rewrite filter_cons. destruct (decide (x = c)) as [->|_].
  - by destruct (Hc 0).
  - apply IH. intros j. apply (Hc (S j)).
Qed.

(** Splitting at a character gives one piece more than the character
    occurs. *)
Lemma split_max_char_length c n s :
  length s ≤ n → length (split_max n [c] s) = S (occurrences c s).
Proof.
  revert s. induction n as [|n IH]; intros s Hn.
  - destruct s; [done|simpl in Hn; lia].
  - cbn [split_max]. destruct (str_find [c] s) as [i|] eqn:F.
    + apply str_find_Some in F as [Hs Hno]. simpl in Hs.
      assert (length (drop (i + 1) s) ≤ n).
      { rewrite Hs in Hn. rewrite length_app in Hn. simpl in Hn. lia. }
      cbn [length]. rewrite IH by done. rewrite Hs at 2.
      rewrite occurrences_app. change (c :: drop (i + 1) s)
        with ([c] ++ drop (i + 1) s). rewrite occurrences_app.
      rewrite (occurrences_none c (take i s)).
      * by rewrite occurrences_single.
      * intros j Hj. apply lookup_take_Some in Hj as [Hj Hlt].
        by apply (not_startswith_char c s j (Hno j Hlt)).
    + apply str_find_char_None in F. rewrite occurrences_none; [done|].
      intros j Hj. by apply list_elem_of_lookup_2 in Hj.
Qed.

Lemma keyword_items pieces :
  let items :=
    flat_map
      (λ keyword,
         if nonempty (strip keyword)
         then [append (create_tei_element (u "item") None [])
                 (create_tei_element (u "term") (Some (strip keyword)) [])]
         else [])
      pieces in
  Forall is_keyword_item items ∧ length items ≤ length pieces
  ∧ (items = [] ↔ Forall (λ p, strip p = []) pieces).
Proof.
  induction pieces as [|k pieces (IH1 & IH2 & IH3)]; cbn [flat_map].
  - split; [constructor|]. split; [done|]. split; [constructor|done].
  - destruct (nonempty (strip k)) eqn:Hk.
    + cbn [app length]. split.
      { constructor; [|done]. split; [done|]. exists (strip k).
        split; [done|]. split; [by apply nonempty_true|apply strip_idem]. }
      split; [lia|]. split; [done|]. intros Hall.
      apply Forall_inv in Hall. apply nonempty_true in Hk. done.
    + cbn [app length]. split; [done|]. split; [lia|].
      apply nonempty_false in Hk. rewrite IH3. split.
      * intros Hall. by constructor.
      * intros Hall. by apply Forall_inv_tail in Hall.
Qed.

(** X16.  Languages and keywords of a document.  [langUsage] holds one
    [language] per piece of [Sprachcodes] between commas, a blank piece
    included: one more than the field has commas, so never none, and a
    comma at the end gives a [language] with an empty [ident].  The
    keyword list is treated differently: a blank piece of
    [Schlagwörter] is skipped, every [item] holds one [term] with a
    text that is not empty, and the list is empty exactly when every
    piece is blank. *)
Theorem profile_desc_counts dataset :
  let codes := get_or dataset (u "Sprachcodes") (u "en") in
  let words := get_or dataset (u "Schlagwörter") [] in
  ∃ lang_usage text_class keywords kw_list,
    e_children (profile_desc_of dataset) = [lang_usage; text_class]
    ∧ e_children text_class = [keywords]
    ∧ e_children keywords = [kw_list]
    ∧ length (e_children lang_usage) = S (occurrences 44 codes)
    ∧ Forall is_language (e_children lang_usage)
    ∧ Forall is_keyword_item (e_children kw_list)
    ∧ length (e_children kw_list) ≤ S (occurrences 44 words)
    ∧ (e_children kw_list = []
       ↔ Forall (λ p, strip p = []) (split (u ",") words)).
Proof.
  cbv zeta. unfold profile_desc_of. cbv zeta.
  set (codes := get_or dataset (u "Sprachcodes") (u "en")).
  set (words := get_or dataset (u "Schlagwörter") []).
  destruct (keyword_items (split (u ",") words)) as (Hk1 & Hk2 & Hk3).
  cbv zeta in Hk1, Hk2, Hk3.
  eexists _, _, _, _. split; [reflexivity|]. split; [reflexivity|].
  split; [reflexivity|]. rewrite !children_extend. cbn [create_tei_element
    e_children app]. split.
  { rewrite length_fmap. by apply (split_max_char_length 44). }
  split.
  { apply Forall_fmap, Forall_forall. intros code _. split; [done|].
    exists (strip code). split; [done|apply strip_idem]. }
  split; [done|]. split; [|done].
  etransitivity; [exact Hk2|].
  by apply Nat.eq_le_incl, (split_max_char_length 44 (length words) words).
Qed.
End Profile.

(** A field of codes with a comma at the end, and keywords with a
    blank piece. *)
Example profile_desc_of_trailing_comma :
  let p := profile_desc_of
             {[ u "Sprachcodes" := u "sr, de,";
                u "Schlagwörter" := u "census, ,household" ]} in
  (λ l, e_attrib <$> e_children l) <$> e_children p !! 0
  = Some [ [(u "ident", u "sr")]; [(u "ident", u "de")]; [(u "ident", [])] ].
Proof. vm_compute. reflexivity. Qed.

(** ** From the table to the files *)

Section Conversion.
Context `{Runtime}.
Variable prettify_xml : Element → result pystr.
Variable write_file : list N → list N → list N → result unit.
Variable template_data : TemplateData.
Variable output_dir : list N.

Lemma main_loop_warnings i datasets st st' :
  main_loop prettify_xml write_file template_data output_dir i datasets st
  = (st', None) →
  run_warnings st'
  = run_warnings st ++ concat (warnings_of template_data <$> datasets).
Proof.
  revert i st. induction datasets as [|d ds IH]; intros i st.
  - intros [= <-]. cbn. by rewrite app_nil_r.
  - cbn [main_loop].
    destruct (process_dataset _ _ _ _ i d st) as [st1 [e|]] eqn:Hp; [done|].
    apply process_dataset_success in Hp as [_ ->].
    intros Hl. apply IH in Hl. rewrite Hl. cbn [run_warnings].
    rewrite fmap_cons. cbn [concat]. by rewrite app_assoc.
Qed.

(** X17.  A conversion from the rows of the table on.  A table of
    fewer than two rows ends it with [IndexError] before anything is
    written.  A conversion that ends without exception has written one
    file per column of the second row that has a name, from the third
    column on, and its warnings are those of the datasets of this
    table alone: the list is reset at the start of [main]. *)
Theorem convert_main_files rows :
  (length rows < 2 →
   convert_main prettify_xml write_file template_data output_dir rows
   = (fresh_run, Some IndexError))
  ∧ ∀ st,
      convert_main prettify_xml write_file template_data output_dir rows
      = (st, None) →
      ∃ header datasets,
        rows !! 1 = Some header
        ∧ parse_csv_column rows = Ok datasets
        ∧ length (run_written st) = named_columns header
        ∧ run_warnings st = concat (warnings_of template_data <$> datasets).
Proof.
  unfold convert_main. split.
  - intros Hlen. unfold parse_csv_column.
    rewrite (lookup_ge_None_2 rows 1) by lia. done.
  - intros st. destruct (parse_csv_column rows) as [datasets|e] eqn:Hp; [|done].
    intros Hloop. unfold parse_csv_column in Hp.
    destruct (rows !! 1) as [header|]; [|done]. injection Hp as Hp.
    exists header, datasets. split; [done|]. split; [done|]. split.
    + apply main_loop_written in Hloop. cbn [run_written length] in Hloop.
      rewrite Hloop, <- Hp, load_rows_length, length_replicate. done.
    + by apply main_loop_warnings in Hloop.
Qed.
End Conversion.

(** X17 on a table with one named column. *)
Lemma convert_main_files_witness :
  ∃ header datasets,
    [ []; [u "FELDNAME"; u "TITEL"; u "Datensatz 1"]; []; [];
      [u "Datensatz ID"; u "ID"; u "147"] ] !! 1 = Some header
    ∧ parse_csv_column
        [ []; [u "FELDNAME"; u "TITEL"; u "Datensatz 1"]; []; [];
          [u "Datensatz ID"; u "ID"; u "147"] ] = Ok datasets
    ∧ length (run_written
                {| run_warnings := [];
                   run_written :=
                     [(u "147_tei.xml", xml_prolog ++ u "<TEI/>" ++ NL)] |})
      = named_columns header
    ∧ run_warnings
        {| run_warnings := [];
           run_written := [(u "147_tei.xml", xml_prolog ++ u "<TEI/>" ++ NL)] |}
      = concat (warnings_of no_template <$> datasets).
Proof.
  apply (proj2 (convert_main_files constant_renderer flat_directory
                  no_template (u "output") _)).
  vm_compute. reflexivity.
Defined.

(** ** What an audit without issue guarantees *)

Section CleanRecord.
Context `{Runtime}.
Implicit Types dataset : Dataset.

Lemma kept_nil (issues : list (list N)) :
  (if negb (fst (length issues =? 0, issues))
   then snd (length issues =? 0, issues) else [])
  = [] →
  issues = [].
Proof. by destruct issues. Qed.

(** The digits that [skip_decimal] skips. *)
Lemma skip_decimal_split (s : list N) :
  ∃ ds, s = ds ++ Audit.skip_decimal s ∧ forallb chr_isdecimal ds = true.
Proof.
  induction s as [|c s (ds & Hs & Hds)]; [by exists []|].
  cbn [Audit.skip_decimal]. destruct (chr_isdecimal c) eqn:Hc.
  - exists (c :: ds). cbn [app forallb]. rewrite Hc, Hds. split; [|done].
    by rewrite <- Hs.
  - by exists [].
Qed.

Lemma pid_format_ok_number (number : list N) :
  Audit.pid_format_ok (u "o:histdem." ++ number) = true →
  ∃ ds, (number = ds ∨ number = ds ++ NL)
        ∧ ds ≠ [] ∧ forallb chr_isdecimal ds = true.
Proof.
  unfold Audit.pid_format_ok. cbv zeta.
  rewrite drop_app_length. intros Hok.
  apply andb_true_iff in Hok as [_ Hok].
  destruct number as [|c r]; [done|].
  apply andb_true_iff in Hok as [Hc Hr].
  destruct (skip_decimal_split r) as (ds & Hs & Hds).
  exists (c :: ds). cbn [forallb]. rewrite Hc, Hds.
  split; [|done]. apply orb_true_iff in Hr as [Hr|Hr];
    apply str_eqb_eq in Hr; rewrite Hr in Hs.
  - left. rewrite app_nil_r in Hs. by rewrite Hs.
  - right. cbn [app]. by rewrite <- Hs.
Qed.

(** X18.  What an audit without issue says of a record.  Every
    required field holds a visible character.  The record has an
    identifier and a PID, the PID is [o:histdem.] followed by the
    identifier, and the identifier is a run of decimal digits, with at
    most a line feed behind it.  Every language code between the commas
    of [Sprachcodes] has two characters and is in lower case. *)
Theorem audit_clean_record (fs : Audit.FileSystem) dataset :
  Audit.dataset_issues fs dataset = [] →
  (∀ f, f ∈ Audit.required_fields → strip (Audit.field dataset f) ≠ [])
  ∧ (∃ number ds,
       dataset !! u "Datensatz ID" = Some number
       ∧ dataset !! u "PID" = Some (u "o:histdem." ++ number)
       ∧ (number = ds ∨ number = ds ++ NL)
       ∧ ds ≠ [] ∧ forallb chr_isdecimal ds = true)
  ∧ Forall (λ code, length (strip code) = 2
                    ∧ str_islower (strip code) = true)
      (split (u ",") (Audit.field dataset (u "Sprachcodes"))).
Proof.
  intros Hclean. unfold Audit.dataset_issues in Hclean. cbv zeta in Hclean.
  apply app_eq_nil in Hclean as [Hreq Hclean].
  apply app_eq_nil in Hclean as [_ Hclean].
  apply app_eq_nil in Hclean as [_ Hclean].
  apply app_eq_nil in Hclean as [_ Hclean].
  apply app_eq_nil in Hclean as [_ Hclean].
  apply app_eq_nil in Hclean as [_ Hclean].
  apply app_eq_nil in Hclean as [_ Hclean].
  apply app_eq_nil in Hclean as [Hformat Hclean].
  apply app_eq_nil in Hclean as [Hmatch Hclean].
  apply app_eq_nil in Hclean as [Hlang _].
  assert (∀ f, f ∈ Audit.required_fields → strip (Audit.field dataset f) ≠ [])
    as Hfilled.
  { intros f Hf. unfold Audit.validate_required_fields in Hreq.
    cbv zeta in Hreq. apply kept_nil in Hreq.
    apply (flat_map_nil_inv _ _ f) in Hreq; [|done]. cbv beta in Hreq.
    destruct (nonempty (strip (Audit.field dataset f))) eqn:Hn; [|done].
    by apply nonempty_true. }
  assert (∀ f, f ∈ Audit.required_fields →
            ∃ v, dataset !! f = Some v ∧ Audit.field dataset f = v ∧ v ≠ [])
    as Hsome.
  { intros f Hf. specialize (Hfilled f Hf). unfold Audit.field, get_or in *.
    destruct (dataset !! f) as [v|]; [|done]. exists v.
    split; [done|]. split; [done|]. by intros ->. }
  split; [done|]. split.
  - destruct (Hsome (u "Datensatz ID")) as (number & Hid & _ & Hid_ne).
    { apply (bool_decide_unpack _). vm_compute. exact I. }
    destruct (Hsome (u "PID")) as (pid & Hpid & Hpid_f & Hpid_ne).
    { apply (bool_decide_unpack _). vm_compute. exact I. }
    rewrite Hpid_f in Hformat, Hmatch. unfold get_or in Hmatch.
    rewrite Hid in Hmatch. cbn [default from_option id] in Hmatch.
    apply nonempty_true in Hpid_ne, Hid_ne.
    rewrite Hpid_ne in Hformat, Hmatch. rewrite Hid_ne in Hmatch.
    cbn [andb] in Hformat, Hmatch.
    destruct (str_eqb pid (u "o:histdem." ++ number)) eqn:Heq; [|done].
    apply str_eqb_eq in Heq as ->.
    destruct (Audit.pid_format_ok (u "o:histdem." ++ number)) eqn:Hok; [|done].
    destruct (pid_format_ok_number number Hok) as (ds & Hds).
    by exists number, ds.
  - destruct (Hsome (u "Sprachcodes")) as (codes & _ & Hcodes & Hne).
    { apply (bool_decide_unpack _). vm_compute. exact I. }
    rewrite Hcodes in *. apply nonempty_true in Hne. rewrite Hne in Hlang.
    apply Forall_forall. intros code Hcode.
    apply (flat_map_nil_inv _ _ (strip code)) in Hlang.
    2:{ apply list_elem_of_fmap. by exists code. }
    cbv beta in Hlang.
    destruct (Nat.eqb_spec (length (strip code)) 2) as [Hlen|]; [|done].
    destruct (str_islower (strip code)); [done|done].
Qed.
End CleanRecord.

(** X18 on a record without issue. *)
Lemma audit_clean_record_witness :
  (∀ f, f ∈ Audit.required_fields → strip (Audit.field clean_record f) ≠ [])
  ∧ (∃ number ds,
       clean_record !! u "Datensatz ID" = Some number
       ∧ clean_record !! u "PID" = Some (u "o:histdem." ++ number)
       ∧ (number = ds ∨ number = ds ++ NL)
       ∧ ds ≠ [] ∧ forallb chr_isdecimal ds = true)
  ∧ Forall (λ code, length (strip code) = 2
                    ∧ str_islower (strip code) = true)
      (split (u ",") (Audit.field clean_record (u "Sprachcodes"))).
Proof.
  apply (audit_clean_record full_disk). vm_compute. reflexivity.
Defined.

(** ** The table reader of the auditor *)

Section Reader.
Implicit Types header row : list (list N).
Implicit Types data : list (list (list N)).
Implicit Types d : list (list N * option (list N)).
Implicit Types key col : list N.

Lemma dict_set_fresh d key value :
  key ∉ d.*1 → dict_set d key value = d ++ [(key, value)].
Proof.
  induction d as [|[k v] d IH]; intros Hk; [done|].
  cbn [fmap list_fmap fst] in Hk. apply not_elem_of_cons in Hk as [Hne Hk].
  cbn [dict_set]. rewrite (proj2 (str_eqb_neq k key)) by done.
  by rewrite IH.
Qed.

(** Filling a dictionary with keys that are new and distinct adds them
    at the end, in order. *)
Lemma dict_fill d (keys : list (list N)) (vals : list (option (list N))) :
  NoDup keys → (∀ k, k ∈ keys → k ∉ d.*1) →
  foldl (λ d kv, dict_set d (fst kv) (snd kv)) d (zip keys vals)
  = d ++ zip keys vals.
Proof.
  revert d vals. induction keys as [|k keys IH]; intros d vals Hnd Hfresh.
  { by rewrite app_nil_r. }
  destruct vals as [|v vals]; [by rewrite app_nil_r|].
  apply NoDup_cons in Hnd as [Hk Hnd]. cbn [zip zip_with foldl fst snd].
  rewrite dict_set_fresh by (apply Hfresh; apply list_elem_of_here).
  rewrite IH; [by rewrite <- app_assoc|done|].
  intros k' Hk'. rewrite fmap_app, elem_of_app. intros [Hin|Hin].
  - by apply (Hfresh k'); [apply list_elem_of_further|].
  - apply list_elem_of_singleton in Hin. cbn in Hin. by subst.
Qed.

Lemma foldl_zip_some d (keys row : list (list N)) :
  foldl (λ d kv, dict_set d (fst kv) (Some (snd kv))) d (zip keys row)
  = foldl (λ d kv, dict_set d (fst kv) (snd kv)) d (zip keys (Some <$> row)).
Proof.
  revert d row. induction keys as [|k keys IH]; intros d row; [done|].
  destruct row as [|c row]; [done|]. cbn. apply IH.
Qed.

Lemma foldl_keys_none d (keys : list (list N)) :
  foldl (λ d key, dict_set d key None) d keys
  = foldl (λ d kv, dict_set d (fst kv) (snd kv)) d
      (zip keys (replicate (length keys) None)).
Proof.
  revert d. induction keys as [|k keys IH]; intros d; [done|]. cbn. apply IH.
Qed.

Lemma zip_take_length {A B} (l : list A) (k : list B) :
  zip l k = zip (take (length k) l) k.
Proof.
  revert k. induction l as [|x l IH]; intros [|y k]; cbn; try done.
  by rewrite <- IH.
Qed.

Lemma zip_keys {A B} (l : list A) (k : list B) :
  (zip l k).*1 = take (length k) l.
Proof.
  revert k. induction l as [|x l IH]; intros [|y k]; cbn; try done.
  by rewrite IH.
Qed.

(** The dictionary of a row under names without repetition: the cells
    under the names in order, [None] under the names beyond the row,
    and the cells beyond the names as the rest. *)
Lemma dict_row_named header row :
  NoDup header →
  named (dict_row header row)
  = zip header ((Some <$> row) ++ replicate (length header - length row) None)
  ∧ rest (dict_row header row)
    = if length header <? length row then Some (drop (length header) row)
      else None.
Proof.
  intros Hnd. unfold dict_row. cbv zeta.
  rewrite foldl_zip_some, dict_fill; [|done|].
  2:{ intros k _. cbn. apply not_elem_of_nil. }
  cbn [app].
  destruct (Nat.ltb_spec (length header) (length row)) as [Hlt|Hge].
  { cbn [named rest]. split; [|done].
    replace (length header - length row) with 0 by lia.
    by rewrite app_nil_r. }
  destruct (Nat.ltb_spec (length row) (length header)) as [Hlt|Hge'];
    cbn [named rest]; (split; [|done]).
  2:{ replace (length header - length row) with 0 by lia.
      by rewrite app_nil_r. }
  rewrite foldl_keys_none, length_drop.
  remember (length header - length row) as n eqn:Hn.
  pose proof (take_drop (length row) header) as Htd.
  rewrite <- Htd in Hnd.
  apply NoDup_app in Hnd as (Hnd1 & Hdisj & Hnd2).
  rewrite dict_fill; [|done|].
  2:{ intros k Hk Hin. rewrite zip_keys, length_fmap in Hin.
      by apply (Hdisj k). }
  rewrite (zip_take_length header (Some <$> row)), length_fmap.
  rewrite <- Htd at 3.
  symmetry. apply zip_with_app.
  rewrite length_take, length_fmap. lia.
Qed.

(** Looking up a name that stands at position [j] of the names. *)
Lemma row_get_zip header (vals : list (option (list N))) j key v :
  NoDup header → header !! j = Some key → vals !! j = Some v →
  row_get (zip header vals) key = v.
Proof.
  revert vals j. induction header as [|h header IH]; intros vals j Hnd Hk Hv;
    [done|].
  destruct vals as [|x vals]; [done|].
  apply NoDup_cons in Hnd as [Hh Hnd]. cbn [zip zip_with row_get].
  destruct j as [|j].
  - injection Hk as ->. injection Hv as ->.
    by rewrite (proj2 (str_eqb_eq key key)).
  - cbn in Hk, Hv. rewrite (proj2 (str_eqb_neq h key)).
    + by apply (IH vals j).
    + intros ->. apply Hh. by apply list_elem_of_lookup_2 in Hk.
Qed.

Lemma row_get_missing header (vals : list (option (list N))) key :
  key ∉ header → row_get (zip header vals) key = Some [].
Proof.
  revert vals. induction header as [|h header IH]; intros vals Hk; [done|].
  destruct vals as [|x vals]; [done|].
  apply not_elem_of_cons in Hk as [Hne Hk]. cbn [zip zip_with row_get].
  rewrite (proj2 (str_eqb_neq h key)) by done. by apply IH.
Qed.

(** A cell of a row as long as the names, under its name. *)
Lemma row_get_cell header row j key :
  NoDup header → length row = length header → header !! j = Some key →
  ∃ cell, row !! j = Some cell
          ∧ row_get (named (dict_row header row)) key = Some cell.
Proof.
  intros Hnd Hlen Hk. destruct (dict_row_named header row Hnd) as [-> _].
  replace (length header - length row) with 0 by lia.
  rewrite app_nil_r.
  destruct (row !! j) as [cell|] eqn:Hc.
  2:{ apply lookup_ge_None in Hc. apply lookup_lt_Some in Hk. lia. }
  exists cell. split; [done|].
  apply (row_get_zip header _ j); [done|done|].
  by rewrite list_lookup_fmap, Hc.
Qed.

(** The name of a column beyond the row has the value [None]. *)
Lemma row_get_beyond header row j key :
  NoDup header → header !! j = Some key → length row ≤ j →
  row_get (named (dict_row header row)) key = None.
Proof.
  intros Hnd Hk Hj. destruct (dict_row_named header row Hnd) as [-> _].
  apply lookup_lt_Some in Hk as Hlt.
  apply (row_get_zip header _ j); [done|done|].
  rewrite lookup_app_r by (rewrite length_fmap; lia).
  apply lookup_replicate. split; [done|]. rewrite length_fmap. lia.
Qed.

Lemma store_field_failed col (dataset_data : Dataset) (row : RowDict) e :
  store_field col dataset_data row = Failed e → e = NoneAttributeError.
Proof.
  unfold store_field.
  destruct (row_get (named row) (u "FELDNAME")) as [name|]; [|done].
  destruct (nonempty name); [|done].
  destruct (row_get (named row) col); [done|]. by intros [= <-].
Qed.

Lemma read_column_failed col (rows : list RowDict) (dataset_data : Dataset) e :
  read_column col rows dataset_data = Failed e → e = NoneAttributeError.
Proof.
  revert dataset_data. induction rows as [|row rows IH]; intros dd; [done|].
  cbn [read_column]. destruct (store_field col dd row) as [d'|e'] eqn:Hs.
  - apply IH.
  - intros [= <-]. by eapply store_field_failed.
Qed.

Lemma read_columns_failed (cols : list (list N)) (rows : list RowDict) e :
  read_columns cols rows = Failed e → e = NoneAttributeError.
Proof.
  induction cols as [|col cols IH]; [done|]. cbn [read_columns].
  destruct (read_column col rows ∅) as [d|e'] eqn:Hc.
  - destruct (read_columns cols rows); [done|]. intros [= <-]. by apply IH.
  - intros [= <-]. by eapply read_column_failed.
Qed.

(** A row with a field name and without a cell for the column stops
    the reading of the column, whatever was read before. *)
Lemma read_column_none col (rows : list RowDict) (dataset_data : Dataset)
    (row : RowDict) name :
  row ∈ rows → row_get (named row) (u "FELDNAME") = Some name → name ≠ [] →
  row_get (named row) col = None →
  read_column col rows dataset_data = Failed NoneAttributeError.
Proof.
  intros Hin Hname Hne Hcell. revert dataset_data.
  induction rows as [|r rows IH]; intros dd; [by apply elem_of_nil in Hin|].
  cbn [read_column]. apply elem_of_cons in Hin as [<-|Hin].
  - unfold store_field. rewrite Hname, Hcell.
    by rewrite (proj2 (nonempty_true name)).
  - destruct (store_field col dd r) as [d'|e] eqn:Hs; [by apply IH|].
    by apply store_field_failed in Hs as ->.
Qed.

Lemma read_columns_none (cols : list (list N)) (rows : list RowDict) col :
  col ∈ cols → read_column col rows ∅ = Failed NoneAttributeError →
  read_columns cols rows = Failed NoneAttributeError.
Proof.
  intros Hin Hcol. induction cols as [|c cols IH];
    [by apply elem_of_nil in Hin|].
  cbn [read_columns]. apply elem_of_cons in Hin as [<-|Hin].
  - by rewrite Hcol.
  - destruct (read_column c rows ∅) as [d|e] eqn:Hc.
    + by rewrite IH.
    + by apply read_column_failed in Hc as ->.
Qed.

(** The names of the columns of the datasets, under names without
    repetition, when the first row has no cell beyond the names. *)
Lemma dataset_columns_header header row :
  NoDup header → length row ≤ length header →
  dataset_columns (dict_row header row)
  = Done (filter (λ col, startswith col (u "Datensatz ") = true) header).
Proof.
  intros Hnd Hlen. unfold dataset_columns.
  destruct (dict_row_named header row Hnd) as [-> ->].
  rewrite (proj2 (Nat.ltb_ge _ _)) by done. do 2 f_equal.
  rewrite zip_keys, take_ge; [done|].
  rewrite length_app, length_fmap, length_replicate. lia.
Qed.

(** X19.  The exceptions of the reading of the auditor.  [rows[0]]
    raises [IndexError] exactly when no row behind the first has a
    cell.  A first data row with more cells than the first row has
    names ends the reading with an [AttributeError]: its cells beyond
    the names stand under the key [None], which has no [startswith].
    And so does, under names without repetition, any row that has a
    field name and is too short to have a cell in the column of some
    dataset: its value there is [None], which has no [strip].  These
    are rows that the converter reads without exception. *)
Theorem read_datasets_exceptions header data :
  (read_datasets (header :: data) = Failed RowsIndexError
   ↔ Forall (λ row, row = []) data)
  ∧ (∀ row, head (filter (λ row, row ≠ []) data) = Some row →
       length header < length row →
       read_datasets (header :: data) = Failed NoneAttributeError)
  ∧ (∀ row f j col name,
       NoDup header → header !! f = Some (u "FELDNAME") →
       header !! j = Some col → startswith col (u "Datensatz ") = true →
       row ∈ data → row !! f = Some name → name ≠ [] → length row ≤ j →
       read_datasets (header :: data) = Failed NoneAttributeError).
Proof.
  unfold read_datasets, dict_reader. split; [|split].
  - split.
    + destruct (filter (λ row, row ≠ []) data) as [|r rs] eqn:Hf.
      * intros _. apply Forall_forall. intros row Hin.
        destruct (decide (row = [])) as [->|Hne]; [done|].
        assert (row ∈ filter (λ row, row ≠ []) data) as Hin'
          by by apply list_elem_of_filter.
        rewrite Hf in Hin'. by apply elem_of_nil in Hin'.
      * cbn [fmap list_fmap]. destruct (dataset_columns _) as [cols|e] eqn:Hd.
        -- intros Hr. by apply read_columns_failed in Hr.
        -- unfold dataset_columns in Hd. destruct (rest _); [|done].
           by injection Hd as <-.
    + intros Hall.
      assert (filter (λ row, row ≠ []) data = []) as ->; [|done].
      induction Hall as [|row rows -> _ IH]; [done|].
      by rewrite filter_cons, decide_False by by intros ?.
  - intros row Hhead Hlong.
    destruct (filter (λ row, row ≠ []) data) as [|r rs]; [done|].
    injection Hhead as ->. cbn [fmap list_fmap].
    unfold dataset_columns, dict_row. cbv zeta.
    by rewrite (proj2 (Nat.ltb_lt _ _)).
  - intros row f j col name Hnd Hf Hj Hstart Hin Hname Hne Hshort.
    assert (row ≠ []) as Hrow by by intros ->.
    assert (row ∈ filter (λ row, row ≠ []) data) as Hin'
      by by apply list_elem_of_filter.
    destruct (filter (λ row, row ≠ []) data) as [|r rs] eqn:Hfil;
      [by apply elem_of_nil in Hin'|].
    cbn [fmap list_fmap].
    destruct (dataset_columns (dict_row header r)) as [cols|e] eqn:Hd.
    2:{ unfold dataset_columns in Hd. destruct (rest _); [|done].
        by injection Hd as <-. }
    assert (length r ≤ length header) as Hr.
    { unfold dataset_columns in Hd.
      destruct (dict_row_named header r Hnd) as [_ Hrest].
      rewrite Hrest in Hd.
      destruct (Nat.ltb_spec (length header) (length r)); [done|lia]. }
    rewrite dataset_columns_header in Hd by done. injection Hd as <-.
    apply (read_columns_none _ _ col).
    { apply list_elem_of_filter. split; [done|].
      by apply list_elem_of_lookup_2 in Hj. }
    apply (read_column_none col _ ∅ (dict_row header row) name);
      [|..|done|].
    + change (dict_row header r :: (dict_row header <$> rs))
        with (dict_row header <$> (r :: rs)).
      apply list_elem_of_fmap. by exists row.
    + apply lookup_lt_Some in Hname as Hlt.
      destruct (dict_row_named header row Hnd) as [-> _].
      apply (row_get_zip header _ f); [done|done|].
      rewrite lookup_app_l by (rewrite length_fmap; lia).
      by rewrite list_lookup_fmap, Hname.
    + by apply (row_get_beyond header row j).
Qed.
End Reader.

(** X19 on a table whose second data row ends before the column of
    the dataset. *)
Lemma read_datasets_exceptions_witness :
  read_datasets
    [ [u "FELDNAME"; u "TITEL"; u "Datensatz 1"];
      [u "Land"; u "Country"; u "Serbia"];
      [u "Jahr"; u "Year"] ]
  = Failed NoneAttributeError.
Proof.
  apply (proj2 (proj2 (read_datasets_exceptions _ _))
           [u "Jahr"; u "Year"] 0 2 (u "Datensatz 1") (u "Jahr")).
  - apply (bool_decide_unpack _). vm_compute. exact I.
  - reflexivity.
  - reflexivity.
  - reflexivity.
  - apply (bool_decide_unpack _). vm_compute. exact I.
  - reflexivity.
  - vm_compute. congruence.
  - simpl. lia.
Defined.

(** The same rows as the converter reads them, the names two rows
    further down: no exception, the short row binds nothing. *)
Example parse_csv_column_reads_short_row :
  parse_csv_column
    [ [u "FELDNAME"; u "TITEL"; u "Datensatz 1"];
      [u "FELDNAME"; u "TITEL"; u "Datensatz 1"]; []; [];
      [u "Land"; u "Country"; u "Serbia"];
      [u "Jahr"; u "Year"] ]
  = Ok [ {[ u "Land" := u "Serbia" ]} ].
Proof. vm_compute. reflexivity. Qed.

(** ** What the auditor reads *)

Section ReaderContent.
Implicit Types header row : list (list N).
Implicit Types data : list (list (list N)).
Implicit Types col k : list N.

Lemma store_field_cell header row (f j : nat) col (dataset_data : Dataset) :
  NoDup header → length row = length header →
  header !! f = Some (u "FELDNAME") → header !! j = Some col →
  ∃ d' : Dataset,
    store_field col dataset_data (dict_row header row) = Done d'
    ∧ ∀ k, d' !! k = match audit_value f j k row with
                     | Some v => Some v
                     | None => dataset_data !! k
                     end.
Proof.
  intros Hnd Hlen Hf Hj. unfold store_field, audit_value.
  destruct (row_get_cell header row f _ Hnd Hlen Hf) as (name & -> & ->).
  destruct (row_get_cell header row j _ Hnd Hlen Hj) as (cell & -> & ->).
  destruct (nonempty name) eqn:Hn; cbn [andb].
  - eexists. split; [reflexivity|]. intros k.
    destruct (str_eqb name k) eqn:Hk.
    + apply str_eqb_eq in Hk as <-. apply lookup_insert_eq.
    + apply str_eqb_neq in Hk. by apply lookup_insert_ne.
  - by exists dataset_data.
Qed.

Lemma read_column_cells header data (f j : nat) col (dataset_data : Dataset) :
  NoDup header → rectangular header data →
  header !! f = Some (u "FELDNAME") → header !! j = Some col →
  ∃ d' : Dataset,
    read_column col (dict_row header <$> filter (λ row, row ≠ []) data)
      dataset_data
    = Done d'
    ∧ ∀ k, d' !! k = match last (omap (audit_value f j k) data) with
                     | Some v => Some v
                     | None => dataset_data !! k
                     end.
Proof.
  intros Hnd Hrect Hf Hj. revert dataset_data.
  induction Hrect as [|row data Hrow _ IH]; intros dd; [by exists dd|].
  rewrite filter_cons. destruct (decide (row ≠ [])) as [Hne|He].
  - destruct Hrow as [->|Hlen]; [done|].
    cbn [fmap list_fmap read_column].
    destruct (store_field_cell header row f j col dd Hnd Hlen Hf Hj)
      as (d1 & -> & H1).
    destruct (IH d1) as (d' & -> & H'). exists d'. split; [done|].
    intros k. rewrite H', H1. cbn [omap list_omap].
    destruct (audit_value f j k row) as [v|].
    + rewrite last_cons. by destruct (last (omap (audit_value f j k) data)).
    + fold (omap (audit_value f j k) data).
      by destruct (last (omap (audit_value f j k) data)).
  - apply dec_stable in He as ->. destruct (IH dd) as (d' & -> & H').
    exists d'. split; [done|]. intros k. rewrite H'.
    by destruct f, j.
Qed.

Lemma read_columns_cells header data (f : nat) (cols : list (list N)) :
  NoDup header → rectangular header data →
  header !! f = Some (u "FELDNAME") → cols ⊆ header →
  ∃ datasets : list (list N * Dataset),
    read_columns cols (dict_row header <$> filter (λ row, row ≠ []) data)
    = Done datasets
    ∧ datasets.*1 = cols
    ∧ ∀ j col (d : Dataset),
        header !! j = Some col → (col, d) ∈ datasets →
        ∀ k, d !! k = last (omap (audit_value f j k) data).
Proof.
  intros Hnd Hrect Hf. induction cols as [|c cols IH]; intros Hsub.
  { exists []. split; [done|]. split; [done|]. intros j col d _ Hin.
    by apply elem_of_nil in Hin. }
  destruct IH as (ds & Hds & Hcols & Hcontent).
  { intros x Hx. apply Hsub. by apply list_elem_of_further. }
  assert (c ∈ header) as Hc by apply Hsub, list_elem_of_here.
  apply list_elem_of_lookup_1 in Hc as [jc Hjc].
  destruct (read_column_cells header data f jc c ∅ Hnd Hrect Hf Hjc)
    as (d & Hd & Hk).
  cbn [read_columns]. rewrite Hd, Hds. eexists. split; [reflexivity|].
  split; [cbn; by rewrite Hcols|].
  intros j col d' Hj Hin. apply elem_of_cons in Hin as [[= -> ->]|Hin].
  - assert (j = jc) as -> by by eapply NoDup_lookup.
    intros k. rewrite Hk. destruct (last _); [done|apply lookup_empty].
  - by eapply Hcontent.
Qed.

(** On such a table the reading comes down to the loop over the
    columns. *)
Lemma read_datasets_rows header data row0 :
  NoDup header → rectangular header data → row0 ∈ data → row0 ≠ [] →
  read_datasets (header :: data)
  = read_columns
      (filter (λ col, startswith col (u "Datensatz ") = true) header)
      (dict_row header <$> filter (λ row, row ≠ []) data).
Proof.
  intros Hnd Hrect Hin Hne. unfold read_datasets, dict_reader.
  assert (row0 ∈ filter (λ row, row ≠ []) data) as Hin'
    by by apply list_elem_of_filter.
  destruct (filter (λ row, row ≠ []) data) as [|r rs] eqn:Hfil;
    [by apply elem_of_nil in Hin'|].
  assert (length r = length header) as Hr.
  { assert (r ∈ filter (λ row, row ≠ []) data) as Hrin
      by (rewrite Hfil; apply list_elem_of_here).
    apply list_elem_of_filter in Hrin as [Hrne Hrin].
    unfold rectangular in Hrect. rewrite Forall_forall in Hrect.
    by destruct (Hrect r Hrin). }
  cbn [fmap list_fmap]. by rewrite dataset_columns_header by (done || lia).
Qed.

(** X20.  What the auditor reads from a table whose names in the
    first row are not repeated and whose rows are empty or as long as
    the first row, with at least one that is not empty: no exception;
    one dataset per name that starts with [Datensatz ], in the order
    of the names; and in the dataset of the column at [j] the field
    [k] holds the stripped cell of the last row whose [FELDNAME] cell
    is [k].  Unlike the converter, the auditor takes the field name as
    it stands, without stripping it, reads every row behind the
    first, and stores a blank cell as an empty value. *)
Theorem read_datasets_content header data (f : nat) row0 :
  NoDup header → rectangular header data →
  header !! f = Some (u "FELDNAME") → row0 ∈ data → row0 ≠ [] →
  ∃ datasets : list (list N * Dataset),
    read_datasets (header :: data) = Done datasets
    ∧ datasets.*1
      = filter (λ col, startswith col (u "Datensatz ") = true) header
    ∧ ∀ j col (d : Dataset),
        header !! j = Some col → (col, d) ∈ datasets →
        ∀ k, d !! k = last (omap (audit_value f j k) data).
Proof.
  intros Hnd Hrect Hf Hin Hne.
  rewrite (read_datasets_rows header data row0) by done.
  apply read_columns_cells; [done|done|done|].
  intros col Hcol. by apply list_elem_of_filter in Hcol as [_ ?].
Qed.
End ReaderContent.

(** X20 on a table in which a field name has a blank behind it and a
    cell is blank. *)
Lemma read_datasets_content_witness :
  ∃ datasets : list (list N * Dataset),
    read_datasets
      ([u "FELDNAME"; u "TITEL"; u "Datensatz 1"]
       :: [ [u "Land "; u "Country"; u " Serbia"]; [];
            [u "Jahr"; u "Year"; u " "] ])
    = Done datasets
    ∧ datasets.*1
      = filter (λ col, startswith col (u "Datensatz ") = true)
          [u "FELDNAME"; u "TITEL"; u "Datensatz 1"]
    ∧ ∀ j col (d : Dataset),
        [u "FELDNAME"; u "TITEL"; u "Datensatz 1"] !! j = Some col →
        (col, d) ∈ datasets →
        ∀ k, d !! k
             = last (omap (audit_value 0 j k)
                       [ [u "Land "; u "Country"; u " Serbia"]; [];
                         [u "Jahr"; u "Year"; u " "] ]).
Proof.
  apply (read_datasets_content _ _ 0 [u "Land "; u "Country"; u " Serbia"]).
  - apply (bool_decide_unpack _). vm_compute. exact I.
  - apply (bool_decide_unpack _). vm_compute. exact I.
  - reflexivity.
  - apply list_elem_of_here.
  - done.
Defined.

Example read_datasets_keeps_blank :
  read_datasets
    [ [u "FELDNAME"; u "TITEL"; u "Datensatz 1"];
      [u "Land "; u "Country"; u " Serbia"]; [];
      [u "Jahr"; u "Year"; u " "] ]
  = Done [ (u "Datensatz 1",
            {[ u "Land " := u "Serbia"; u "Jahr" := [] ]}) ].
Proof. vm_compute. reflexivity. Qed.

(** ** The converter and the auditor on one table *)

Section Agreement.
Implicit Types header row : list (list N).
Implicit Types data : list (list (list N)).
Implicit Types col k : list N.

Lemma omap_bind {A B C} (f : A → option B) (g : B → option C) (l : list A) :
  omap (λ x, f x ≫= g) l = omap g (omap f l).
Proof.
  induction l as [|x l IH]; [done|]. cbn [omap list_omap].
  destruct (f x) as [y|]; cbn; [|done].
  fold (omap (λ x, f x ≫= g) l). fold (omap f l). rewrite IH.
  by destruct (g y).
Qed.

Lemma omap_none {A B} (f : A → option B) (l : list A) :
  Forall (λ x, f x = None) l → omap f l = [].
Proof. induction 1 as [|x l Hx _ IH]; [done|]. cbn. by rewrite Hx. Qed.

Lemma omap_ext_in {A B} (f g : A → option B) (l : list A) :
  Forall (λ x, f x = g x) l → omap f l = omap g l.
Proof.
  induction 1 as [|x l Hx _ IH]; [done|]. cbn [omap list_omap].
  rewrite Hx. destruct (g x); [f_equal|]; exact IH.
Qed.

(** A name that no row has gives no value. *)
Lemma audit_value_absent j k data :
  k ∉ field_names data → omap (audit_value 0 j k) data = [].
Proof.
  intros Hk. apply omap_none, Forall_forall. intros row Hrow.
  unfold audit_value. destruct (row !! 0) as [name|] eqn:Hname; [|done].
  destruct (row !! j); [|done].
  destruct (nonempty name) eqn:Hn; [|done]. cbn [andb].
  destruct (str_eqb name k) eqn:Hnk; [|done].
  apply str_eqb_eq in Hnk as ->. destruct Hk.
  apply list_elem_of_filter. split; [by apply nonempty_true|].
  apply list_elem_of_omap. by exists row.
Qed.

(** When no name is repeated, at most one row gives a value to a
    field. *)
Lemma audit_value_once j k data :
  NoDup (field_names data) → length (omap (audit_value 0 j k) data) ≤ 1.
Proof.
  unfold field_names. induction data as [|row data IH]; intros Hnd;
    [simpl; lia|].
  cbn [omap list_omap] in *.
  destruct (audit_value 0 j k row) as [v|] eqn:Hv.
  - unfold audit_value in Hv.
    destruct (row !! 0) as [name|]; [|done].
    destruct (row !! j); [|done].
    destruct (nonempty name) eqn:Hn; [|done]. cbn [andb] in Hv.
    destruct (str_eqb name k) eqn:Hnk; [|done].
    apply str_eqb_eq in Hnk as ->. apply nonempty_true in Hn.
    rewrite filter_cons, decide_True in Hnd by done.
    apply NoDup_cons in Hnd as [Hk _].
    fold (omap (audit_value 0 j k) data).
    rewrite (audit_value_absent j k data) by done. simpl. lia.
  - apply IH. destruct (row !! 0) as [name|]; [|done].
    rewrite filter_cons in Hnd. destruct (decide (name ≠ [])); [|done].
    by apply NoDup_cons in Hnd as [_ ?].
Qed.

(** On a row as long as the names, with a stripped field name, the
    converter takes the value of the auditor when it is not empty. *)
Lemma cell_value_audit_value header i k row :
  i + 2 < length header → row = [] ∨ length row = length header →
  (∀ name, row !! 0 = Some name → strip name = name) →
  cell_value i k row
  = audit_value 0 (i + 2) k row
    ≫= λ v, if nonempty v then Some v else None.
Proof.
  intros Hi [->|Hlen] Hname; [done|].
  destruct row as [|name [|c row]]; [simpl in Hlen; lia|simpl in Hlen; lia|].
  unfold cell_value, audit_value.
  rewrite (Hname name eq_refl). cbn [lookup list_lookup].
  change ((name :: c :: row) !! 0) with (Some name).
  destruct ((name :: c :: row) !! (i + 2)) as [cell|] eqn:Hc.
  2:{ apply lookup_ge_None in Hc. lia. }
  destruct (nonempty name && str_eqb name k); [|done]. done.
Qed.

(** A second row without blank cell from the third cell to the cell at
    [i + 2] names more than [i] datasets. *)
Lemma named_columns_filled (header2 : list (list N)) i :
  (∀ j, 2 ≤ j ≤ i + 2 → ∃ c, header2 !! j = Some c ∧ strip c ≠ []) →
  i < named_columns header2.
Proof.
  intros Hall. unfold named_columns.
  rewrite <- (take_drop (S i) (drop 2 header2)), filter_app, length_app.
  assert (length (take (S i) (drop 2 header2)) = S i) as Hlen.
  { rewrite length_take, length_drop.
    destruct (Hall (i + 2)) as (c & Hc & _); [lia|].
    apply lookup_lt_Some in Hc. lia. }
  assert (filter (λ h, nonempty (strip h) = true) (take (S i) (drop 2 header2))
          = take (S i) (drop 2 header2)) as ->; [|lia].
  apply filter_all, Forall_forall. intros c Hc.
  apply list_elem_of_lookup_1 in Hc as [j Hj].
  apply lookup_take_Some in Hj as [Hj Hlt]. rewrite lookup_drop in Hj.
  destruct (Hall (2 + j)) as (c' & Hc' & Hne); [lia|].
  rewrite Hj in Hc'. injection Hc' as <-. by apply nonempty_true.
Qed.

(** X21.  The converter and the auditor on the same table.  The names
    of the first row are not repeated and start with [FELDNAME]; the
    rows are empty or as long as the first; the three rows behind the
    first carry no field name, as the converter skips them; the field
    names are stripped and not repeated; the column at [i + 2] is
    headed as a dataset in the first row; and the second row has more
    than [i] cells that are not blank from its third cell on, as it has
    when none of its cells from the third to the one at [i + 2] is
    blank.  The converter has as many datasets as the second row has
    such cells and reads its dataset [i] from the column at [i + 2],
    whichever cells of the second row are blank.  Then both programs
    read the table without exception, and the dataset the auditor
    checks for the column holds, for every field, the value the
    converter converts: the empty string where the converter has no
    value. *)
Theorem converter_and_auditor_agree header data header2 row0 i col :
  NoDup header → rectangular header data →
  header !! 0 = Some (u "FELDNAME") →
  header !! (i + 2) = Some col → startswith col (u "Datensatz ") = true →
  Forall (λ row, row !! 0 = Some [] ∨ row = []) (take 3 data) →
  Forall (λ n, strip n = n) (field_names data) → NoDup (field_names data) →
  row0 ∈ data → row0 ≠ [] →
  data !! 0 = Some header2 → i < named_columns header2 →
  ∃ (dc da : Dataset) dsc dsa,
    parse_csv_column (header :: data) = Ok dsc ∧ dsc !! i = Some dc
    ∧ read_datasets (header :: data) = Done dsa ∧ (col, da) ∈ dsa
    ∧ (∀ k, Audit.field da k = Audit.field dc k)
    ∧ length dsc = named_columns header2.
Proof.
  intros Hnd Hrect Hf Hcol Hstart Hskip Hstripped Huniq Hin Hne Hh2 Hi.
  (* the converter *)
  unfold parse_csv_column. change ((header :: data) !! 1) with (data !! 0).
  rewrite Hh2. cbv zeta. fold (named_columns header2).
  change (drop 4 (header :: data)) with (drop 3 data).
  set (n := named_columns header2) in *.
  assert (replicate n (∅ : Dataset) !! i = Some ∅) as H0
    by by apply lookup_replicate.
  destruct (load_rows_lookup n (drop 3 data) _ i ∅ [] Hi H0) as (dc & Hdc & _).
  (* the auditor *)
  rewrite (read_datasets_rows header data row0) by done.
  destruct (read_columns_cells header data 0
              (filter (λ col, startswith col (u "Datensatz ") = true) header)
              Hnd Hrect Hf) as (dsa & -> & Hcols & Hcontent).
  { intros c Hc. by apply list_elem_of_filter in Hc as [_ ?]. }
  assert (∃ da, (col, da) ∈ dsa) as [da Hda].
  { assert (col ∈ dsa.*1) as Hc.
    { rewrite Hcols. apply list_elem_of_filter. split; [done|].
      by apply list_elem_of_lookup_2 in Hcol. }
    apply list_elem_of_fmap in Hc as ([c da] & Hc & Hin'). cbn in Hc.
    subst c. by exists da. }
  eexists dc, da, _, dsa. split; [reflexivity|]. split; [done|].
  split; [done|]. split; [done|].
  split; [|subst n; by rewrite load_rows_length, length_replicate].
  intros k.
  destruct (load_rows_lookup n (drop 3 data) _ i ∅ k Hi H0) as (dc' & Hdc' & Hk).
  rewrite Hdc in Hdc'. injection Hdc' as <-.
  unfold Audit.field, get_or.
  rewrite (Hcontent (i + 2) col da Hcol Hda k), Hk. clear Hk.
  (* the rows that the converter skips give the auditor nothing *)
  assert (omap (audit_value 0 (i + 2) k) data
          = omap (audit_value 0 (i + 2) k) (drop 3 data)) as Hdrop.
  { rewrite <- (take_drop 3 data) at 1. rewrite omap_app.
    rewrite omap_none; [done|]. eapply Forall_impl; [exact Hskip|].
    intros row [Hrow| ->]; [|done]. unfold audit_value. rewrite Hrow.
    by destruct (row !! (i + 2)). }
  (* on the other rows the converter keeps what is not empty *)
  assert (omap (cell_value i k) (drop 3 data)
          = omap (λ v, if nonempty v then Some v else None)
              (omap (audit_value 0 (i + 2) k) data)) as ->.
  { rewrite Hdrop, <- omap_bind. apply omap_ext_in, Forall_forall.
    intros row Hrow. apply list_elem_of_lookup_1 in Hrow as [a Ha].
    rewrite lookup_drop in Ha. apply list_elem_of_lookup_2 in Ha.
    apply (cell_value_audit_value header).
    - by apply lookup_lt_Some in Hcol.
    - unfold rectangular in Hrect. rewrite Forall_forall in Hrect.
      by apply Hrect.
    - intros name Hname. destruct (decide (name = [])) as [->|Hnn]; [done|].
      rewrite Forall_forall in Hstripped. apply Hstripped.
      apply list_elem_of_filter. split; [done|].
      apply list_elem_of_omap. by exists row. }
  pose proof (audit_value_once (i + 2) k data Huniq) as Hone.
  destruct (omap (audit_value 0 (i + 2) k) data) as [|v [|v' vs]];
    [done| |simpl in Hone; lia].
  cbn. destruct (nonempty v) eqn:Hv; cbn; [done|].
  by apply nonempty_false in Hv.
Qed.
End Agreement.

(** X21 on a table of two fields, one of them blank. *)
Lemma converter_and_auditor_agree_witness :
  ∃ (dc da : Dataset) dsc dsa,
    parse_csv_column
      ([u "FELDNAME"; u "TITEL"; u "Datensatz 1"]
       :: [ [[]; []; u "Serbia 1863"]; []; [];
            [u "Land"; u "Country"; u " Serbia"];
            [u "Jahr"; u "Year"; u " "] ])
    = Ok dsc
    ∧ dsc !! 0 = Some dc
    ∧ read_datasets
        ([u "FELDNAME"; u "TITEL"; u "Datensatz 1"]
         :: [ [[]; []; u "Serbia 1863"]; []; [];
              [u "Land"; u "Country"; u " Serbia"];
              [u "Jahr"; u "Year"; u " "] ])
      = Done dsa
    ∧ (u "Datensatz 1", da) ∈ dsa
    ∧ (∀ k, Audit.field da k = Audit.field dc k)
    ∧ length dsc = named_columns [[]; []; u "Serbia 1863"].
Proof.
  apply (converter_and_auditor_agree _ _ [[]; []; u "Serbia 1863"]
           [u "Land"; u "Country"; u " Serbia"]).
  - apply (bool_decide_unpack _). vm_compute. exact I.
  - apply (bool_decide_unpack _). vm_compute. exact I.
  - reflexivity.
  - reflexivity.
  - reflexivity.
  - apply (bool_decide_unpack _). vm_compute. exact I.
  - apply (bool_decide_unpack _). vm_compute. exact I.
  - apply (bool_decide_unpack _). vm_compute. exact I.
  - apply (bool_decide_unpack _). vm_compute. exact I.
  - done.
  - reflexivity.
  - vm_compute. lia.
Defined.

(** A table whose second row leaves the third cell blank: the
    converter has one dataset, read from the third column, where the
    auditor has the two of the first row. *)
Example converter_counts_names :
  let table :=
    [ [u "FELDNAME"; u "TITEL"; u "Datensatz 1"; u "Datensatz 2"];
      [[]; []; []; u "Albania 1918"]; []; [];
      [u "Land"; u "Country"; u "Serbia"; u "Albania"] ] in
  parse_csv_column table = Ok [ {[ u "Land" := u "Serbia" ]} ]
  ∧ read_datasets table
    = Done [ (u "Datensatz 1", {[ u "Land" := u "Serbia" ]});
             (u "Datensatz 2", {[ u "Land" := u "Albania" ]}) ].
Proof. split; vm_compute; reflexivity. Qed.

(** ** The template of a generated document *)

Example extract_from_generated :
  extract_template_data
    (Some (fst (create_tei_document
                  {[ u "Datensatz ID" := u "147";
                     u "Zitierempfehlung" := u "Karl Kaser. *Census*. 1995" ]}
                  no_template [])))
  = {| publisher_name := Some (Some (u "Institut für Geschichte, Universität Graz"));
       publisher_corresp := Some (u "http://geschichte.uni-graz.at/");
       authority_name := Some (Some (u "Digital Humanities Craft OG"));
       authority_corresp := Some (u "https://dhcraft.org");
       distributor_name :=
         Some (Some (u "GAMS - Geisteswissenschaftliches Asset Management System"));
       distributor_ref := Some (u "https://gams.uni-graz.at");
       license_text := Some (Some (u "Creative Commons BY-NC 4.0"));
       license_target :=
         Some (u "https://creativecommons.org/licenses/by-nc/4.0");
       pub_place := Some (Some (u "Graz"));
       funder_name := Some (Some (u "Austrian Science Fund (FWF)"));
       funder_ref := Some (u "https://www.fwf.ac.at/de/");
       funder_num := Some (Some (u "P 38285-G"));
       series_titles := Some [];
       project_director := None;
       research_team := None;
       project_desc_paragraphs := Some [];
       project_context_ref := None |}.
Proof. vm_compute. reflexivity. Qed.

(** ** The names of the elements *)

Section Tags.
Context `{Runtime}.
Implicit Types e parent child : Element.
Implicit Types allowed : list (list N).

Lemma tags_create tag text attrib :
  tags (create_tei_element tag text attrib) = [qname TEI_NS tag].
Proof. done. Qed.

Lemma iter_unfold e : iter e = e :: flat_map iter (e_children e).
Proof. by destruct e. Qed.

Lemma tags_unfold e : tags e = e_tag e :: flat_map tags (e_children e).
Proof.
  unfold tags. rewrite iter_unfold, fmap_cons. f_equal.
  induction (e_children e) as [|c cs IH]; [done|].
  cbn [flat_map]. by rewrite fmap_app, IH.
Qed.

Lemma tags_append parent child :
  tags (append parent child) = tags parent ++ tags child.
Proof.
  rewrite (tags_unfold (append _ _)), (tags_unfold parent).
  cbn [append e_tag e_children]. rewrite flat_map_app. cbn [flat_map].
  by rewrite app_nil_r.
Qed.

Lemma tags_extend parent cs :
  tags (extend parent cs) = tags parent ++ flat_map tags cs.
Proof.
  unfold extend. revert parent.
  induction cs as [|c cs IH]; intros parent; cbn [foldl flat_map].
  - by rewrite app_nil_r.
  - by rewrite IH, tags_append, <- app_assoc.
Qed.

Lemma tags_add_title parent text level lang ref :
  tags (add_title parent text level lang ref)
  = tags parent ++ [qname TEI_NS (u "title")].
Proof. unfold add_title. by rewrite tags_append. Qed.

Lemma tags_add_person_name parent forename surname :
  tags (add_person_name parent forename surname)
  = tags parent
    ++ (qname TEI_NS <$> [u "persName"; u "forename"; u "surname"]).
Proof. unfold add_person_name. by rewrite tags_append. Qed.

Lemma tags_set_text e t : tags (set_text e t) = tags e.
Proof. by rewrite (tags_unfold (set_text _ _)), (tags_unfold e). Qed.

Lemma tags_set_tail e t : tags (set_tail e t) = tags e.
Proof. by rewrite (tags_unfold (set_tail _ _)), (tags_unfold e). Qed.

Lemma tags_add_to_last_tail parent content :
  tags (add_to_last_tail parent content) = tags parent.
Proof.
  unfold add_to_last_tail.
  destruct (reverse (e_children parent)) as [|l before] eqn:Hr; [done|].
  apply (f_equal reverse) in Hr. rewrite reverse_involutive in Hr.
  rewrite reverse_cons in Hr.
  rewrite (tags_unfold (Elem _ _ _ _ _)), (tags_unfold parent), Hr.
  cbn [e_tag e_children]. rewrite !flat_map_app. cbn [flat_map].
  by destruct (truthy (e_tail l)); rewrite tags_set_tail.
Qed.

(** [add_mixed_content] adds [hi] elements and nothing else. *)
Lemma tags_add_mixed_content parent text :
  ∃ n, tags (add_mixed_content parent text)
       = tags parent ++ replicate n (qname TEI_NS (u "hi")).
Proof.
  unfold add_mixed_content.
  destruct (negb (nonempty text)); [exists 0; by rewrite app_nil_r|].
  destruct (markdown_to_tei text) as [[|p parts]|];
    [exists 0; by rewrite tags_set_text, app_nil_r|
    |exists 0; by rewrite tags_set_text, app_nil_r].
  generalize (p :: parts) as ps. generalize 0 as i. intros i ps.
  revert parent i. induction ps as [|[[] content] ps IH]; intros parent i.
  - exists 0. by rewrite app_nil_r.
  - cbn [foldl mixed_step].
    destruct (IH (if i =? 0 then set_text parent (Some content)
                  else add_to_last_tail parent content) (S i)) as [n Hn].
    exists n. rewrite Hn.
    by destruct (i =? 0); rewrite ?tags_set_text, ?tags_add_to_last_tail.
  - cbn [foldl mixed_step].
    destruct (IH (append parent
                    (create_tei_element (u "hi") (Some content)
                       [(u "rend", u "italic")])) (S i)) as [n Hn].
    exists (S n). rewrite Hn, tags_append, tags_create, <- app_assoc.
    done.
Qed.

Lemma tags_in_app allowed e (l : list (list N)) :
  tags e = l → Forall (λ x, x ∈ allowed) l → tags_in allowed e.
Proof. intros <-. done. Qed.

Lemma tags_in_mono allowed allowed' e :
  allowed ⊆ allowed' → tags_in allowed e → tags_in allowed' e.
Proof.
  intros Hsub Hin. eapply Forall_impl; [exact Hin|]. intros x. apply Hsub.
Qed.

Lemma tags_in_create allowed tag text attrib :
  qname TEI_NS tag ∈ allowed →
  tags_in allowed (create_tei_element tag text attrib).
Proof. intros Hin. by apply Forall_singleton. Qed.

Lemma tags_in_append allowed parent child :
  tags_in allowed parent → tags_in allowed child →
  tags_in allowed (append parent child).
Proof.
  intros Hp Hc. unfold tags_in. rewrite tags_append. by apply Forall_app.
Qed.

Lemma tags_in_extend allowed parent cs :
  tags_in allowed parent → Forall (tags_in allowed) cs →
  tags_in allowed (extend parent cs).
Proof.
  intros Hp Hcs. unfold tags_in. rewrite tags_extend. apply Forall_app.
  split; [done|]. induction Hcs as [|c cs Hc _ IH]; [done|].
  cbn [flat_map]. by apply Forall_app.
Qed.

Lemma tags_in_add_title allowed parent text level lang ref :
  tags_in allowed parent → qname TEI_NS (u "title") ∈ allowed →
  tags_in allowed (add_title parent text level lang ref).
Proof.
  intros Hp Ht. unfold tags_in. rewrite tags_add_title. apply Forall_app.
  split; [done|]. by apply Forall_singleton.
Qed.

Lemma tags_in_add_person_name allowed parent forename surname :
  tags_in allowed parent →
  Forall (λ x, x ∈ allowed)
    (qname TEI_NS <$> [u "persName"; u "forename"; u "surname"]) →
  tags_in allowed (add_person_name parent forename surname).
Proof.
  intros Hp Hn. unfold tags_in. rewrite tags_add_person_name.
  by apply Forall_app.
Qed.

Lemma tags_in_add_mixed_content allowed parent text :
  tags_in allowed parent → qname TEI_NS (u "hi") ∈ allowed →
  tags_in allowed (add_mixed_content parent text).
Proof.
  intros Hp Hhi. unfold tags_in.
  destruct (tags_add_mixed_content parent text) as [n ->].
  apply Forall_app. split; [done|]. by apply Forall_replicate.
Qed.

Lemma yields_ret {A} (P : A → Prop) (a : A) : P a → yields P (mret a).
Proof. intros Ha w. exact Ha. Qed.

Lemma yields_bind {A B} (Q : A → Prop) (P : B → Prop) (m : Warn A)
    (k : A → Warn B) :
  yields Q m → (∀ a, Q a → yields P (k a)) → yields P (m ≫= k).
Proof.
  intros Hm Hk w. unfold mbind, warn_bind. specialize (Hm w).
  destruct (m w) as [a w']. by apply Hk.
Qed.

Lemma yields_any {A} (m : Warn A) : yields (λ _, True) m.
Proof. by intros w. Qed.

Lemma yields_for_each {A S} (P : S → Prop) (xs : list A)
    (body : S → A → Warn S) (s : S) :
  (∀ s x, P s → yields P (body s x)) → P s → yields P (for_each xs body s).
Proof.
  intros Hb. revert s. induction xs as [|x xs IH]; intros s Hs; cbn [for_each].
  - by apply yields_ret.
  - eapply yields_bind; [by apply Hb|]. intros s' Hs'. by apply IH.
Qed.
End Tags.

Ltac in_list := apply (bool_decide_unpack _); vm_compute; exact I.

Ltac tags_step :=
  match goal with
  | |- tags_in _ (if ?b then _ else _) => destruct b
  | |- tags_in _ (match ?x with _ => _ end) => destruct x
  | |- tags_in _ (append _ _) => apply tags_in_append
  | |- tags_in _ (extend _ _) => apply tags_in_extend
  | |- tags_in _ (create_tei_element _ _ _) => apply tags_in_create; in_list
  | |- tags_in _ (add_title _ _ _ _ _) => apply tags_in_add_title; [|in_list]
  | |- tags_in _ (add_person_name _ _ _) =>
      apply tags_in_add_person_name; [|in_list]
  | |- tags_in _ (add_mixed_content _ _) =>
      apply tags_in_add_mixed_content; [|in_list]
  | |- tags_in _ (org_holder _ _ _ _) => unfold org_holder
  | |- tags_in _ (prefix_def _ _ _ _) => unfold prefix_def
  | |- Forall _ (if ?b then _ else _) => destruct b
  | |- Forall _ (_ :: _) => apply Forall_cons; split
  | |- Forall _ [] => by apply Forall_nil
  | |- Forall _ (_ <$> _) =>
      apply Forall_fmap, Forall_forall; intros ? _; unfold compose
  | |- Forall _ (_ ++ _) => apply Forall_app; split
  end.

Section Vocabulary.
Context `{Runtime}.
Implicit Types dataset : Dataset.
Implicit Types t : TemplateData.

Lemma tags_in_editors allowed author_names :
  Forall (λ x, x ∈ allowed)
    (qname TEI_NS <$> [u "editor"; u "persName"; u "forename"; u "surname"]) →
  Forall (tags_in allowed) (editors author_names).
Proof.
  intros Ha.
  assert (∀ f s, tags_in allowed (add_person_name new_editor f s)) as Hed.
  { intros f s. unfold tags_in. rewrite tags_add_person_name. exact Ha. }
  unfold editors. destruct author_names as [|a names].
  { by apply Forall_singleton. }
  generalize (take 3 (a :: names)) as l. intros l.
  induction l as [|x l IH]; [done|]. cbn [flat_map]. apply Forall_app.
  split; [|done]. unfold editor_of. cbv zeta.
  destruct (2 <=? _); [by apply Forall_singleton|done].
Qed.

Lemma tags_in_title_stmt dataset t :
  tags_in FILE_TAGS (title_stmt_of dataset t).
Proof.
  unfold title_stmt_of. cbv zeta. repeat tags_step.
  apply tags_in_editors. in_list.
Qed.

Lemma tags_in_pub_stmt dataset t : tags_in FILE_TAGS (pub_stmt_of dataset t).
Proof. unfold pub_stmt_of. cbv zeta. repeat tags_step. Qed.

Lemma tags_in_series_stmt t : tags_in FILE_TAGS (series_stmt_of t).
Proof.
  unfold series_stmt_of. cbv zeta.
  assert (∀ titles s, tags_in FILE_TAGS s →
            tags_in FILE_TAGS
              (foldl (λ s title_data,
                        add_title s (st_text title_data) None
                          (Some (st_lang title_data))
                          (Some (st_ref title_data))) s titles)) as Hfold.
  { intros titles. induction titles as [|x titles IH]; intros s Hs; [done|].
    cbn [foldl]. apply IH. by tags_step. }
  repeat first [apply Hfold | tags_step].
Qed.

Lemma tags_in_source_bibl dataset : tags_in FILE_TAGS (source_bibl_of dataset).
Proof. unfold source_bibl_of. cbv zeta. repeat tags_step. Qed.

Lemma tags_in_citation_bibl dataset :
  Forall (tags_in FILE_TAGS) (citation_bibl_of dataset).
Proof. unfold citation_bibl_of. cbv zeta. repeat tags_step. Qed.

Lemma yields_csv_rs dataset dataset_id key rs_type fallback :
  yields (Forall (tags_in FILE_TAGS))
    (csv_rs dataset dataset_id key rs_type fallback).
Proof.
  unfold csv_rs. cbv zeta.
  destruct (truthy (dataset !! key)); [|by apply yields_ret].
  eapply yields_bind; [apply yields_any|]. intros [filename title] _.
  destruct (truthy filename); apply yields_ret; repeat tags_step.
Qed.

Lemma yields_data_bibl dataset :
  yields (tags_in FILE_TAGS) (data_bibl_of dataset).
Proof.
  unfold data_bibl_of. cbv zeta.
  eapply yields_bind; [apply yields_csv_rs|]. intros rs_codes Hcodes.
  eapply yields_bind; [apply yields_csv_rs|]. intros rs_labels Hlabels.
  apply yields_ret. repeat tags_step; done.
Qed.

Lemma tags_in_zusatz_rs dataset_id filename title :
  tags_in FILE_TAGS (zusatz_rs dataset_id filename title).
Proof. unfold zusatz_rs. cbv zeta. repeat tags_step. Qed.

Lemma tags_in_bild_rs dataset_id filename title :
  tags_in FILE_TAGS (bild_rs dataset_id filename title).
Proof. unfold bild_rs. cbv zeta. repeat tags_step. Qed.

Lemma yields_file_loop_body dataset dataset_id prefix mk_rs st i :
  (∀ filename title, tags_in FILE_TAGS (mk_rs dataset_id filename title)) →
  tags_in FILE_TAGS (snd st) →
  yields (λ st, tags_in FILE_TAGS (snd st))
    (file_loop_body dataset dataset_id prefix mk_rs st i).
Proof.
  intros Hmk Hst. unfold file_loop_body. cbv zeta.
  destruct (truthy _); [|by apply yields_ret].
  eapply yields_bind; [apply yields_any|]. intros [filename title] _.
  destruct (truthy filename); apply yields_ret; [|done].
  cbn [snd]. by apply tags_in_append.
Qed.

Lemma yields_additional_bibl dataset :
  yields (Forall (tags_in FILE_TAGS)) (additional_bibl_of dataset).
Proof.
  unfold additional_bibl_of. cbv zeta.
  eapply (yields_bind (λ st, tags_in FILE_TAGS (snd st))).
  { apply yields_for_each; [|cbn [snd]; by tags_step].
    intros st i Hst. apply yields_file_loop_body; [|done].
    apply tags_in_zusatz_rs. }
  intros st1 Hst1.
  eapply (yields_bind (λ st, tags_in FILE_TAGS (snd st))).
  { apply yields_for_each; [|done].
    intros st i Hst. apply yields_file_loop_body; [|done].
    apply tags_in_bild_rs. }
  intros st2 Hst2.
  assert (tags_in FILE_TAGS
            (snd (foldl (literatur_body dataset) st2 (seq 1 4)))) as Hlit.
  { generalize (seq 1 4) as l. intros l. revert st2 Hst2.
    induction l as [|i l IH]; intros st2 Hst2; [done|]. cbn [foldl].
    apply IH. unfold literatur_body. cbv zeta.
    destruct (truthy _); [|done]. cbn [snd]. by repeat tags_step. }
  destruct (foldl (literatur_body dataset) st2 (seq 1 4)) as [has bibl].
  apply yields_ret. destruct has; [by apply Forall_singleton|done].
Qed.

Lemma yields_source_desc dataset :
  yields (tags_in FILE_TAGS) (source_desc_of dataset).
Proof.
  unfold source_desc_of. cbv zeta.
  eapply yields_bind; [apply yields_data_bibl|]. intros data_bibl Hdata.
  eapply yields_bind; [apply yields_additional_bibl|]. intros additional Hadd.
  apply yields_ret. apply tags_in_extend.
  - apply tags_in_extend; [by tags_step|]. apply Forall_cons.
    split; [apply tags_in_source_bibl|apply tags_in_citation_bibl].
  - by apply Forall_cons.
Qed.

Lemma FILE_TAGS_TEI_TAGS : FILE_TAGS ⊆ TEI_TAGS.
Proof. intros x Hx. unfold TEI_TAGS. apply elem_of_app. by left. Qed.

Lemma tags_in_encoding_desc t : tags_in TEI_TAGS (encoding_desc_of t).
Proof. unfold encoding_desc_of. cbv zeta. repeat tags_step. Qed.

Lemma tags_in_profile_desc dataset : tags_in TEI_TAGS (profile_desc_of dataset).
Proof.
  unfold profile_desc_of. cbv zeta. repeat tags_step.
  generalize (split (u ",") (get_or dataset (u "Schlagwörter") [])) as l.
  intros l. induction l as [|k l IH]; [done|]. cbn [flat_map].
  apply Forall_app. split; [|done]. by repeat tags_step.
Qed.

Lemma tags_in_text dataset : tags_in TEI_TAGS (text_of dataset).
Proof.
  unfold text_of. cbv zeta. repeat tags_step.
  match goal with |- Forall _ (flat_map _ ?x) => generalize x end.
  intros l. induction l as [|k l IH]; [done|]. cbn [flat_map].
  apply Forall_app. split; [|done]. by repeat tags_step.
Qed.

(** X22.  The names of the elements of a generated document.  Every
    element of every document, whatever the record and the template,
    has one of the fifty-two names listed in [TEI_TAGS], all in the
    TEI namespace: no text of the record and no value of the template
    becomes the name of an element. *)
Theorem create_tei_document_tags dataset t w :
  tags_in TEI_TAGS (fst (create_tei_document dataset t w)).
Proof.
  revert w. change (yields (tags_in TEI_TAGS) (create_tei_document dataset t)).
  unfold create_tei_document. cbv zeta.
  eapply yields_bind; [apply yields_source_desc|]. intros source_desc Hsource.
  apply yields_ret.
  pose proof (λ e, tags_in_mono _ _ e FILE_TAGS_TEI_TAGS) as Hmono.
  repeat tags_step.
  - apply Hmono, tags_in_title_stmt.
  - apply Hmono, tags_in_pub_stmt.
  - apply Hmono, tags_in_series_stmt.
  - by apply Hmono.
  - apply tags_in_encoding_desc.
  - apply tags_in_profile_desc.
  - apply tags_in_text.
Qed.
End Vocabulary.

(** ** A generated document as template *)

Section RoundTrip.
Context `{Runtime}.
Implicit Types e : Element.
Implicit Types es : list Element.
Implicit Types tag : list N.
Implicit Types dataset : Dataset.
Implicit Types t : TemplateData.

Lemma filter_tag_none tag e :
  tag ∉ tags e → filter (λ c, e_tag c = tag) (iter e) = [].
Proof.
  unfold tags. induction (iter e) as [|x l IH]; [done|].
  rewrite fmap_cons, not_elem_of_cons. intros [Hx Hl].
  rewrite filter_cons, decide_False by done. by apply IH.
Qed.

Lemma first_tag_skip tag e es :
  tag ∉ tags e → first_tag tag (e :: es) = first_tag tag es.
Proof.
  intros Hno. unfold first_tag. cbn [flat_map].
  by rewrite filter_app, filter_tag_none.
Qed.

Lemma first_tag_skip_list tag es1 es2 :
  Forall (λ e, tag ∉ tags e) es1 →
  first_tag tag (es1 ++ es2) = first_tag tag es2.
Proof.
  induction 1 as [|e es1 He _ IH]; [done|].
  cbn [app]. by rewrite first_tag_skip.
Qed.

Lemma first_tag_here tag e es :
  e_tag e = tag → first_tag tag (e :: es) = Some e.
Proof.
  intros He. unfold first_tag. cbn [flat_map].
  rewrite iter_unfold. cbn [app]. by rewrite filter_cons, decide_True.
Qed.

Lemma first_tag_into tag e es :
  e_tag e ≠ tag →
  first_tag tag (e :: es)
  = match first_tag tag (e_children e) with
    | Some x => Some x
    | None => first_tag tag es
    end.
Proof.
  intros He. unfold first_tag. cbn [flat_map].
  rewrite iter_unfold. cbn [app]. rewrite filter_cons, decide_False by done.
  rewrite filter_app.
  by destruct (filter _ (flat_map iter (e_children e))).
Qed.

Lemma tags_in_absent allowed tag e :
  tags_in allowed e → tag ∉ allowed → tag ∉ tags e.
Proof.
  intros Hin Hno Htag. unfold tags_in in Hin. rewrite Forall_forall in Hin.
  by apply Hno, Hin.
Qed.

Lemma create_stored tag text attrib :
  create_tei_element tag (stored text) attrib
  = create_tei_element tag text attrib.
Proof.
  unfold create_tei_element, stored.
  destruct text as [x|]; cbn [truthy]; [|done].
  by destruct (nonempty x) eqn:Hx; cbn [truthy]; rewrite ?Hx.
Qed.

Lemma text_create tag text attrib :
  e_text (create_tei_element tag text attrib) = stored text.
Proof. done. Qed.

Local Ltac tag_top :=
  unfold add_title, add_person_name;
  repeat (rewrite tag_extend || rewrite tag_append).

Local Ltac tag_neq :=
  tag_top; let Heq := fresh in
  intros Heq; vm_compute in Heq; discriminate Heq.

Local Ltac tag_eq := tag_top; reflexivity.

Local Ltac not_in_list :=
  apply (bool_decide_unpack _); vm_compute; exact I.

Lemma create_tei_document_tree dataset t w :
  fst (create_tei_document dataset t w)
  = extend (create_tei_element (u "TEI") None [])
      [ extend
          (create_tei_element (u "teiHeader") None
             [(qname XML_NS (u "lang"), u "en")])
          [ file_desc_of dataset t (fst (source_desc_of dataset w));
            encoding_desc_of t; profile_desc_of dataset ];
        text_of dataset ].
Proof.
  unfold create_tei_document, mbind, warn_bind.
  by destruct (source_desc_of dataset w).
Qed.

Lemma tags_in_file_desc dataset t w :
  tags_in FILE_TAGS (file_desc_of dataset t (fst (source_desc_of dataset w))).
Proof.
  unfold file_desc_of. repeat tags_step.
  - apply tags_in_title_stmt.
  - apply tags_in_pub_stmt.
  - apply tags_in_series_stmt.
  - apply yields_source_desc.
Qed.

(** The names in the title statement. *)
Lemma tags_title_stmt dataset t :
  tags_in
    (qname TEI_NS <$>
       [ u "titleStmt"; u "title"; u "editor"; u "persName"; u "forename";
         u "surname"; u "respStmt"; u "resp"; u "funder"; u "orgName";
         u "num" ])
    (title_stmt_of dataset t).
Proof.
  unfold title_stmt_of. cbv zeta. repeat tags_step.
  apply tags_in_editors. in_list.
Qed.

Lemma tags_pub_stmt dataset t :
  tags_in
    (qname TEI_NS <$>
       [ u "publicationStmt"; u "publisher"; u "authority"; u "distributor";
         u "availability"; u "licence"; u "date"; u "pubPlace"; u "idno";
         u "orgName" ])
    (pub_stmt_of dataset t).
Proof. unfold pub_stmt_of. cbv zeta. repeat tags_step. Qed.

(** Where the four places of the template stand in a document. *)
Lemma findall_first dataset t w tag :
  head (findall_elem (fst (create_tei_document dataset t w)) tag)
  = first_tag (qname TEI_NS tag)
      [ extend
          (create_tei_element (u "teiHeader") None
             [(qname XML_NS (u "lang"), u "en")])
          [ file_desc_of dataset t (fst (source_desc_of dataset w));
            encoding_desc_of t; profile_desc_of dataset ];
        text_of dataset ].
Proof. by rewrite create_tei_document_tree. Qed.

Local Ltac enter :=
  rewrite first_tag_into by (unfold file_desc_of; tag_neq);
  rewrite children_extend; cbn [create_tei_element e_children app].

(** The series statement: the titles, then the director and the team
    when the template has them. *)
Lemma series_stmt_tree t :
  series_stmt_of t
  = Elem (qname TEI_NS (u "seriesStmt")) [] None None
      ((series_title_elem <$> default [] (series_titles t))
       ++ option_list (director_elem <$> project_director t)
       ++ option_list (team_elem <$> research_team t)).
Proof.
  unfold series_stmt_of. cbv zeta.
  assert (∀ titles s,
            foldl (λ s title_data,
                     add_title s (st_text title_data) None
                       (Some (st_lang title_data))
                       (Some (st_ref title_data))) s titles
            = Elem (e_tag s) (e_attrib s) (e_text s) (e_tail s)
                (e_children s ++ (series_title_elem <$> titles))) as ->.
  { intros titles. induction titles as [|x titles IH]; intros s.
    - rewrite app_nil_r. by destruct s.
    - cbn [foldl]. rewrite IH. cbn [add_title append e_tag e_attrib e_text
        e_tail e_children truthy]. rewrite fmap_cons, <- app_assoc. done. }
  cbn [create_tei_element e_tag e_attrib e_text e_tail e_children app].
  destruct (project_director t), (research_team t);
    cbn [fmap option_fmap option_map option_list truthy];
    rewrite ?app_nil_r; try reflexivity.
  all: match goal with
       | |- append ?a ?b = _ =>
           change (append a b)
             with (Elem (e_tag a) (e_attrib a) (e_text a) (e_tail a)
                     (e_children a ++ [b]))
       end; cbn [append e_tag e_attrib e_text e_tail e_children];
       by rewrite <- ?app_assoc.
Qed.

Lemma first_pub_stmt dataset t w :
  head (findall_elem (fst (create_tei_document dataset t w))
          (u "publicationStmt"))
  = Some (pub_stmt_of dataset t).
Proof.
  rewrite findall_first. enter. unfold file_desc_of at 1. enter.
  rewrite first_tag_skip.
  2:{ eapply tags_in_absent; [apply tags_title_stmt|not_in_list]. }
  rewrite first_tag_here; [done|]. reflexivity.
Qed.

Lemma first_series_stmt dataset t w :
  head (findall_elem (fst (create_tei_document dataset t w)) (u "seriesStmt"))
  = Some (series_stmt_of t).
Proof.
  rewrite findall_first. enter. unfold file_desc_of at 1. enter.
  rewrite first_tag_skip.
  2:{ eapply tags_in_absent; [apply tags_title_stmt|not_in_list]. }
  rewrite first_tag_skip.
  2:{ eapply tags_in_absent; [apply tags_pub_stmt|not_in_list]. }
  rewrite first_tag_here; [done|]. by rewrite series_stmt_tree.
Qed.

(** The project description: the reference when the template has one,
    then the paragraphs. *)
Lemma project_desc_tree t :
  e_children (encoding_desc_of t) !! 0
  = Some (Elem (qname TEI_NS (u "projectDesc")) [] None None
            (option_list (context_elem <$> project_context_ref t)
             ++ (paragraph_elem <$> default [] (project_desc_paragraphs t)))).
Proof.
  unfold encoding_desc_of. cbv zeta. rewrite children_extend.
  cbn [create_tei_element e_children app lookup list_lookup]. f_equal.
  unfold extend.
  assert (∀ l s, foldl append s l
                 = Elem (e_tag s) (e_attrib s) (e_text s) (e_tail s)
                     (e_children s ++ l)) as ->.
  { intros l. induction l as [|x l IH]; intros s.
    - rewrite app_nil_r. by destruct s.
    - cbn [foldl]. rewrite IH. cbn [append e_tag e_attrib e_text e_tail
        e_children]. by rewrite <- app_assoc. }
  by destruct (project_context_ref t).
Qed.

Lemma first_project_desc dataset t w :
  head (findall_elem (fst (create_tei_document dataset t w))
          (u "projectDesc"))
  = e_children (encoding_desc_of t) !! 0.
Proof.
  rewrite findall_first. enter.
  rewrite first_tag_skip.
  2:{ eapply tags_in_absent; [apply tags_in_file_desc|not_in_list]. }
  rewrite first_tag_into by (unfold encoding_desc_of; cbv zeta; tag_neq).
  pose proof (project_desc_tree t) as Hpd.
  destruct (e_children (encoding_desc_of t)) as [|pd rest]; [done|].
  cbn in Hpd. injection Hpd as ->. by rewrite first_tag_here.
Qed.

(** The funder stands at the end of the title statement, behind the
    editors. *)
Lemma first_funder dataset t w :
  head (findall_elem (fst (create_tei_document dataset t w)) (u "funder"))
  = Some
      (extend
         (create_tei_element (u "funder") None [(u "ana", u "marcrelator:fnd")])
         [ create_tei_element (u "orgName")
             (default (Some (u "Austrian Science Fund (FWF)")) (funder_name t))
             [(u "ref", default (u "https://www.fwf.ac.at/de/") (funder_ref t))];
           create_tei_element (u "num")
             (default (Some (u "P 38285-G")) (funder_num t)) [] ]).
Proof.
  rewrite findall_first. enter. unfold file_desc_of at 1. enter.
  rewrite first_tag_into by (unfold title_stmt_of; cbv zeta; tag_neq).
  unfold title_stmt_of. cbv zeta.
  rewrite !children_append, children_extend.
  cbn [add_title append create_tei_element e_children app].
  rewrite first_tag_skip by not_in_list.
  rewrite <- !app_assoc. rewrite first_tag_skip_list.
  2:{ eapply Forall_impl.
      - apply (tags_in_editors
                 (qname TEI_NS <$>
                    [u "editor"; u "persName"; u "forename"; u "surname"])).
        in_list.
      - intros e He. eapply tags_in_absent; [exact He|not_in_list]. }
  cbn [app]. rewrite first_tag_skip by not_in_list.
  by rewrite first_tag_here by tag_eq.
Qed.

(** The titles and the [respStmt] elements of a series statement. *)
Lemma flat_map_iter_leaves {A} (f : A → Element) (l : list A) :
  (∀ x, e_children (f x) = []) → flat_map iter (f <$> l) = f <$> l.
Proof.
  intros Hleaf. induction l as [|x l IH]; [done|].
  cbn [fmap list_fmap flat_map]. rewrite iter_unfold, Hleaf. cbn. by rewrite IH.
Qed.

Lemma filter_fmap_all {A} (P : Element → Prop) `{∀ e, Decision (P e)}
    (f : A → Element) (l : list A) :
  (∀ x, P (f x)) → filter P (f <$> l) = f <$> l.
Proof.
  intros Hall. induction l as [|x l IH]; [done|].
  cbn [fmap list_fmap]. rewrite filter_cons, decide_True by done.
  by rewrite IH.
Qed.

Lemma filter_fmap_none {A} (P : Element → Prop) `{∀ e, Decision (P e)}
    (f : A → Element) (l : list A) :
  (∀ x, ¬ P (f x)) → filter P (f <$> l) = [].
Proof.
  intros Hnone. induction l as [|x l IH]; [done|].
  cbn [fmap list_fmap]. by rewrite filter_cons, decide_False.
Qed.

Lemma series_findall t :
  findall_elem (series_stmt_of t) (u "title")
  = series_title_elem <$> default [] (series_titles t)
  ∧ findall_elem (series_stmt_of t) (u "respStmt")
    = option_list (director_elem <$> project_director t)
      ++ option_list (team_elem <$> research_team t).
Proof.
  rewrite series_stmt_tree. unfold findall_elem. cbn [e_children].
  rewrite !flat_map_app, flat_map_iter_leaves by done.
  rewrite !filter_app. split.
  - rewrite filter_fmap_all by done.
    destruct (project_director t), (research_team t);
      by rewrite ?app_nil_r.
  - rewrite filter_fmap_none.
    2:{ intros x Hx. vm_compute in Hx. discriminate Hx. }
    by destruct (project_director t), (research_team t).
Qed.

Lemma series_title_read (title : SeriesTitle) :
  {| st_text := e_text (series_title_elem title);
     st_lang := attr (series_title_elem title) (qname XML_NS (u "lang"));
     st_ref := attr (series_title_elem title) (u "ref") |}
  = {| st_text := stored (st_text title);
       st_lang := st_lang title; st_ref := st_ref title |}.
Proof.
  unfold series_title_elem, attr.
  cbn [create_tei_element e_text e_attrib]. fold (stored (st_text title)).
  destruct (nonempty (st_lang title)) eqn:Hl;
    destruct (nonempty (st_ref title)) eqn:Hr;
    try apply nonempty_false in Hl; try apply nonempty_false in Hr;
    rewrite ?Hl, ?Hr; reflexivity.
Qed.

Lemma resp_read t :
  foldl resp_step (None, None)
    (option_list (director_elem <$> project_director t)
     ++ option_list (team_elem <$> research_team t))
  = (project_director (generated_template t),
     research_team (generated_template t)).
Proof.
  unfold generated_template. cbn [project_director research_team].
  by destruct (project_director t), (research_team t).
Qed.

(** The paragraphs and the reference of a project description. *)
Lemma project_desc_read t pd :
  e_children (encoding_desc_of t) !! 0 = Some pd →
  omap (λ p, if truthy (e_text p) then e_text p else None)
    (findall_elem pd (u "p"))
  = filter (λ p, p ≠ []) (default [] (project_desc_paragraphs t))
  ∧ (find_elem pd (u "ab") ≫= λ ab, find_elem ab (u "ref")
       ≫= λ ref,
         Some {| ref_text := e_text ref;
                 ref_target := attr ref (u "target");
                 ref_type := attr ref (u "type") |})
    = project_context_ref (generated_template t).
Proof.
  rewrite project_desc_tree. intros [= <-].
  unfold findall_elem, find_elem. cbn [e_children].
  rewrite flat_map_app, !filter_app,
    (flat_map_iter_leaves paragraph_elem) by done.
  rewrite (filter_fmap_all _ paragraph_elem) by done.
  rewrite (filter_fmap_none _ paragraph_elem).
  2:{ intros x Hx. vm_compute in Hx. discriminate Hx. }
  split.
  - assert (filter (λ c, e_tag c = qname TEI_NS (u "p"))
              (flat_map iter
                 (option_list (context_elem <$> project_context_ref t)))
            = []) as -> by by destruct (project_context_ref t).
    cbn [app]. generalize (default [] (project_desc_paragraphs t)) as l.
    intros l. induction l as [|x l IH]; [done|].
    cbn [fmap list_fmap omap list_omap paragraph_elem create_tei_element
         e_text truthy].
    rewrite filter_cons. destruct (nonempty x) eqn:Hx.
    + cbn [truthy]. rewrite Hx. rewrite decide_True by by apply nonempty_true.
      f_equal. exact IH.
    + cbn [truthy]. rewrite decide_False; [exact IH|].
      apply nonempty_false in Hx. by intros ?.
  - unfold generated_template. cbn [project_context_ref].
    by destruct (project_context_ref t).
Qed.

(** The builders on the template of a generated document. *)
Lemma title_stmt_generated dataset t :
  title_stmt_of dataset (generated_template t) = title_stmt_of dataset t.
Proof.
  unfold title_stmt_of, generated_template. cbv zeta.
  cbn [funder_name funder_ref funder_num default from_option id].
  by rewrite !create_stored.
Qed.

Lemma pub_stmt_generated dataset t :
  pub_stmt_of dataset (generated_template t) = pub_stmt_of dataset t.
Proof.
  unfold pub_stmt_of, generated_template, org_holder. cbv zeta.
  cbn [publisher_name publisher_corresp authority_name authority_corresp
       distributor_name distributor_ref license_text license_target pub_place
       default from_option id].
  by rewrite !create_stored.
Qed.

Lemma series_stmt_generated t :
  series_stmt_of (generated_template t) = series_stmt_of t.
Proof.
  rewrite !series_stmt_tree. unfold generated_template.
  cbn [series_titles project_director research_team default from_option id].
  f_equal. f_equal; [|f_equal].
  - rewrite <- list_fmap_compose. apply list_fmap_ext. intros _ x _.
    unfold compose, series_title_elem. cbn [st_text st_lang st_ref].
    apply create_stored.
  - destruct (project_director t) as [pdr|]; [|done].
    cbn [fmap option_fmap option_map option_list]. f_equal.
    unfold director_elem, add_person_name, extend.
    cbn [pdr_forename pdr_surname pdr_resp foldl]. by rewrite !create_stored.
  - destruct (research_team t) as [team|]; [|done].
    cbn [fmap option_fmap option_map option_list]. f_equal.
    unfold team_elem. cbn [rth_name rth_ref rth_resp].
    by rewrite !create_stored.
Qed.

Lemma encoding_desc_generated t :
  Forall (λ p, p ≠ []) (default [] (project_desc_paragraphs t)) →
  encoding_desc_of (generated_template t) = encoding_desc_of t.
Proof.
  intros Hne. unfold encoding_desc_of, generated_template. cbv zeta.
  cbn [project_context_ref project_desc_paragraphs default from_option id].
  rewrite (filter_all (λ p, p ≠ [])) by done.
  destruct (project_context_ref t) as [ref_data|]; [|done].
  cbn [fmap option_fmap option_map ref_text ref_target ref_type].
  by rewrite create_stored.
Qed.

(** X23.  A generated document as template.  Reading the template
    from a generated document gives the template it was generated
    with, its defaults filled in and every text as the document stores
    it, whatever the record.  And when the project description of the
    template has no empty paragraph, generating with the template read
    back gives the same document, and the same warnings, as generating
    with the first template: a generated file can stand in for the
    template file. *)
Theorem template_round_trip dataset t w :
  extract_template_data (Some (fst (create_tei_document dataset t w)))
  = generated_template t
  ∧ (Forall (λ p, p ≠ []) (default [] (project_desc_paragraphs t)) →
     ∀ dataset' w',
       create_tei_document dataset' (generated_template t) w'
       = create_tei_document dataset' t w').
Proof.
  split.
  - unfold extract_template_data. cbv zeta.
    rewrite first_pub_stmt, first_funder, first_series_stmt,
      first_project_desc.
    cbn [mbind option_bind from_option fmap option_fmap option_map].
    destruct (series_findall t) as [-> ->]. rewrite resp_read.
    pose proof (project_desc_tree t) as Hpd.
    destruct (e_children (encoding_desc_of t) !! 0) as [pd|] eqn:Hpd0;
      [|done].
    destruct (project_desc_read t pd Hpd0) as [Hp Hc].
    cbn [fmap option_fmap option_map mbind option_bind].
    rewrite Hp. cbn [mbind option_bind] in Hc. rewrite Hc.
    rewrite <- list_fmap_compose.
    rewrite (list_fmap_ext _
               (λ title, {| st_text := stored (st_text title);
                            st_lang := st_lang title;
                            st_ref := st_ref title |})
               (default [] (series_titles t)))
      by (intros _ x _; apply series_title_read).
    reflexivity.
  - intros Hne dataset' w'. unfold create_tei_document.
    by rewrite title_stmt_generated, pub_stmt_generated,
      series_stmt_generated, encoding_desc_generated.
Qed.
End RoundTrip.

(** X23 on a template that names the project director. *)
Lemma template_round_trip_witness :
  create_tei_document (∅ : Dataset) (generated_template director_template) []
  = create_tei_document (∅ : Dataset) director_template [].
Proof.
  apply (proj2 (template_round_trip ∅ director_template [])).
  apply (bool_decide_unpack _). vm_compute. exact I.
Defined.
